(** * The in-enclave tuple engine of [NewInternalTypes.h]

    A shallow embedding of the row buffer, the join record, the group-by
    keys, the aggregation state machines and the block readers and writers
    (whole-block and streaming), followed by the properties of the
    specification that concern them.

    Conventions.
    - A byte is a [Z] in [0, 256); reading a 32-bit word keeps the low
      eight bits of each of its four cells.  A [uint32_t] is a [Z], reduced
      modulo [2^32] wherever the C++ arithmetic can wrap.
    - A [uint8_t *] into a buffer is the buffer, a [list byte], together
      with an offset.
    - A failed [check] (printf followed by assert) ends the enclave call,
      and so does, here, an access outside a buffer, which the source
      leaves undefined: operations return in [result].
    - Overloads are told apart by name, and a member function takes the
      object it updates as its last argument and returns the new one.
    - What the header only declares, or takes from other files (the
      cipher, the type tags, the members of [NewRecord] defined elsewhere),
      is a parameter or is modelled from the specification, and says so. *)

From Stdlib Require Import ZArith List Lia Bool.
Import ListNotations.
Local Open Scope Z_scope.

(** ** Errors and the result monad *)

Inductive error : Set :=
| TypeMismatch
| IndexOutOfRange
| CapacityExceeded
| FormatError
| CipherError
| GroupingMismatch
| MemoryFault.

Inductive result (A : Type) : Type :=
| Ok (a : A)
| Err (e : error).
Arguments Ok {A} a.
Arguments Err {A} e.

Definition bind {A B : Type} (c : result A) (k : A -> result B) : result B :=
  match c with
  | Ok a => k a
  | Err e => Err e
  end.

Declare Scope result_scope.
Delimit Scope result_scope with result.
Notation "x <- c ;; k" := (bind c (fun x => k))
  (at level 61, c at next level, right associativity) : result_scope.
Notation "c ;;; k" := (bind c (fun _ => k))
  (at level 61, right associativity) : result_scope.
Local Open Scope result_scope.

(** The [check(test, ...)] macro: print and assert. *)
Definition check (test : bool) (e : error) : result unit :=
  if test then Ok tt else Err e.

Definition is_ok {A : Type} (c : result A) : bool :=
  match c with Ok _ => true | Err _ => false end.

(** ** Bytes and little-endian 32-bit words *)

Definition byte := Z.

Definition is_byte (b : byte) : Prop := 0 <= b < 256.

Module U32.

Definition modulus : Z := 4294967296.

Definition wrap (x : Z) : Z := x mod modulus.

Definition add (x y : Z) : Z := wrap (x + y).
Definition sub (x y : Z) : Z := wrap (x - y).
Definition incr (x : Z) : Z := wrap (x + 1).

(** [*reinterpret_cast<uint32_t *>(p) = x] on a little-endian target. *)
Definition encode (x : Z) : list byte :=
  [ x mod 256; (x / 256) mod 256; (x / 65536) mod 256; (x / 16777216) mod 256 ].

(** [*reinterpret_cast<uint32_t *>(p)], given the four bytes at [p]. *)
Definition decode (bs : list byte) : Z :=
  nth 0 bs 0 mod 256 + 256 * (nth 1 bs 0 mod 256)
  + 65536 * (nth 2 bs 0 mod 256) + 16777216 * (nth 3 bs 0 mod 256).

End U32.

(** ** Buffers

A buffer is the list of its bytes; a pointer into it is an offset.
Reading or writing outside the buffer is undefined behaviour in the
source and a [MemoryFault] here. *)

Definition in_bounds (pos len : Z) (mem : list byte) : bool :=
  (0 <=? pos) && (0 <=? len) && (pos + len <=? Z.of_nat (length mem)).

Definition load (pos len : Z) (mem : list byte) : result (list byte) :=
  if in_bounds pos len mem
  then Ok (firstn (Z.to_nat len) (skipn (Z.to_nat pos) mem))
  else Err MemoryFault.

Definition store (pos : Z) (bs mem : list byte) : result (list byte) :=
  if in_bounds pos (Z.of_nat (length bs)) mem
  then Ok (firstn (Z.to_nat pos) mem ++ bs
             ++ skipn (Z.to_nat pos + length bs) mem)
  else Err MemoryFault.

Definition load8 (pos : Z) (mem : list byte) : result byte :=
  bs <- load pos 1 mem ;; Ok (nth 0 bs 0).

Definition load32 (pos : Z) (mem : list byte) : result Z :=
  bs <- load pos 4 mem ;; Ok (U32.decode bs).

Definition store32 (pos : Z) (x : Z) (mem : list byte) : result (list byte) :=
  store pos (U32.encode x) mem.

Definition bytes_eqb (a b : list byte) : bool :=
  if list_eq_dec Z.eq_dec a b then true else false.

(** ** What the header takes from its environment *)

(** The compile-time constants of [util.h]. *)
Class Limits : Type := {
  ROW_UPPER_BOUND : N;
  MAX_BLOCK_SIZE : N
}.

(** The attribute type tags: the tag of a 4-byte integer, which tags are
    dummy tags, and the upper bound on the encoded size of an attribute
    of a given type. *)
Class TypeTable : Type := {
  INT : byte;
  is_dummy_type : byte -> bool;
  attr_upper_bound : byte -> Z
}.

(** ** Rows: [class NewRecord]

[[uint32_t num_cols]([uint8_t type][uint32_t len][contents])...] *)

(** The offset reached from [off] after skipping [n] attributes.  Every
    attribute takes at least five bytes, so [fuel = length mem] steps are
    enough for any walk that stays inside [mem]. *)
Fixpoint skip_attrs (fuel : nat) (mem : list byte) (off n : Z) : result Z :=
  if n <=? 0 then Ok off
  else match fuel with
       | O => Err MemoryFault
       | S fuel' =>
           len <- load32 (off + 1) mem ;;
           skip_attrs fuel' mem (off + 5 + len) (n - 1)
       end.

(** Does one of the [n] attributes from [off] on carry a dummy type tag? *)
Fixpoint any_dummy `{TypeTable} (fuel : nat) (mem : list byte) (off n : Z)
  : result bool :=
  if n <=? 0 then Ok false
  else match fuel with
       | O => Err MemoryFault
       | S fuel' =>
           ty <- load8 off mem ;;
           if is_dummy_type ty then Ok true
           else len <- load32 (off + 1) mem ;;
                any_dummy fuel' mem (off + 5 + len) (n - 1)
       end.

(** The sum of the per-type upper bounds of the [n] attributes from [off]. *)
Fixpoint sum_upper_bounds `{TypeTable} (fuel : nat) (mem : list byte)
    (off n acc : Z) : result Z :=
  if n <=? 0 then Ok acc
  else match fuel with
       | O => Err MemoryFault
       | S fuel' =>
           ty <- load8 off mem ;;
           len <- load32 (off + 1) mem ;;
           sum_upper_bounds fuel' mem (off + 5 + len) (n - 1)
             (U32.add acc (attr_upper_bound ty))
       end.

(** The [[type][len][value]] triple an attribute pointer points to. *)
Definition attr_bytes (mem : list byte) (a : Z) : result (list byte) :=
  len <- load32 (a + 1) mem ;;
  load a (5 + len) mem.

(** Modelled from the spec: [attrs_equal], declared in the header and
    defined outside it: a byte-wise comparison of the two
    [[type][len][value]] triples. *)
Definition attrs_equal (ma : list byte) (a : Z) (mb : list byte) (b : Z)
  : result bool :=
  ta <- load8 a ma ;;
  tb <- load8 b mb ;;
  la <- load32 (a + 1) ma ;;
  lb <- load32 (b + 1) mb ;;
  if (ta =? tb) && (la =? lb)
  then va <- load (a + 5) la ma ;;
       vb <- load (b + 5) lb mb ;;
       Ok (bytes_eqb va vb)
  else Ok false.

Module NewRecord.

Record t : Type := mk {
  row : list byte;
  row_length : Z
}.

Section Ops.
  Context {lim : Limits} {types : TypeTable}.

(** [NewRecord(uint32_t upper_bound)]: a zeroed buffer, no columns. *)
Definition make (upper_bound : Z) : t :=
  mk (repeat 0 (Z.to_nat upper_bound)) 4.

Definition default : t := make (Z.of_N ROW_UPPER_BOUND).

Definition num_cols (r : t) : result Z := load32 0 (row r).

Definition set_num_cols (n : Z) (r : t) : result t :=
  m <- store32 0 n (row r) ;;
  Ok (mk m (row_length r)).

(** Modelled from the spec: [clear], defined outside the header:
    sets [num_cols = 0], logical length 4. *)
Definition clear (r : t) : result t :=
  r' <- set_num_cols 0 r ;;
  Ok (mk (row r') 4).

(** Modelled from the spec: [set], defined outside the header: copies
    [other]'s logical bytes and length. *)
Definition set (other r : t) : result t :=
  bs <- load 0 (row_length other) (row other) ;;
  m <- store 0 bs (row r) ;;
  Ok (mk m (row_length other)).

(** Modelled from the spec: [get_attr_internal], declared in the
    header: the offset of attribute [attr_idx] (1-indexed), an
    out-of-range error if [attr_idx] is not in [[1, num_cols]]. *)
Definition get_attr_internal (mem : list byte) (attr_idx n : Z)
  : result Z :=
  check ((0 <? attr_idx) && (attr_idx <=? n)) IndexOutOfRange ;;;
  skip_attrs (length mem) mem 4 (attr_idx - 1).

Definition get_attr (r : t) (attr_idx : Z) : result Z :=
  n <- num_cols r ;;
  get_attr_internal (row r) attr_idx n.

Definition get_attr_type (r : t) (attr_idx : Z) : result byte :=
  a <- get_attr r attr_idx ;; load8 a (row r).

Definition get_attr_len (r : t) (attr_idx : Z) : result Z :=
  a <- get_attr r attr_idx ;; load32 (a + 1) (row r).

Definition get_attr_value (r : t) (attr_idx : Z) : result Z :=
  a <- get_attr r attr_idx ;; Ok (a + 5).

(** Modelled from the spec: [add_attr(type, len, value)], defined
    outside the header: appends at the tail and bumps [num_cols]. *)
Definition add_attr (ty : byte) (len : Z) (value : list byte) (r : t)
  : result t :=
  v <- load 0 len value ;;
  m1 <- store (row_length r) [ty] (row r) ;;
  m2 <- store32 (row_length r + 1) len m1 ;;
  m3 <- store (row_length r + 5) v m2 ;;
  n <- load32 0 m3 ;;
  m4 <- store32 0 (U32.incr n) m3 ;;
  Ok (mk m4 (row_length r + 5 + len)).

(** Modelled from the spec: [append], defined outside the header:
    concatenates [other]'s attributes and adds its column count. *)
Definition append (other r : t) : result t :=
  bs <- load 4 (row_length other - 4) (row other) ;;
  m1 <- store (row_length r) bs (row r) ;;
  n <- load32 0 m1 ;;
  n' <- num_cols other ;;
  m2 <- store32 0 (U32.add n n') m1 ;;
  Ok (mk m2 (row_length r + (row_length other - 4))).

(** Modelled from the spec: [read] from a plaintext pointer, defined
    outside the header: parses [num_cols], then that many attributes, from
    [input] at [pos]; returns the number of bytes consumed. *)
Definition read (input : list byte) (pos : Z) (r : t) : result (Z * t) :=
  n <- load32 pos input ;;
  e <- skip_attrs (length input) input (pos + 4) n ;;
  bs <- load pos (e - pos) input ;;
  m <- store 0 bs (row r) ;;
  Ok (e - pos, mk m (e - pos)).

(** Modelled from the spec: [write] to a plaintext pointer, defined
    outside the header, the inverse of [read]: copies the logical bytes to
    [output] at [pos]; returns the number of bytes written. *)
Definition write (output : list byte) (pos : Z) (r : t)
  : result (Z * list byte) :=
  bs <- load 0 (row_length r) (row r) ;;
  out <- store pos bs output ;;
  Ok (row_length r, out).

(** Modelled from the spec: [is_dummy], defined outside the header:
    true iff some attribute's type tag is a dummy tag. *)
Definition is_dummy (r : t) : result bool :=
  n <- num_cols r ;;
  any_dummy (length (row r)) (row r) 4 n.

(** Modelled from the spec: [row_upper_bound], defined outside the
    header: the sum of the per-type upper bounds, over the four bytes
    of [num_cols]. *)
Definition row_upper_bound (r : t) : result Z :=
  n <- num_cols r ;;
  sum_upper_bounds (length (row r)) (row r) 4 n 4.

(** The bytes [write] emits. *)
Definition logical (r : t) : result (list byte) :=
  load 0 (row_length r) (row r).

End Ops.

End NewRecord.

(** ** Join rows: [class NewJoinRecord] *)

Module NewJoinRecord.

Record t : Type := mk {
  row : NewRecord.t;
  join_attr : option Z  (* pointer into row, or NULL *)
}.

Definition primary_id : Z := 0.
Definition foreign_id : Z := 1.

Section Ops.
  Context {lim : Limits} {types : TypeTable}.

Definition make (upper_bound : Z) : t :=
  mk (NewRecord.make upper_bound) None.

Definition default : t := make (Z.of_N ROW_UPPER_BOUND).

(** [set(bool is_primary, const NewRecord *record)] *)
Definition set (is_primary : bool) (record : NewRecord.t) (j : t)
  : result t :=
  r0 <- NewRecord.clear (row j) ;;
  let table_id := if is_primary then primary_id else foreign_id in
  r1 <- NewRecord.add_attr INT 4 (U32.encode table_id) r0 ;;
  r2 <- NewRecord.append record r1 ;;
  Ok (mk r2 (join_attr j)).

Definition is_dummy (j : t) : result bool :=
  n <- NewRecord.num_cols (row j) ;; Ok (n =? 0).

Definition reset_to_dummy (j : t) : result t :=
  r <- NewRecord.clear (row j) ;; Ok (mk r (join_attr j)).

(** [row.num_cols() - 1] on [uint32_t]. *)
Definition num_cols (j : t) : result Z :=
  n <- NewRecord.num_cols (row j) ;; Ok (U32.sub n 1).

Definition get_attr (j : t) (attr_idx : Z) : result Z :=
  NewRecord.get_attr (row j) (U32.add attr_idx 1).

Definition is_primary (j : t) : result bool :=
  p <- NewRecord.get_attr_value (row j) 1 ;;
  v <- load32 p (NewRecord.row (row j)) ;;
  Ok (v =? primary_id).

End Ops.

End NewJoinRecord.

(** ** Group-by keys and aggregation functions

    [Aggregator1] and [Aggregator2] are templates over a group-by type and
    one or two aggregation types; the members they call on their template
    arguments are the operations of the classes below. *)

Class GroupByType (G : Type) : Type := {
  (** [GroupByType()] *)
  gb_new : G;
  (** [GroupByType(NewRecord *record)] *)
  gb_of_record : NewRecord.t -> result G;
  (** [g.set(&other)], as [gb_set other g] *)
  gb_set : G -> G -> result G;
  (** [g.equals(&other)], as [gb_equals g other] *)
  gb_equals : G -> G -> result bool;
  (** the row held by the group-by key *)
  gb_row : G -> NewRecord.t
}.

(** The [EMPTY] state of an aggregator: no column in the group row. *)
Definition gb_is_empty {G : Type} {GB : GroupByType G} (g : G) : Prop :=
  NewRecord.num_cols (gb_row g) = Ok 0.

(** What the aggregators rely on in a group-by type: an invariant [gb_wf]
    tying the bound attribute pointers to the row, under which a key with
    no column equals no key, and that a key carries the row it was built
    or set from. *)
Class GroupByLaws (G : Type) {GB : GroupByType G} : Type := {
  gb_wf : G -> Prop;
  gb_wf_new : gb_wf gb_new;
  gb_wf_of_record :
    forall record g, gb_of_record record = Ok g -> gb_wf g;
  gb_wf_set :
    forall other g g', gb_set other g = Ok g' -> gb_wf g';
  gb_empty_equals :
    forall g other, gb_wf g -> gb_is_empty g -> gb_equals g other = Ok false;
  gb_of_record_row :
    forall record g, gb_of_record record = Ok g ->
      NewRecord.logical (gb_row g) = NewRecord.logical record;
  gb_set_row :
    forall other g g', gb_set other g = Ok g' ->
      NewRecord.logical (gb_row g') = NewRecord.logical (gb_row other)
}.

Class AggType (A : Type) : Type := {
  (** [AggType()] *)
  agg_new : A;
  (** [a.zero()] *)
  agg_zero : A -> A;
  (** [a.add(NewRecord *record)], as [agg_add_record record a] *)
  agg_add_record : NewRecord.t -> A -> result A;
  (** [a.add(&other)], as [agg_add other a] *)
  agg_add : A -> A -> A
}.

(** The [Type] argument of [Sum] and [Avg]: a value type with [Type()],
    [+=] and a reinterpreting read from a row. *)
Class ColumnType (T : Type) : Type := {
  ct_zero : T;
  ct_add : T -> T -> T;
  ct_load : Z -> list byte -> result T
}.

#[export] Instance uint32_column : ColumnType Z := {
  ct_zero := 0;
  ct_add := U32.add;
  ct_load := load32
}.

Module GroupBy.

Record t : Type := mk {
  row : NewRecord.t;
  attr : option Z  (* pointer into row, or NULL *)
}.

(** The pointer is NULL whenever the row has no column. *)
Definition wf (g : t) : Prop :=
  NewRecord.num_cols (row g) = Ok 0 -> attr g = None.

Section Ops.
  Context {lim : Limits} {types : TypeTable}.
  Variable Column : Z.

(** [if (row.num_cols() != 0) attr = row.get_attr(Column); else attr = NULL] *)
Definition bind_attr (r : NewRecord.t) : result (option Z) :=
  n <- NewRecord.num_cols r ;;
  if negb (n =? 0)
  then a <- NewRecord.get_attr r Column ;; Ok (Some a)
  else Ok None.

Definition make : t := mk NewRecord.default None.

Definition of_record (record : NewRecord.t) : result t :=
  r <- NewRecord.set record NewRecord.default ;;
  a <- bind_attr r ;;
  Ok (mk r a).

Definition set (other g : t) : result t :=
  r <- NewRecord.set (row other) (row g) ;;
  a <- bind_attr r ;;
  Ok (mk r a).

Definition equals (g other : t) : result bool :=
  match attr g, attr other with
  | Some a, Some b =>
      attrs_equal (NewRecord.row (row g)) a (NewRecord.row (row other)) b
  | _, _ => Ok false
  end.

End Ops.

End GroupBy.

Module GroupBy2.

Record t : Type := mk {
  row : NewRecord.t;
  attr1 : option Z;  (* pointer into row, or NULL *)
  attr2 : option Z   (* pointer into row, or NULL *)
}.

(** The pointers are NULL whenever the row has no column. *)
Definition wf (g : t) : Prop :=
  NewRecord.num_cols (row g) = Ok 0 -> attr1 g = None /\ attr2 g = None.

Section Ops.
  Context {lim : Limits} {types : TypeTable}.
  Variables Column1 Column2 : Z.

Definition bind_attrs (r : NewRecord.t) : result (option Z * option Z) :=
  n <- NewRecord.num_cols r ;;
  if negb (n =? 0)
  then a1 <- NewRecord.get_attr r Column1 ;;
       a2 <- NewRecord.get_attr r Column2 ;;
       Ok (Some a1, Some a2)
  else Ok (None, None).

Definition make : t := mk NewRecord.default None None.

Definition of_record (record : NewRecord.t) : result t :=
  r <- NewRecord.set record NewRecord.default ;;
  a <- bind_attrs r ;;
  Ok (mk r (fst a) (snd a)).

Definition set (other g : t) : result t :=
  r <- NewRecord.set (row other) (row g) ;;
  a <- bind_attrs r ;;
  Ok (mk r (fst a) (snd a)).

Definition equals (g other : t) : result bool :=
  match attr1 g, attr1 other, attr2 g, attr2 other with
  | Some a1, Some b1, Some a2, Some b2 =>
      e1 <- attrs_equal (NewRecord.row (row g)) a1
              (NewRecord.row (row other)) b1 ;;
      if e1
      then attrs_equal (NewRecord.row (row g)) a2
             (NewRecord.row (row other)) b2
      else Ok false
  | _, _, _, _ => Ok false
  end.

End Ops.

End GroupBy2.

#[export] Instance GroupBy_type {lim : Limits} {types : TypeTable}
    (Column : Z) : GroupByType GroupBy.t := {
  gb_new := GroupBy.make;
  gb_of_record := GroupBy.of_record Column;
  gb_set := GroupBy.set Column;
  gb_equals := GroupBy.equals;
  gb_row := GroupBy.row
}.

#[export] Instance GroupBy2_type {lim : Limits} {types : TypeTable}
    (Column1 Column2 : Z) : GroupByType GroupBy2.t := {
  gb_new := GroupBy2.make;
  gb_of_record := GroupBy2.of_record Column1 Column2;
  gb_set := GroupBy2.set Column1 Column2;
  gb_equals := GroupBy2.equals;
  gb_row := GroupBy2.row
}.

Module Sum.

Record t (T : Type) : Type := mk { sum : T }.
Arguments mk {T} sum.
Arguments sum {T} _.

Section Ops.
  Context {lim : Limits} {types : TypeTable} {T : Type} {col : ColumnType T}.
  Variable Column : Z.

Definition make : t T := mk ct_zero.

Definition zero (s : t T) : t T := mk ct_zero.

(** [sum += *reinterpret_cast<const Type *>(record->get_attr_value(Column))] *)
Definition add_record (record : NewRecord.t) (s : t T) : result (t T) :=
  p <- NewRecord.get_attr_value record Column ;;
  v <- ct_load p (NewRecord.row record) ;;
  Ok (mk (ct_add (sum s) v)).

Definition add (other s : t T) : t T := mk (ct_add (sum s) (sum other)).

End Ops.

End Sum.

Module Avg.

Record t (T : Type) : Type := mk { sum : T; count : Z }.
Arguments mk {T} sum count.
Arguments sum {T} _.
Arguments count {T} _.

Section Ops.
  Context {lim : Limits} {types : TypeTable} {T : Type} {col : ColumnType T}.
  Variable Column : Z.

Definition make : t T := mk ct_zero 0.

Definition zero (a : t T) : t T := mk ct_zero 0.

Definition add_record (record : NewRecord.t) (a : t T) : result (t T) :=
  p <- NewRecord.get_attr_value record Column ;;
  v <- ct_load p (NewRecord.row record) ;;
  Ok (mk (ct_add (sum a) v) (U32.incr (count a))).

Definition add (other a : t T) : t T :=
  mk (ct_add (sum a) (sum other)) (U32.add (count a) (count other)).

End Ops.

End Avg.

#[export] Instance Sum_type {lim : Limits} {types : TypeTable}
    {T : Type} {col : ColumnType T} (Column : Z) : AggType (Sum.t T) := {
  agg_new := Sum.make;
  agg_zero := Sum.zero;
  agg_add_record := Sum.add_record Column;
  agg_add := Sum.add
}.

#[export] Instance Avg_type {lim : Limits} {types : TypeTable}
    {T : Type} {col : ColumnType T} (Column : Z) : AggType (Avg.t T) := {
  agg_new := Avg.make;
  agg_zero := Avg.zero;
  agg_add_record := Avg.add_record Column;
  agg_add := Avg.add
}.

(** ** Aggregators *)

Module Aggregator1.

Record t (G A1 : Type) : Type := mk {
  num_distinct : Z;
  offset : Z;
  g : G;
  a1 : A1
}.
Arguments mk {G A1} num_distinct offset g a1.
Arguments num_distinct {G A1} _.
Arguments offset {G A1} _.
Arguments g {G A1} _.
Arguments a1 {G A1} _.

Section Ops.
  Context {lim : Limits} {types : TypeTable}.
  Context {G A1 : Type} {GB : GroupByType G} {AG1 : AggType A1}.

Definition make : t G A1 := mk 0 0 gb_new agg_new.

(** [aggregate(NewRecord *record)] *)
Definition aggregate (record : NewRecord.t) (s : t G A1) : result (t G A1) :=
  g2 <- gb_of_record record ;;
  eq <- gb_equals (g s) g2 ;;
  if eq : bool
  then x1 <- agg_add_record record (a1 s) ;;
       Ok (mk (num_distinct s) (offset s) (g s) x1)
  else let n := U32.incr (num_distinct s) in
       g' <- gb_set g2 (g s) ;;
       x1 <- agg_add_record record (agg_zero (a1 s)) ;;
       Ok (mk n (offset s) g' x1).

(** [grouping_attrs_equal(Aggregator1 *other)] *)
Definition grouping_attrs_equal (other s : t G A1) : result bool :=
  gb_equals (g s) (g other).

(** [grouping_attrs_equal(NewRecord *record)] *)
Definition grouping_attrs_equal_record (record : NewRecord.t) (s : t G A1)
  : result bool :=
  d <- NewRecord.is_dummy record ;;
  if d : bool then Ok false
  else g2 <- gb_of_record record ;; gb_equals (g s) g2.

(** [aggregate(Aggregator1 *other)] *)
Definition aggregate_other (other s : t G A1) : result (t G A1) :=
  eq <- grouping_attrs_equal other s ;;
  check eq GroupingMismatch ;;;
  Ok (mk (num_distinct s) (offset s) (g s) (agg_add (a1 other) (a1 s))).

Definition get_num_distinct (s : t G A1) : Z := num_distinct s.

Definition set_num_distinct (n : Z) (s : t G A1) : t G A1 :=
  mk n (offset s) (g s) (a1 s).

Definition set_offset (o : Z) (s : t G A1) : t G A1 :=
  mk (num_distinct s) o (g s) (a1 s).

End Ops.

End Aggregator1.

Module Aggregator2.

Record t (G A1 A2 : Type) : Type := mk {
  num_distinct : Z;
  offset : Z;
  g : G;
  a1 : A1;
  a2 : A2
}.
Arguments mk {G A1 A2} num_distinct offset g a1 a2.
Arguments num_distinct {G A1 A2} _.
Arguments offset {G A1 A2} _.
Arguments g {G A1 A2} _.
Arguments a1 {G A1 A2} _.
Arguments a2 {G A1 A2} _.

Section Ops.
  Context {lim : Limits} {types : TypeTable}.
  Context {G A1 A2 : Type}.
  Context {GB : GroupByType G} {AG1 : AggType A1} {AG2 : AggType A2}.

Definition make : t G A1 A2 := mk 0 0 gb_new agg_new agg_new.

(** [aggregate(NewRecord *record)] *)
Definition aggregate (record : NewRecord.t) (s : t G A1 A2)
  : result (t G A1 A2) :=
  g2 <- gb_of_record record ;;
  eq <- gb_equals (g s) g2 ;;
  if eq : bool
  then x1 <- agg_add_record record (a1 s) ;;
       x2 <- agg_add_record record (a2 s) ;;
       Ok (mk (num_distinct s) (offset s) (g s) x1 x2)
  else let n := U32.incr (num_distinct s) in
       g' <- gb_set g2 (g s) ;;
       x1 <- agg_add_record record (agg_zero (a1 s)) ;;
       x2 <- agg_add_record record (agg_zero (a2 s)) ;;
       Ok (mk n (offset s) g' x1 x2).

Definition grouping_attrs_equal (other s : t G A1 A2) : result bool :=
  gb_equals (g s) (g other).

Definition grouping_attrs_equal_record (record : NewRecord.t)
    (s : t G A1 A2) : result bool :=
  d <- NewRecord.is_dummy record ;;
  if d : bool then Ok false
  else g2 <- gb_of_record record ;; gb_equals (g s) g2.

(** [aggregate(Aggregator2 *other)] *)
Definition aggregate_other (other s : t G A1 A2) : result (t G A1 A2) :=
  eq <- grouping_attrs_equal other s ;;
  check eq GroupingMismatch ;;;
  Ok (mk (num_distinct s) (offset s) (g s)
        (agg_add (a1 other) (a1 s)) (agg_add (a2 other) (a2 s))).

Definition get_num_distinct (s : t G A1 A2) : Z := num_distinct s.

End Ops.

End Aggregator2.

(** ** The cipher, the task identifiers and the verify sink *)

(** The whole-buffer authenticated cipher of the enclave.  [decrypt] is the
    call the bulk reader makes; [decrypt_with_aad] is the opening under
    associated data that the cipher contract speaks of. *)
Class Cipher : Type := {
  enc_size : Z -> Z;
  encrypt_with_aad : list byte -> list byte -> list byte;
  decrypt : list byte -> result (list byte);
  decrypt_with_aad : list byte -> list byte -> result (list byte)
}.

(** The cipher contract on associated data, for the 16-byte block
    headers: a ciphertext sealed under one header does not open under
    another. *)
Definition aad_is_authenticated {cipher : Cipher} : Prop :=
  forall pt aad aad' : list byte,
    length aad = 16%nat -> length aad' = 16%nat -> aad' <> aad ->
    decrypt_with_aad (encrypt_with_aad pt aad) aad' = Err CipherError.

(** The streaming cipher: the ciphertext a [StreamCipher] has produced once
    finished, as a function of the bytes fed to it, and the plaintext a
    [StreamDecipher] yields for a ciphertext region. *)
Class StreamSuite : Type := {
  stream_encrypt : list byte -> list byte;
  stream_decrypt : list byte -> list byte
}.

Class TaskIds : Type := {
  task_id_parser : Z -> Z -> Z
}.

(** [class Verify]: the task identifiers recorded by [add_node], newest
    first.  A reader holds a pointer to the caller's sink, or NULL. *)
Definition Verify : Type := list Z.

Definition add_node (task_id : Z) (v : Verify) : Verify := task_id :: v.

(** [malloc(n)]: [n] bytes of indeterminate content, drawn from [junk]. *)
Definition malloc (n : N) (junk : list byte) : list byte :=
  firstn (N.to_nat n) (junk ++ repeat 0 (N.to_nat n)).

(** ** The bulk block reader: [class RowReader] *)

Module RowReader.

Record t : Type := mk {
  mem : list byte;        (* the buffer [buf] points into *)
  buf : Z;
  buf_end : option Z;     (* NULL when the caller gave no end *)
  block_start : list byte;
  block_pos : Z;
  block_num_rows : Z;
  block_rows_read : Z;
  verify_set : option Verify
}.

Section Ops.
  Context {lim : Limits} {types : TypeTable} {cipher : Cipher}.

Definition add_parent (task_id : Z) (r : t) : t :=
  match verify_set r with
  | Some v =>
      mk (mem r) (buf r) (buf_end r) (block_start r) (block_pos r)
        (block_num_rows r) (block_rows_read r) (Some (add_node task_id v))
  | None => r
  end.

(** A block as [read_encrypted_block] consumes it: three words, then
    [block_enc_size] bytes of ciphertext. *)
Definition frame (num_rows row_upper_bound : Z) (ct : list byte)
  : list byte :=
  U32.encode (Z.of_nat (length ct)) ++ U32.encode num_rows
  ++ U32.encode row_upper_bound ++ ct.

(** A run of blocks without rows, given the [row_upper_bound] word and
    the ciphertext of each. *)
Definition zero_frames (zs : list (Z * list byte)) : list byte :=
  concat (map (fun z => frame 0 (fst z) (snd z)) zs).

(** The [while (true)] loop of [read_encrypted_block].  Every round moves
    [buf] forward by at least twelve bytes, so [S (length mem)] rounds
    exhaust any buffer. *)
Fixpoint read_encrypted_block_loop (fuel : nat) (r : t) : result t :=
  match fuel with
  | O => Err MemoryFault
  | S fuel' =>
      block_enc_size <- load32 (buf r) (mem r) ;;
      num_rows <- load32 (buf r + 4) (mem r) ;;
      (* buf += 4: row_upper_bound *)
      ct <- load (buf r + 12) block_enc_size (mem r) ;;
      pt <- decrypt ct ;;
      blk <- store 0 pt (block_start r) ;;
      let r' := mk (mem r) (buf r + 12 + block_enc_size) (buf_end r) blk
                  (block_pos r) num_rows (block_rows_read r) (verify_set r) in
      if 0 <? num_rows then Ok r' else read_encrypted_block_loop fuel' r'
  end.

Definition read_encrypted_block (r : t) : result t :=
  r' <- read_encrypted_block_loop (S (length (mem r))) r ;;
  Ok (mk (mem r') (buf r') (buf_end r') (block_start r') 0
        (block_num_rows r') 0 (verify_set r')).

(** [RowReader(buf, buf_end, verify_set)] *)
Definition make (mem : list byte) (buf_end : option Z)
    (verify_set : option Verify) (junk : list byte) : result t :=
  read_encrypted_block
    (mk mem 0 buf_end (malloc MAX_BLOCK_SIZE junk) 0 0 0 verify_set).

Definition maybe_advance_block (r : t) : result t :=
  if block_num_rows r <=? block_rows_read r
  then read_encrypted_block r
  else Ok r.

(** [read(NewRecord *row)] *)
Definition read (row : NewRecord.t) (r : t) : result (NewRecord.t * t) :=
  r1 <- maybe_advance_block r ;;
  p <- NewRecord.read (block_start r1) (block_pos r1) row ;;
  Ok (snd p,
      mk (mem r1) (buf r1) (buf_end r1) (block_start r1)
        (block_pos r1 + fst p) (block_num_rows r1)
        (U32.incr (block_rows_read r1)) (verify_set r1)).

Definition has_next (r : t) : bool :=
  let rows_remain_in_block := block_rows_read r <? block_num_rows r in
  let blocks_remain_in_buf :=
    match buf_end r with Some e => buf r <? e | None => false end in
  rows_remain_in_block || blocks_remain_in_buf.

(** Reading [n] rows in a row, each into the record the previous read
    left. *)
Fixpoint read_rows (n : nat) (row : NewRecord.t) (r : t)
  : result (list NewRecord.t * t) :=
  match n with
  | O => Ok ([], r)
  | S n' =>
      p <- read row r ;;
      q <- read_rows n' (fst p) (snd p) ;;
      Ok (fst p :: fst q, snd q)
  end.

End Ops.

End RowReader.

(** ** The bulk block writer: [class RowWriter] *)

Module RowWriter.

Record t : Type := mk {
  mem : list byte;        (* the buffer from [buf_start] on *)
  buf_pos : Z;
  row_upper_bound : Z;
  block_start : list byte;
  block_pos : Z;
  block_num_rows : Z;
  block_padded_len : Z;
  self_task_id : Z
}.

Section Ops.
  Context {lim : Limits} {types : TypeTable} {cipher : Cipher}.

(** [RowWriter(buf, row_upper_bound)] *)
Definition make (mem : list byte) (row_upper_bound : Z) (junk : list byte)
  : t :=
  mk mem 0 row_upper_bound (malloc MAX_BLOCK_SIZE junk) 0 0 0 0.

Definition set_self_task_id (task_id : Z) (w : t) : t :=
  mk (mem w) (buf_pos w) (row_upper_bound w) (block_start w) (block_pos w)
    (block_num_rows w) (block_padded_len w) task_id.

Definition finish_block (w : t) : result t :=
  let p0 := buf_pos w in
  m1 <- store32 p0 (enc_size (block_padded_len w)) (mem w) ;;
  m2 <- store32 (p0 + 4) (block_num_rows w) m1 ;;
  m3 <- store32 (p0 + 8) (row_upper_bound w) m2 ;;
  m4 <- store32 (p0 + 12) (self_task_id w) m3 ;;
  let p := p0 + 16 in
  pt <- load 0 (block_padded_len w) (block_start w) ;;
  aad <- load (p - 16) 16 m4 ;;
  m5 <- store p (encrypt_with_aad pt aad) m4 ;;
  Ok (mk m5 (p + enc_size (block_padded_len w)) (row_upper_bound w)
        (block_start w) 0 0 0 (self_task_id w)).

(** The header, the padded plaintext and the ciphertext of the block in
    progress, as [finish_block] emits them. *)
Definition header (w : t) : list byte :=
  U32.encode (enc_size (block_padded_len w))
  ++ U32.encode (block_num_rows w)
  ++ U32.encode (row_upper_bound w)
  ++ U32.encode (self_task_id w).

Definition plaintext (w : t) : list byte :=
  firstn (Z.to_nat (block_padded_len w)) (block_start w).

Definition ciphertext (w : t) : list byte :=
  encrypt_with_aad (plaintext w) (header w).

Definition maybe_finish_block (next_row_size : Z) (w : t) : result t :=
  if Z.of_N MAX_BLOCK_SIZE <? U32.add (block_padded_len w) next_row_size
  then finish_block w
  else Ok w.

(** [write(NewRecord *row)] *)
Definition write (row : NewRecord.t) (w : t) : result t :=
  w1 <- maybe_finish_block (Z.of_N ROW_UPPER_BOUND) w ;;
  p <- NewRecord.write (block_start w1) (block_pos w1) row ;;
  let delta := fst p in
  check (delta <=? (if row_upper_bound w1 =? 0
                    then Z.of_N ROW_UPPER_BOUND
                    else row_upper_bound w1)) CapacityExceeded ;;;
  rub <- (if row_upper_bound w1 =? 0
          then NewRecord.row_upper_bound row
          else Ok (row_upper_bound w1)) ;;
  Ok (mk (mem w1) (buf_pos w1) rub (snd p) (block_pos w1 + delta)
        (U32.incr (block_num_rows w1))
        (U32.add (block_padded_len w1) rub) (self_task_id w1)).

(** [write(NewJoinRecord *row)] *)
Definition write_join (row : NewJoinRecord.t) (w : t) : result t :=
  write (NewJoinRecord.row row) w.

Definition close (w : t) : result t := finish_block w.

(** [buf_pos - buf_start], returned as [uint32_t]. *)
Definition bytes_written (w : t) : Z := U32.wrap (buf_pos w).

(** A sequence of [write] calls. *)
Fixpoint write_all (rows : list NewRecord.t) (w : t) : result t :=
  match rows with
  | [] => Ok w
  | row :: rows' => w' <- write row w ;; write_all rows' w'
  end.

End Ops.

End RowWriter.

(** ** The streaming cipher objects *)

(** Modelled from the spec: [class StreamCipher], defined outside the
    header: a cipher pinned to a position in the output buffer, with
    [encrypt(bytes, n)], [finish()], [bytes_written()] and [reset(buf)].
    The bytes fed are accumulated; [finish] leaves their ciphertext at the
    pinned position. *)
Module StreamCipher.

Record t : Type := mk {
  out : Z;             (* the position the cipher is pinned to *)
  fed : list byte;     (* the plaintext passed to encrypt so far *)
  written : Z
}.

Section Ops.
  Context {suite : StreamSuite}.

Definition make (out : Z) : t := mk out [] 0.

Definition encrypt (input : list byte) (c : t) : t :=
  mk (out c) (fed c ++ input) (written c).

Definition finish (mem : list byte) (c : t) : result (list byte * t) :=
  let ct := stream_encrypt (fed c) in
  m <- store (out c) ct mem ;;
  Ok (m, mk (out c) (fed c) (U32.wrap (Z.of_nat (length ct)))).

Definition bytes_written (c : t) : Z := written c.

Definition reset (out : Z) (c : t) : t := make out.

End Ops.

End StreamCipher.

(** Modelled from the spec: [class StreamDecipher], defined outside the
    header: [decrypt(bytes, n)] yields the next [n] plaintext bytes of the
    ciphertext region it was constructed or reset on. *)
Module StreamDecipher.

Record t : Type := mk {
  plain : list byte;
  cursor : Z
}.

Section Ops.
  Context {suite : StreamSuite}.

Definition make (ct : list byte) : t := mk (stream_decrypt ct) 0.

Definition reset (ct : list byte) (d : t) : t := make ct.

Definition decrypt (n : Z) (d : t) : result (list byte * t) :=
  bs <- load (cursor d) n (plain d) ;;
  Ok (bs, mk (plain d) (cursor d + n)).

End Ops.

End StreamDecipher.

(** ** The streaming block reader: [class StreamRowReader] *)

Module StreamRowReader.

Record t : Type := mk {
  cipher : option StreamDecipher.t;   (* NULL until the first block *)
  mem : list byte;                    (* the buffer [buf] points into *)
  buf : Z;
  buf_end : option Z;
  block_start : Z;
  block_pos : Z;
  block_num_rows : Z;
  block_rows_read : Z;
  cur_block_num : Z;
  verify_set : list Z                 (* a std::set of task identifiers *)
}.

Section Ops.
  Context {lim : Limits} {types : TypeTable} {suite : StreamSuite}.

Definition add_parent (task_id : Z) (s : list Z) : list Z :=
  if existsb (Z.eqb task_id) s then s else task_id :: s.

Definition read_encrypted_block (r : t) : result t :=
  block_enc_size <- load32 (buf r) (mem r) ;;
  num_rows <- load32 (buf r + 4) (mem r) ;;
  (* buf += 4: row_upper_bound *)
  task_id <- load32 (buf r + 12) (mem r) ;;
  let vs := add_parent task_id (verify_set r) in
  ct <- load (buf r + 16) block_enc_size (mem r) ;;
  let c := match cipher r with
           | None => StreamDecipher.make ct
           | Some d => StreamDecipher.reset ct d
           end in
  let b := buf r + 16 + block_enc_size in
  Ok (mk (Some c) (mem r) b (buf_end r) b b num_rows 0
        (U32.incr (cur_block_num r)) vs).

(** A block as [read_encrypted_block] consumes it: four words, then
    [block_enc_size] bytes of ciphertext. *)
Definition frame (num_rows row_upper_bound task_id : Z) (ct : list byte)
  : list byte :=
  U32.encode (Z.of_nat (length ct)) ++ U32.encode num_rows
  ++ U32.encode row_upper_bound ++ U32.encode task_id ++ ct.

(** [StreamRowReader(buf, buf_end)] *)
Definition make (mem : list byte) (buf_end : option Z) : result t :=
  read_encrypted_block (mk None mem 0 buf_end 0 0 0 0 0 []).

Definition maybe_advance_block (r : t) : result t :=
  if block_num_rows r <=? block_rows_read r
  then read_encrypted_block r
  else Ok r.

(** [read_bytes(output, num_bytes)] *)
Definition read_bytes (num_bytes : Z) (r : t) : result (list byte * t) :=
  match cipher r with
  | None => Err MemoryFault
  | Some d =>
      p <- StreamDecipher.decrypt num_bytes d ;;
      Ok (fst p,
          mk (Some (snd p)) (mem r) (buf r) (buf_end r) (block_start r)
            (block_pos r) (block_num_rows r) (block_rows_read r)
            (cur_block_num r) (verify_set r))
  end.

(** The attributes of a streamed row: [n] times a five-byte attribute
    header and the value it announces, appended to [acc]. *)
Fixpoint read_attrs (fuel : nat) (n : Z) (acc : list byte) (r : t)
  : result (list byte * t) :=
  if n <=? 0 then Ok (acc, r)
  else match fuel with
       | O => Err MemoryFault
       | S fuel' =>
           h <- read_bytes 5 r ;;
           v <- read_bytes (U32.decode (skipn 1 (fst h))) (snd h) ;;
           read_attrs fuel' (n - 1) (acc ++ fst h ++ fst v) (snd v)
       end.

(** Modelled from the spec: [NewRecord::read(StreamRowReader *reader)],
    defined outside the header: reads [num_cols], then streams that many
    attributes through [read_bytes]; returns the number of bytes read. *)
Definition read_row (row : NewRecord.t) (r : t)
  : result (Z * NewRecord.t * t) :=
  h <- read_bytes 4 r ;;
  let fuel := match cipher r with
              | Some d => length (StreamDecipher.plain d)
              | None => O
              end in
  p <- read_attrs fuel (U32.decode (fst h)) (fst h) (snd h) ;;
  m <- store 0 (fst p) (NewRecord.row row) ;;
  let len := Z.of_nat (length (fst p)) in
  Ok (len, NewRecord.mk m len, snd p).

(** [read(NewRecord *row)] *)
Definition read (row : NewRecord.t) (r : t) : result (NewRecord.t * t) :=
  r1 <- maybe_advance_block r ;;
  p <- read_row row r1 ;;
  let r2 := snd p in
  Ok (snd (fst p),
      mk (cipher r2) (mem r2) (buf r2) (buf_end r2) (block_start r2)
        (block_pos r2 + fst (fst p)) (block_num_rows r2)
        (U32.incr (block_rows_read r2)) (cur_block_num r2) (verify_set r2)).

Definition has_next (r : t) : bool :=
  let rows_remain_in_block := block_rows_read r <? block_num_rows r in
  let blocks_remain_in_buf :=
    match buf_end r with Some e => buf r <? e | None => false end in
  rows_remain_in_block || blocks_remain_in_buf.

End Ops.

End StreamRowReader.

(** ** The streaming block writer: [class StreamRowWriter] *)

Module StreamRowWriter.

Record t : Type := mk {
  cipher : StreamCipher.t;
  mem : list byte;        (* the buffer from [buf_start] on *)
  buf_pos : Z;
  block_num_rows : Z;
  block_len : Z;
  opcode : Z;
  part : Z
}.

(** The calls a client can make on a writer. *)
Inductive op : Type :=
| SetOpcode (opcode : Z)
| SetPartIndex (part : Z)
| Write (row : NewRecord.t)
| WriteBytes (input : list byte)
| Finish.

Section Ops.
  Context {lim : Limits} {types : TypeTable}.
  Context {suite : StreamSuite} {tasks : TaskIds}.

(** [StreamRowWriter(buf)] *)
Definition make (mem : list byte) : t :=
  mk (StreamCipher.make (0 + 12)) mem 0 0 0 0 0.

Definition set_opcode (opcode : Z) (w : t) : t :=
  mk (cipher w) (mem w) (buf_pos w) (block_num_rows w) (block_len w)
    opcode (part w).

Definition set_part_index (part : Z) (w : t) : t :=
  mk (cipher w) (mem w) (buf_pos w) (block_num_rows w) (block_len w)
    (opcode w) part.

Definition write_bytes (input : list byte) (w : t) : t :=
  mk (StreamCipher.encrypt input (cipher w)) (mem w) (buf_pos w)
    (block_num_rows w) (block_len w) (opcode w) (part w).

Definition finish_block (w : t) : result t :=
  f <- StreamCipher.finish (mem w) (cipher w) ;;
  let w_bytes := StreamCipher.bytes_written (snd f) in
  let p0 := buf_pos w in
  m1 <- store32 p0 w_bytes (fst f) ;;
  m2 <- store32 (p0 + 4) (block_num_rows w) m1 ;;
  m3 <- store32 (p0 + 8) (Z.of_N ROW_UPPER_BOUND) m2 ;;
  let task_id := task_id_parser (opcode w) (part w) in
  m4 <- store32 (p0 + 12) task_id m3 ;;
  let p := p0 + 16 + w_bytes in
  Ok (mk (StreamCipher.reset (p + 12) (snd f)) m4 p 0 0 (opcode w) (part w)).

Definition maybe_finish_block (w : t) : result t :=
  if Z.of_N MAX_BLOCK_SIZE <? block_len w
  then finish_block w
  else Ok w.

(** Modelled from the spec: [NewRecord::write(StreamRowWriter *writer)],
    defined outside the header: streams the row's bytes through
    [write_bytes]; returns their number. *)
Definition write_row (row : NewRecord.t) (w : t) : result (Z * t) :=
  bs <- NewRecord.logical row ;;
  Ok (NewRecord.row_length row, write_bytes bs w).

(** [write(NewRecord *row)] *)
Definition write (row : NewRecord.t) (w : t) : result (Z * t) :=
  w1 <- maybe_finish_block w ;;
  p <- write_row row w1 ;;
  let w2 := snd p in
  Ok (fst p,
      mk (cipher w2) (mem w2) (buf_pos w2) (U32.incr (block_num_rows w2))
        (block_len w2) (opcode w2) (part w2)).

Definition finish (w : t) : result t := finish_block w.

Definition close (w : t) : result t := finish_block w.

(** [buf_pos - buf_start], returned as [uint32_t]. *)
Definition bytes_written (w : t) : Z := U32.wrap (buf_pos w).

Definition step (o : op) (w : t) : result t :=
  match o with
  | SetOpcode c => Ok (set_opcode c w)
  | SetPartIndex p => Ok (set_part_index p w)
  | Write row => p <- write row w ;; Ok (snd p)
  | WriteBytes input => Ok (write_bytes input w)
  | Finish => finish w
  end.

Fixpoint run (ops : list op) (w : t) : result t :=
  match ops with
  | [] => Ok w
  | o :: ops' => w' <- step o w ;; run ops' w'
  end.

End Ops.

End StreamRowWriter.

(** ** Invariants and contracts used further on *)

(** The cipher contract on lengths, for the plaintexts of blocks: the
    ciphertext of a plaintext of [n] bytes takes [enc_size n] bytes. *)
Definition ciphertext_length_law {lim : Limits} {cipher : Cipher} : Prop :=
  forall pt aad : list byte,
    Z.of_nat (length pt) <= Z.of_N MAX_BLOCK_SIZE ->
    Z.of_nat (length (encrypt_with_aad pt aad))
    = enc_size (Z.of_nat (length pt)).

(** A sane configuration for a bulk writer with row bound [rub]: the bound
    is set and within [ROW_UPPER_BOUND], a row fits a block, and the sums
    the writer forms stay below [2^32]. *)
Definition writer_config {lim : Limits} (rub : Z) : Prop :=
  0 < rub <= Z.of_N ROW_UPPER_BOUND /\
  Z.of_N ROW_UPPER_BOUND <= Z.of_N MAX_BLOCK_SIZE /\
  Z.of_N MAX_BLOCK_SIZE + Z.of_N ROW_UPPER_BOUND < U32.modulus.

(** The block in progress of a bulk writer with row bound [rub]: every row
    is accounted [rub] bytes, the rows written lie within that account,
    and the account fits the block buffer. *)
Definition writer_inv {lim : Limits} (rub : Z) (w : RowWriter.t) : Prop :=
  RowWriter.row_upper_bound w = rub /\
  0 <= RowWriter.block_num_rows w /\
  RowWriter.block_padded_len w = RowWriter.block_num_rows w * rub /\
  RowWriter.block_padded_len w <= Z.of_N MAX_BLOCK_SIZE /\
  0 <= RowWriter.block_pos w <= RowWriter.block_padded_len w /\
  length (RowWriter.block_start w) = N.to_nat MAX_BLOCK_SIZE.

(** The bytes of a row whose attributes end where the row ends: the column
    count, then that many [[type][len][value]] triples and nothing more. *)
Definition row_bytes_wf (bs : list byte) : Prop :=
  exists n, load32 0 bs = Ok n /\
            skip_attrs (length bs) bs 4 n = Ok (Z.of_nat (length bs)).

(** A block of rows as the bulk reader consumes it: the row bound in its
    header, its ciphertext, and the plaintext behind it, which is the
    bytes of its rows and the padding after them. *)
Record reader_block : Type := mk_reader_block {
  blk_rub : Z;
  blk_ct : list byte;
  blk_rows : list (list byte);
  blk_pad : list byte
}.

Definition block_frame (b : reader_block) : list byte :=
  RowReader.frame (Z.of_nat (length (blk_rows b))) (blk_rub b) (blk_ct b).

(** A block the reader can take rows from into a record of [cap] bytes:
    it has rows, its counts fit [uint32_t], its ciphertext decrypts to
    its plaintext, the plaintext fits the block buffer, and every row
    ends where its attributes end and fits the record. *)
Definition block_ok {lim : Limits} {cipher : Cipher} (cap : nat)
    (b : reader_block) : Prop :=
  (0 < length (blk_rows b))%nat /\
  Z.of_nat (length (blk_rows b)) < U32.modulus /\
  Z.of_nat (length (blk_ct b)) < U32.modulus /\
  decrypt (blk_ct b) = Ok (concat (blk_rows b) ++ blk_pad b) /\
  Z.of_nat (length (concat (blk_rows b) ++ blk_pad b))
  <= Z.of_N MAX_BLOCK_SIZE /\
  Forall row_bytes_wf (blk_rows b) /\
  Forall (fun bs => (length bs <= cap)%nat) (blk_rows b).

(** ** Runs of aggregation steps *)

(** A sequence of [a.add(record)] calls. *)
Fixpoint agg_add_records {A : Type} {AG : AggType A}
    (records : list NewRecord.t) (a : A) : result A :=
  match records with
  | [] => Ok a
  | record :: records' =>
      a' <- agg_add_record record a ;; agg_add_records records' a'
  end.

(** A sequence of [aggregate(record)] calls on an [Aggregator1]. *)
Fixpoint aggregate1_all {G A1 : Type} {GB : GroupByType G}
    {AG1 : AggType A1} (records : list NewRecord.t)
    (s : Aggregator1.t G A1) : result (Aggregator1.t G A1) :=
  match records with
  | [] => Ok s
  | record :: records' =>
      s' <- Aggregator1.aggregate record s ;; aggregate1_all records' s'
  end.

(** A sequence of [aggregate(record)] calls on an [Aggregator2]. *)
Fixpoint aggregate2_all {G A1 A2 : Type} {GB : GroupByType G}
    {AG1 : AggType A1} {AG2 : AggType A2} (records : list NewRecord.t)
    (s : Aggregator2.t G A1 A2) : result (Aggregator2.t G A1 A2) :=
  match records with
  | [] => Ok s
  | record :: records' =>
      s' <- Aggregator2.aggregate record s ;; aggregate2_all records' s'
  end.

(** The value [Sum] and [Avg] over [uint32_t] add for a record:
    [*reinterpret_cast<const uint32_t *>(record->get_attr_value(Column))]. *)
Definition column_value (Column : Z) (record : NewRecord.t) : result Z :=
  p <- NewRecord.get_attr_value record Column ;;
  load32 p (NewRecord.row record).

Definition sum32 (vs : list Z) : Z := U32.wrap (fold_right Z.add 0 vs).

(** What a fresh key does, in a group-by type: it equals no key, no key
    equals it, and setting it from the key of a record gives that key. *)
Class FreshKeyLaws (G : Type) {GB : GroupByType G} : Prop := {
  gb_new_equals : forall other, gb_equals gb_new other = Ok false;
  gb_equals_new : forall g, gb_equals g gb_new = Ok false;
  gb_set_fresh :
    forall record k, gb_of_record record = Ok k -> gb_set k gb_new = Ok k
}.

(** What combining partial states relies on, in an aggregation type: on
    states in range ([agg_wf]), a zeroed state adds nothing, and adding a
    record commutes with adding a partial state. *)
Class AggLaws (A : Type) {AG : AggType A} : Type := {
  agg_wf : A -> Prop;
  agg_wf_zero : forall a, agg_wf (agg_zero a);
  agg_wf_add_record :
    forall record a a', agg_add_record record a = Ok a' -> agg_wf a';
  agg_add_zero : forall x a, agg_wf a -> agg_add (agg_zero x) a = a;
  agg_add_record_add :
    forall record b a,
      agg_add_record record (agg_add b a)
      = (b' <- agg_add_record record b ;; Ok (agg_add b' a))
}.

(** The two aggregation states of an [Aggregator2], stepped together as
    [aggregate] steps them: the first, then the second. *)
#[export] Instance AggPair {A1 A2 : Type} {AG1 : AggType A1}
    {AG2 : AggType A2} : AggType (A1 * A2) := {
  agg_new := (agg_new, agg_new);
  agg_zero a := (agg_zero (fst a), agg_zero (snd a));
  agg_add_record record a :=
    x1 <- agg_add_record record (fst a) ;;
    x2 <- agg_add_record record (snd a) ;;
    Ok (x1, x2);
  agg_add other a := (agg_add (fst other) (fst a), agg_add (snd other) (snd a))
}.

(** Instances are looked up by the state type. *)
#[export] Hint Mode AggType ! : typeclass_instances.

(** ** The grouping attributes of a key

    What [equals] compares: the attributes a group-by key points to, each
    as the bytes of its [[type][len][value]] triple; none when the key
    tracks no group. *)
Class GroupByKey (G : Type) : Type := {
  gb_key : G -> result (list (list byte))
}.

(** [GroupBy<Column>]: the attribute [attr] points to, if not NULL. *)
#[export] Instance GroupBy_key : GroupByKey GroupBy.t := {
  gb_key g :=
    match GroupBy.attr g with
    | Some a =>
        x <- attr_bytes (NewRecord.row (GroupBy.row g)) a ;; Ok [x]
    | None => Ok []
    end
}.

(** [GroupBy2<Column1, Column2>]: the attributes [attr1] and [attr2] point
    to, if neither is NULL. *)
#[export] Instance GroupBy2_key : GroupByKey GroupBy2.t := {
  gb_key g :=
    match GroupBy2.attr1 g, GroupBy2.attr2 g with
    | Some a1, Some a2 =>
        x1 <- attr_bytes (NewRecord.row (GroupBy2.row g)) a1 ;;
        x2 <- attr_bytes (NewRecord.row (GroupBy2.row g)) a2 ;;
        Ok [x1; x2]
    | _, _ => Ok []
    end
}.

(** Two keys are the same group when they track one and their grouping
    attributes are the same bytes. *)
Definition keys_eqb (k k' : list (list byte)) : bool :=
  match k with
  | [] => false
  | _ :: _ => if list_eq_dec (list_eq_dec Z.eq_dec) k k' then true else false
  end.

(** What [equals] decides, in a group-by type: on keys whose grouping
    attributes are readable bytes, whether the two keys are the same
    group. *)
Class GroupByKeyLaws (G : Type) {GB : GroupByType G} {GK : GroupByKey G}
  : Prop := {
  gb_equals_keys :
    forall g other k k',
      gb_key g = Ok k -> gb_key other = Ok k' ->
      Forall (Forall is_byte) k -> Forall (Forall is_byte) k' ->
      gb_equals g other = Ok (keys_eqb k k')
}.

(** ** Single-row writers and readers

    [IndividualRowWriterV], [IndividualRowWriter], [IndividualRowReaderV]
    and [IndividualRowReader] move values one at a time, each sealed on its
    own by the value's [write_encrypted] and opened by its
    [read_encrypted]. *)

(** What these classes call on a value: [write_encrypted(output)], given
    by the number it returns and the bytes it leaves at [output], and
    [read_encrypted(input)], which returns the number of bytes it
    consumed. *)
Class Sealed (X : Type) : Type := {
  write_encrypted : X -> result (Z * list byte);
  read_encrypted : list byte -> Z -> X -> result (Z * X)
}.

(** [NewJoinRecord::write_encrypted] and [NewJoinRecord::read_encrypted]
    pass the call to the row. *)
#[export] Instance NewJoinRecord_sealed {S : Sealed NewRecord.t}
  : Sealed NewJoinRecord.t := {
  write_encrypted j := write_encrypted (NewJoinRecord.row j);
  read_encrypted input pos j :=
    p <- read_encrypted input pos (NewJoinRecord.row j) ;;
    Ok (fst p, NewJoinRecord.mk (snd p) (NewJoinRecord.join_attr j))
}.

Module IndividualRowWriterV.

Record t : Type := mk {
  mem : list byte;        (* the buffer from [buf_start] on *)
  buf : Z;
  self_task_id : Z
}.

Section Ops.
  Context {lim : Limits} {cipher : Cipher} {S : Sealed NewRecord.t}.

(** [IndividualRowWriterV(buf)]: four bytes are kept for the task
    identifier. *)
Definition make (mem : list byte) : t := mk mem (0 + 4) 0.

(** [write] on a row: the bound is checked once the row is in the
    buffer. *)
Definition write (row : NewRecord.t) (w : t) : result t :=
  p <- write_encrypted row ;;
  m <- store (buf w) (snd p) (mem w) ;;
  let delta := U32.wrap (fst p) in
  check (delta <=? enc_size (Z.of_N ROW_UPPER_BOUND)) CapacityExceeded ;;;
  Ok (mk m (buf w + delta) (self_task_id w)).

(** [write] on a join row or on an aggregator *)
Definition write_sealed {X : Type} {SX : Sealed X} (x : X) (w : t)
  : result t :=
  p <- write_encrypted x ;;
  m <- store (buf w) (snd p) (mem w) ;;
  Ok (mk m (buf w + U32.wrap (fst p)) (self_task_id w)).

Definition set_self_task_id (task_id : Z) (w : t) : t :=
  mk (mem w) (buf w) task_id.

Definition close (w : t) : result t :=
  m <- store32 0 (self_task_id w) (mem w) ;;
  Ok (mk m (buf w) (self_task_id w)).

(** [buf - buf_start], returned as [uint32_t]. *)
Definition bytes_written (w : t) : Z := U32.wrap (buf w).

(** A sequence of [write] calls on rows. *)
Fixpoint write_all (rows : list NewRecord.t) (w : t) : result t :=
  match rows with
  | [] => Ok w
  | row :: rows' => w' <- write row w ;; write_all rows' w'
  end.

End Ops.

End IndividualRowWriterV.

Module IndividualRowWriter.

Record t : Type := mk {
  mem : list byte;        (* the buffer from [buf_start] on *)
  buf : Z
}.

Section Ops.
  Context {lim : Limits} {cipher : Cipher} {S : Sealed NewRecord.t}.

Definition make (mem : list byte) : t := mk mem 0.

Definition write (row : NewRecord.t) (w : t) : result t :=
  p <- write_encrypted row ;;
  m <- store (buf w) (snd p) (mem w) ;;
  let delta := U32.wrap (fst p) in
  check (delta <=? enc_size (Z.of_N ROW_UPPER_BOUND)) CapacityExceeded ;;;
  Ok (mk m (buf w + delta)).

Definition write_sealed {X : Type} {SX : Sealed X} (x : X) (w : t)
  : result t :=
  p <- write_encrypted x ;;
  m <- store (buf w) (snd p) (mem w) ;;
  Ok (mk m (buf w + U32.wrap (fst p))).

Definition close (w : t) : t := w.

(** [buf - buf_start], returned as [uint32_t]. *)
Definition bytes_written (w : t) : Z := U32.wrap (buf w).

Fixpoint write_all (rows : list NewRecord.t) (w : t) : result t :=
  match rows with
  | [] => Ok w
  | row :: rows' => w' <- write row w ;; write_all rows' w'
  end.

End Ops.

End IndividualRowWriter.

Module IndividualRowReaderV.

Record t : Type := mk {
  mem : list byte;        (* the buffer [buf_input] points to *)
  buf : Z;
  verify_set : option Verify
}.

(** [IndividualRowReaderV(buf_input, verify_set)]: the task identifier is
    read, and stepped over, only if there is a verify set. *)
Definition make (mem : list byte) (verify_set : option Verify) : result t :=
  match verify_set with
  | Some v =>
      self_task_id <- load32 0 mem ;;
      Ok (mk mem (0 + 4) (Some (add_node self_task_id v)))
  | None => Ok (mk mem 0 None)
  end.

(** [read] into a row, a join row or an aggregator *)
Definition read {X : Type} {SX : Sealed X} (x : X) (r : t)
  : result (X * t) :=
  p <- read_encrypted (mem r) (buf r) x ;;
  Ok (snd p, mk (mem r) (buf r + fst p) (verify_set r)).

End IndividualRowReaderV.

Module IndividualRowReader.

Record t : Type := mk {
  mem : list byte;
  buf : Z
}.

Definition make (mem : list byte) : t := mk mem 0.

Definition read {X : Type} {SX : Sealed X} (x : X) (r : t)
  : result (X * t) :=
  p <- read_encrypted (mem r) (buf r) x ;;
  Ok (snd p, mk (mem r) (buf r + fst p)).

End IndividualRowReader.

(** ** Sort pointers: [class SortPointer<RecordType>]

    A sort pointer refers to a record owned by its client and caches the
    record's key prefix.  Records live in a store; a pointer to one is its
    index there, so that two sort pointers can refer to one record. *)

(** What a sort pointer calls on its record type. *)
Class SortRecord (R : Type) : Type := {
  (** [rec->set(other)], as [rec_set other rec] *)
  rec_set : R -> R -> result R;
  (** [rec->read(input)]: the number of bytes consumed and the record *)
  rec_read : list byte -> Z -> R -> result (Z * R);
  (** [rec->get_key_prefix(op_code)] *)
  rec_get_key_prefix : Z -> R -> result Z;
  (** [rec->less_than(other, op_code)], as [rec_less_than rec other op_code] *)
  rec_less_than : R -> R -> Z -> result bool
}.

Module SortPointer.

Record t : Type := mk {
  rec : option nat;   (* index of the record in the store, or NULL *)
  key_prefix : Z
}.

Definition make : t := mk None 0.

Definition is_valid (p : t) : bool :=
  match rec p with Some _ => true | None => false end.

Definition init (r : nat) (p : t) : t := mk (Some r) (key_prefix p).

Definition clear (p : t) : t := mk None 0.

Section Ops.
  Context {R : Type} {SR : SortRecord R}.

(** Following a record pointer: NULL and dangling pointers fault. *)
Definition deref (heap : list R) (p : option nat) : result R :=
  match p with
  | Some i =>
      match nth_error heap i with
      | Some r => Ok r
      | None => Err MemoryFault
      end
  | None => Err MemoryFault
  end.

(** The store with the record at [i] replaced. *)
Definition update (heap : list R) (i : nat) (r : R) : list R :=
  firstn i heap ++ r :: skipn (S i) heap.

(** [set(other)]: copies into the record pointed to. *)
Definition set (other p : t) (heap : list R) : result (t * list R) :=
  match rec p with
  | None => Err MemoryFault
  | Some i =>
      this <- deref heap (rec p) ;;
      o <- deref heap (rec other) ;;
      r' <- rec_set o this ;;
      Ok (mk (rec p) (key_prefix other), update heap i r')
  end.

(** [read(input, op_code)] *)
Definition read (input : list byte) (pos : Z) (op_code : Z) (p : t)
    (heap : list R) : result (Z * t * list R) :=
  match rec p with
  | None => Err MemoryFault
  | Some i =>
      this <- deref heap (rec p) ;;
      q <- rec_read input pos this ;;
      k <- rec_get_key_prefix op_code (snd q) ;;
      Ok (fst q, mk (rec p) k, update heap i (snd q))
  end.

(** [less_than(other, op_code, num_deep_comparisons)]: the counter is
    the one [num_deep_comparisons] points to, or NULL. *)
Definition less_than (p other : t) (op_code : Z)
    (num_deep_comparisons : option Z) (heap : list R)
  : result (bool * option Z) :=
  if key_prefix p <? key_prefix other then Ok (true, num_deep_comparisons)
  else if key_prefix other <? key_prefix p
       then Ok (false, num_deep_comparisons)
       else
         let n := option_map U32.incr num_deep_comparisons in
         a <- deref heap (rec p) ;;
         b <- deref heap (rec other) ;;
         lt <- rec_less_than a b op_code ;;
         Ok (lt, n).

End Ops.

End SortPointer.

(** ** Saving and restoring aggregation state

    [read_encrypted] and [write_encrypted] of [Aggregator1] and
    [Aggregator2]. *)

(** [AGG_UPPER_BOUND] of [util.h]. *)
Class AggLimits : Type := {
  AGG_UPPER_BOUND : N
}.

(** [encrypt(plaintext, length, ciphertext)]: the cipher without
    associated data. *)
Class PlainCipher : Type := {
  encrypt : list byte -> list byte
}.

(** What the aggregators call on their group-by type to save and restore
    it: [g.read(input)], returning the number of bytes consumed, and
    [g.write_whole_row(output)], given by the number it returns and the
    bytes it leaves at [output]. *)
Class GroupByStore (G : Type) : Type := {
  gb_read : list byte -> Z -> G -> result (Z * G);
  gb_write_whole_row : G -> result (Z * list byte)
}.

(** Likewise for an aggregation type: [a.read_partial_result(input)] and
    [a.write_partial_result(output)]. *)
Class AggStore (A : Type) : Type := {
  agg_read_partial_result : list byte -> Z -> A -> result (Z * A);
  agg_write_partial_result : A -> result (Z * list byte)
}.

(** [GroupBy::read] and [GroupBy::write_whole_row] *)
#[export] Instance GroupBy_store {lim : Limits} {types : TypeTable}
    (Column : Z) : GroupByStore GroupBy.t := {
  gb_read input pos g :=
    p <- NewRecord.read input pos (GroupBy.row g) ;;
    a <- GroupBy.bind_attr Column (snd p) ;;
    Ok (fst p, GroupBy.mk (snd p) a);
  gb_write_whole_row g :=
    bs <- NewRecord.logical (GroupBy.row g) ;;
    Ok (NewRecord.row_length (GroupBy.row g), bs)
}.

(** [GroupBy2::read] and [GroupBy2::write_whole_row] *)
#[export] Instance GroupBy2_store {lim : Limits} {types : TypeTable}
    (Column1 Column2 : Z) : GroupByStore GroupBy2.t := {
  gb_read input pos g :=
    p <- NewRecord.read input pos (GroupBy2.row g) ;;
    a <- GroupBy2.bind_attrs Column1 Column2 (snd p) ;;
    Ok (fst p, GroupBy2.mk (snd p) (fst a) (snd a));
  gb_write_whole_row g :=
    bs <- NewRecord.logical (GroupBy2.row g) ;;
    Ok (NewRecord.row_length (GroupBy2.row g), bs)
}.

Module Aggregator1IO.

Section Ops.
  Context {lim : Limits} {alim : AggLimits}.
  Context {cipher : Cipher} {plain : PlainCipher}.
  Context {G A1 : Type} {GS : GroupByStore G} {AS1 : AggStore A1}.

(** [write_encrypted(output)]: the number returned and the bytes left at
    [output].  The state is laid out in a buffer from [malloc], whose
    content is [junk]: the two counters, the group row at offset 8, the
    partial result [ROW_UPPER_BOUND] bytes further. *)
Definition write_encrypted (junk : list byte) (s : Aggregator1.t G A1)
  : result (Z * list byte) :=
  let tmp := malloc AGG_UPPER_BOUND junk in
  t1 <- store32 0 (Aggregator1.num_distinct s) tmp ;;
  t2 <- store32 4 (Aggregator1.offset s) t1 ;;
  gw <- gb_write_whole_row (Aggregator1.g s) ;;
  t3 <- store 8 (snd gw) t2 ;;
  aw <- agg_write_partial_result (Aggregator1.a1 s) ;;
  t4 <- store (8 + Z.of_N ROW_UPPER_BOUND) (snd aw) t3 ;;
  let e := enc_size (Z.of_N AGG_UPPER_BOUND) in
  Ok (U32.add 4 e, U32.encode e ++ encrypt t4).

(** [read_encrypted(input)]: the number of bytes consumed and the state
    read. *)
Definition read_encrypted (junk : list byte) (input : list byte) (pos : Z)
    (s : Aggregator1.t G A1) : result (Z * Aggregator1.t G A1) :=
  agg_size <- load32 pos input ;;
  let e := enc_size (Z.of_N AGG_UPPER_BOUND) in
  check (agg_size =? e) FormatError ;;;
  ct <- load (pos + 4) e input ;;
  pt <- decrypt ct ;;
  tmp <- store 0 pt (malloc AGG_UPPER_BOUND junk) ;;
  num_distinct <- load32 0 tmp ;;
  offset <- load32 4 tmp ;;
  gr <- gb_read tmp 8 (Aggregator1.g s) ;;
  ar <- agg_read_partial_result tmp (8 + Z.of_N ROW_UPPER_BOUND)
          (Aggregator1.a1 s) ;;
  Ok (U32.add 4 e, Aggregator1.mk num_distinct offset (snd gr) (snd ar)).

End Ops.

End Aggregator1IO.

Module Aggregator2IO.

Section Ops.
  Context {lim : Limits} {alim : AggLimits}.
  Context {cipher : Cipher} {plain : PlainCipher}.
  Context {G A1 A2 : Type}.
  Context {GS : GroupByStore G} {AS1 : AggStore A1} {AS2 : AggStore A2}.

Definition write_encrypted (junk : list byte) (s : Aggregator2.t G A1 A2)
  : result (Z * list byte) :=
  let tmp := malloc AGG_UPPER_BOUND junk in
  t1 <- store32 0 (Aggregator2.num_distinct s) tmp ;;
  t2 <- store32 4 (Aggregator2.offset s) t1 ;;
  gw <- gb_write_whole_row (Aggregator2.g s) ;;
  t3 <- store 8 (snd gw) t2 ;;
  let p1 := 8 + Z.of_N ROW_UPPER_BOUND in
  aw1 <- agg_write_partial_result (Aggregator2.a1 s) ;;
  t4 <- store p1 (snd aw1) t3 ;;
  let p2 := p1 + U32.wrap (fst aw1) in
  aw2 <- agg_write_partial_result (Aggregator2.a2 s) ;;
  t5 <- store p2 (snd aw2) t4 ;;
  let e := enc_size (Z.of_N AGG_UPPER_BOUND) in
  Ok (U32.add 4 e, U32.encode e ++ encrypt t5).

Definition read_encrypted (junk : list byte) (input : list byte) (pos : Z)
    (s : Aggregator2.t G A1 A2) : result (Z * Aggregator2.t G A1 A2) :=
  agg_size <- load32 pos input ;;
  let e := enc_size (Z.of_N AGG_UPPER_BOUND) in
  check (agg_size =? e) FormatError ;;;
  ct <- load (pos + 4) e input ;;
  pt <- decrypt ct ;;
  tmp <- store 0 pt (malloc AGG_UPPER_BOUND junk) ;;
  num_distinct <- load32 0 tmp ;;
  offset <- load32 4 tmp ;;
  gr <- gb_read tmp 8 (Aggregator2.g s) ;;
  let p1 := 8 + Z.of_N ROW_UPPER_BOUND in
  ar1 <- agg_read_partial_result tmp p1 (Aggregator2.a1 s) ;;
  let p2 := p1 + U32.wrap (fst ar1) in
  ar2 <- agg_read_partial_result tmp p2 (Aggregator2.a2 s) ;;
  Ok (U32.add 4 e,
      Aggregator2.mk num_distinct offset (snd gr) (snd ar1) (snd ar2)).

End Ops.

End Aggregator2IO.

(** An aggregator is a value the single-row writers and readers move. *)
#[export] Instance Aggregator1_sealed {lim : Limits} {alim : AggLimits}
    {cipher : Cipher} {plain : PlainCipher} {G A1 : Type}
    {GS : GroupByStore G} {AS1 : AggStore A1} (junk : list byte)
  : Sealed (Aggregator1.t G A1) := {
  write_encrypted := Aggregator1IO.write_encrypted junk;
  read_encrypted := Aggregator1IO.read_encrypted junk
}.

#[export] Instance Aggregator2_sealed {lim : Limits} {alim : AggLimits}
    {cipher : Cipher} {plain : PlainCipher} {G A1 A2 : Type}
    {GS : GroupByStore G} {AS1 : AggStore A1} {AS2 : AggStore A2}
    (junk : list byte) : Sealed (Aggregator2.t G A1 A2) := {
  write_encrypted := Aggregator2IO.write_encrypted junk;
  read_encrypted := Aggregator2IO.read_encrypted junk
}.

(** What saving and restoring relies on in the cipher: a plaintext of
    [AGG_UPPER_BOUND] bytes gives a ciphertext of
    [enc_size(AGG_UPPER_BOUND)] bytes, which decrypts to it. *)
Definition plain_cipher_law {alim : AggLimits} {cipher : Cipher}
    {plain : PlainCipher} : Prop :=
  forall pt : list byte,
    length pt = N.to_nat AGG_UPPER_BOUND ->
    Z.of_nat (length (encrypt pt)) = enc_size (Z.of_N AGG_UPPER_BOUND) /\
    decrypt (encrypt pt) = Ok pt.

(** * A sample environment

    Concrete values for what the header leaves to its environment, small
    enough to run the definitions above on. *)

Module Sample.

#[export] Instance limits : Limits := {
  ROW_UPPER_BOUND := 64;
  MAX_BLOCK_SIZE := 256
}.

Definition FLOAT : byte := 2.
Definition STRING : byte := 3.
Definition DUMMY_INT : byte := 101.
Definition DUMMY_FLOAT : byte := 102.
Definition DUMMY_STRING : byte := 103.

(** Modelled from the spec: the type tags, kept in a header that is not
    part of this file: an integer and a float of width 4, a string, and one
    dummy tag per concrete type.  The values of the tags are samples. *)
#[export] Instance types : TypeTable := {
  INT := 1;
  is_dummy_type ty := (ty =? DUMMY_INT) || (ty =? DUMMY_FLOAT)
                      || (ty =? DUMMY_STRING);
  attr_upper_bound ty := if (ty =? STRING) || (ty =? DUMMY_STRING)
                         then 21 else 9
}.

Definition checksum (bs : list byte) : Z :=
  fold_right (fun b acc => (b + acc) mod 256) 0 bs.

Definition mask (k : Z) (bs : list byte) : list byte :=
  map (fun b => Z.lxor b k) bs.

(** A 16-byte tag over the plaintext and the associated data. *)
Definition tag (pt aad : list byte) : list byte :=
  mask (checksum pt) (firstn 16 (aad ++ repeat 0 16)).

Definition seal (pt aad : list byte) : list byte :=
  repeat 0 12 ++ mask 90 pt ++ tag pt aad.

Definition open (ct aad : list byte) : result (list byte) :=
  let n := length ct in
  if (n <? 28)%nat then Err CipherError
  else let pt := mask 90 (firstn (n - 28) (skipn 12 ct)) in
       if bytes_eqb (skipn (n - 16) ct) (tag pt aad)
       then Ok pt
       else Err CipherError.

(** Modelled from the spec: the cipher, defined outside this file:
    authenticated encryption whose ciphertext is the plaintext framed by an
    initialisation vector (12 bytes) and a tag (16 bytes), with and without
    associated data.  The tag here is a checksum: enough to tell any two
    16-byte headers apart. *)
#[export] Instance cipher : Cipher := {
  enc_size n := U32.wrap (n + 28);
  encrypt_with_aad := seal;
  decrypt ct := open ct [];
  decrypt_with_aad := open
}.

(** Modelled from the spec: the streaming cipher, defined outside this
    file; a byte-wise mask stands for it. *)
#[export] Instance suite : StreamSuite := {
  stream_encrypt := mask 165;
  stream_decrypt := mask 165
}.

(** Modelled from the spec: [task_id_parser], defined outside this file: a
    task identifier packed from the opcode and the partition index.  The
    packing is a sample. *)
#[export] Instance tasks : TaskIds := {
  task_id_parser opcode part := U32.wrap (opcode * 65536 + part)
}.

(** An attribute [[type][len][value]] holding a 32-bit value. *)
Definition attr32 (ty : byte) (v : Z) : list byte :=
  ty :: U32.encode 4 ++ U32.encode v.

(** The row buffer holding the given attributes. *)
Definition record_of (attrs : list (list byte)) : NewRecord.t :=
  let bs := U32.encode (Z.of_nat (length attrs)) ++ concat attrs in
  NewRecord.mk (firstn 64 (bs ++ repeat 0 64)) (Z.of_nat (length bs)).

(** [[INT=7, INT=5]], the same row with dummy tags, and [[INT=42]]. *)
Definition rec_7_5 : NewRecord.t := record_of [attr32 1 7; attr32 1 5].
Definition rec_42 : NewRecord.t := record_of [attr32 1 42].
Definition rec_9 : NewRecord.t := record_of [attr32 1 9].

(** The bytes of a sample row. *)
Definition bytes_of (r : NewRecord.t) : list byte :=
  firstn (Z.to_nat (NewRecord.row_length r)) (NewRecord.row r).

(** A bulk writer with task identifier 7 over 128 zeroed bytes, one row
    written, closed. *)
Definition written_42 : result RowWriter.t :=
  w <- RowWriter.write rec_42
         (RowWriter.set_self_task_id 7
            (RowWriter.make (repeat 0 128) 0 [])) ;;
  RowWriter.close w.

(** The writer above before [close()], the row still in its block. *)
Definition writer_42 : RowWriter.t :=
  match RowWriter.write rec_42
          (RowWriter.set_self_task_id 7
             (RowWriter.make (repeat 0 128) 0 [])) with
  | Ok w => w
  | Err _ => RowWriter.make (repeat 0 128) 0 []
  end.

(** The group-by key of [[INT=7, INT=5]] on its first column. *)
Definition group_7_5 : GroupBy.t :=
  match GroupBy.of_record 1 rec_7_5 with
  | Ok g => g
  | Err _ => GroupBy.make
  end.


(** Three blocks in the framing the bulk reader consumes: one row, no
    row, one row. *)
Definition bulk_blocks : list byte :=
  RowReader.frame 1 13 (seal (bytes_of rec_42) [])
  ++ RowReader.frame 0 13 (seal [] [])
  ++ RowReader.frame 1 13 (seal (bytes_of rec_9) []).

(** A streaming writer with opcode 3 and partition 1 over 64 zeroed bytes,
    one row written, closed. *)
Definition streamed_42 : result StreamRowWriter.t :=
  StreamRowWriter.run
    [StreamRowWriter.SetOpcode 3; StreamRowWriter.SetPartIndex 1;
     StreamRowWriter.Write rec_42; StreamRowWriter.Finish]
    (StreamRowWriter.make (repeat 0 64)).

(** Three blocks in the framing the streaming reader consumes: one row, no
    row, one row. *)
Definition stream_blocks : list byte :=
  StreamRowReader.frame 1 64 196609 (stream_encrypt (bytes_of rec_42))
  ++ StreamRowReader.frame 0 64 196609 (stream_encrypt [])
  ++ StreamRowReader.frame 1 64 196609 (stream_encrypt (bytes_of rec_9)).

(** The same, with the bytes of a row in the ciphertext of the block whose
    header announces no row. *)
Definition stream_blocks_ghost : list byte :=
  StreamRowReader.frame 1 64 196609 (stream_encrypt (bytes_of rec_42))
  ++ StreamRowReader.frame 0 64 196609 (stream_encrypt (bytes_of rec_7_5))
  ++ StreamRowReader.frame 1 64 196609 (stream_encrypt (bytes_of rec_9)).

(** [Aggregator1<GroupBy<1>, Sum<2, uint32_t>>] *)
Definition Agg1 : Type := Aggregator1.t GroupBy.t (Sum.t Z).
Definition agg1_new : Agg1 :=
  @Aggregator1.make GroupBy.t (Sum.t Z) (GroupBy_type 1) (Sum_type 2).
Definition agg1_aggregate : NewRecord.t -> Agg1 -> result Agg1 :=
  @Aggregator1.aggregate GroupBy.t (Sum.t Z) (GroupBy_type 1) (Sum_type 2).
Definition agg1_aggregate_other : Agg1 -> Agg1 -> result Agg1 :=
  @Aggregator1.aggregate_other GroupBy.t (Sum.t Z)
    (GroupBy_type 1) (Sum_type 2).

(** [Aggregator2<GroupBy2<1, 2>, Sum<2, uint32_t>, Avg<2, uint32_t>>] *)
Definition Agg2 : Type := Aggregator2.t GroupBy2.t (Sum.t Z) (Avg.t Z).
Definition agg2_new : Agg2 :=
  @Aggregator2.make GroupBy2.t (Sum.t Z) (Avg.t Z)
    (GroupBy2_type 1 2) (Sum_type 2) (Avg_type 2).
Definition agg2_aggregate : NewRecord.t -> Agg2 -> result Agg2 :=
  @Aggregator2.aggregate GroupBy2.t (Sum.t Z) (Avg.t Z)
    (GroupBy2_type 1 2) (Sum_type 2) (Avg_type 2).
Definition agg2_aggregate_other : Agg2 -> Agg2 -> result Agg2 :=
  @Aggregator2.aggregate_other GroupBy2.t (Sum.t Z) (Avg.t Z)
    (GroupBy2_type 1 2) (Sum_type 2) (Avg_type 2).

(** [[INT=7, INT=9]]: the group of [[INT=7, INT=5]] on the first column. *)
Definition rec_7_9 : NewRecord.t := record_of [attr32 1 7; attr32 1 9].

(** A bulk writer with row bound 13 and task identifier 7 over [size]
    zeroed bytes, the given rows written. *)
Definition writer_of (size : nat) (rows : list NewRecord.t)
  : result RowWriter.t :=
  RowWriter.write_all rows
    (RowWriter.set_self_task_id 7 (RowWriter.make (repeat 0 size) 13 [])).

(** The writer after fifteen rows: 195 of its 256 bytes accounted, less
    than [ROW_UPPER_BOUND] left. *)
Definition writer_15 : RowWriter.t :=
  match writer_of 256 (repeat rec_42 15) with
  | Ok w => w
  | Err _ => RowWriter.make [] 13 []
  end.

(** The writer after two rows. *)
Definition writer_2 : RowWriter.t :=
  match writer_of 128 [rec_42; rec_9] with
  | Ok w => w
  | Err _ => RowWriter.make [] 13 []
  end.

(** The sample [Aggregator1] after the given records. *)
Definition agg1_after (records : list NewRecord.t) : Agg1 :=
  match aggregate1_all (GB := GroupBy_type 1) (AG1 := Sum_type 2)
          records agg1_new with
  | Ok s => s
  | Err _ => agg1_new
  end.

(** A bulk reader over [bulk_blocks] with a verify set holding 5, and what
    two reads from it give. *)
Definition bulk_reader : RowReader.t :=
  match RowReader.make bulk_blocks None (Some [5]) [] with
  | Ok r => r
  | Err _ => RowReader.mk [] 0 None [] 0 0 0 None
  end.

Definition bulk_read_2 : list NewRecord.t * RowReader.t :=
  match RowReader.read_rows 2 NewRecord.default bulk_reader with
  | Ok p => p
  | Err _ => ([], bulk_reader)
  end.

(** The streaming writer of [streamed_42] before and after it finishes
    its block. *)
Definition stream_writer_42 : StreamRowWriter.t :=
  match StreamRowWriter.run
          [StreamRowWriter.SetOpcode 3; StreamRowWriter.SetPartIndex 1;
           StreamRowWriter.Write rec_42]
          (StreamRowWriter.make (repeat 0 64)) with
  | Ok w => w
  | Err _ => StreamRowWriter.make []
  end.

Definition stream_closed_42 : StreamRowWriter.t :=
  match StreamRowWriter.finish_block stream_writer_42 with
  | Ok w => w
  | Err _ => StreamRowWriter.make []
  end.

(** A streaming reader over [stream_blocks]. *)
Definition stream_reader : StreamRowReader.t :=
  match StreamRowReader.make stream_blocks None with
  | Ok r => r
  | Err _ => StreamRowReader.mk None [] 0 None 0 0 0 0 0 []
  end.

(** Modelled from the spec: [NewRecord::write_encrypted] and
    [NewRecord::read_encrypted], defined outside this file: the bytes of
    the row sealed on their own, behind the length of the ciphertext. *)
#[export] Instance sealed_rows : Sealed NewRecord.t := {
  write_encrypted r :=
    bs <- NewRecord.logical r ;;
    let ct := seal bs [] in
    Ok (4 + Z.of_nat (length ct), U32.encode (Z.of_nat (length ct)) ++ ct);
  read_encrypted input pos r :=
    n <- load32 pos input ;;
    ct <- load (pos + 4) n input ;;
    bs <- open ct [] ;;
    m <- store 0 bs (NewRecord.row r) ;;
    Ok (4 + n, NewRecord.mk m (Z.of_nat (length bs)))
}.

(** A single-row writer with task identifier 7 over 128 zeroed bytes, two
    rows written, before and after [close()]. *)
Definition individual_written : IndividualRowWriterV.t :=
  match IndividualRowWriterV.write_all [rec_42; rec_9]
          (IndividualRowWriterV.make (repeat 0 128)) with
  | Ok w => IndividualRowWriterV.set_self_task_id 7 w
  | Err _ => IndividualRowWriterV.make []
  end.

Definition individual_closed : IndividualRowWriterV.t :=
  match IndividualRowWriterV.close individual_written with
  | Ok w => w
  | Err _ => IndividualRowWriterV.make []
  end.

(** The join row of the foreign table built from [[INT=7, INT=5]]. *)
Definition join_7_5 : NewJoinRecord.t :=
  match NewJoinRecord.set false rec_7_5 NewJoinRecord.default with
  | Ok j => j
  | Err _ => NewJoinRecord.default
  end.

(** Modelled from the spec: [NewRecord::get_key_prefix] and
    [NewRecord::less_than], defined outside this file.  Here rows are
    ordered by their first column, then by their second, and the key
    prefix is the first column. *)
#[export] Instance sorted_rows : SortRecord NewRecord.t := {
  rec_set := NewRecord.set;
  rec_read := NewRecord.read;
  rec_get_key_prefix op_code r := load32 9 (NewRecord.row r);
  rec_less_than a b op_code :=
    ka <- load32 9 (NewRecord.row a) ;;
    kb <- load32 9 (NewRecord.row b) ;;
    if ka =? kb
    then va <- load32 18 (NewRecord.row a) ;;
         vb <- load32 18 (NewRecord.row b) ;;
         Ok (va <? vb)
    else Ok (ka <? kb)
}.

(** Two sort pointers on the two records of a store, the first filled
    with [[INT=7, INT=9]], then the second with [[INT=7, INT=5]]. *)
Definition sort_read_1 : Z * SortPointer.t * list NewRecord.t :=
  match SortPointer.read (bytes_of rec_7_9) 0 0
          (SortPointer.init 0 SortPointer.make)
          [NewRecord.default; NewRecord.default] with
  | Ok x => x
  | Err _ => (0, SortPointer.make, [])
  end.

Definition sort_read_2 : Z * SortPointer.t * list NewRecord.t :=
  match SortPointer.read (bytes_of rec_7_5) 0 0
          (SortPointer.init 1 SortPointer.make) (snd sort_read_1) with
  | Ok x => x
  | Err _ => (0, SortPointer.make, [])
  end.

(** A bulk writer whose block buffer came from [malloc] holding the byte
    170 throughout, one row written, before and after [close()]. *)
Definition writer_junk : RowWriter.t :=
  match RowWriter.write_all [rec_42]
          (RowWriter.set_self_task_id 7
             (RowWriter.make (repeat 0 128) 17 (repeat 170 256))) with
  | Ok w => w
  | Err _ => RowWriter.make [] 13 []
  end.

Definition writer_junk_closed : RowWriter.t :=
  match RowWriter.close writer_junk with
  | Ok w => w
  | Err _ => RowWriter.make [] 13 []
  end.

(** A bulk writer constructed without a row bound, after one row and
    after one more. *)
Definition writer_unbound : RowWriter.t :=
  match RowWriter.write rec_42 (RowWriter.make (repeat 0 128) 0 []) with
  | Ok w => w
  | Err _ => RowWriter.make [] 0 []
  end.

Definition writer_unbound_2 : RowWriter.t :=
  match RowWriter.write_all [rec_9] writer_unbound with
  | Ok w => w
  | Err _ => RowWriter.make [] 0 []
  end.

(** [AGG_UPPER_BOUND]: the two counters, a row and a partial result. *)
#[export] Instance agg_limits : AggLimits := {
  AGG_UPPER_BOUND := 96
}.

#[export] Instance plain : PlainCipher := {
  encrypt pt := seal pt []
}.

(** Modelled from the spec: [read_attr<uint32_t>] and
    [write_attr<uint32_t>], declared in the header and defined outside it:
    a partial sum is one integer attribute. *)
#[export] Instance sum_store : AggStore (Sum.t Z) := {
  agg_read_partial_result input pos a :=
    v <- load32 (pos + 5) input ;; Ok (9, Sum.mk v);
  agg_write_partial_result a := Ok (9, attr32 1 (Sum.sum a))
}.

(** The sample [Aggregator1] after two rows of one group, saved. *)
Definition agg1_saved : Z * list byte :=
  match Aggregator1IO.write_encrypted (GS := GroupBy_store 1) []
          (agg1_after [rec_7_5; rec_7_9]) with
  | Ok p => p
  | Err _ => (0, [])
  end.

(** The bytes [write_encrypted] leaves for a row. *)
Definition sealed_bytes (r : NewRecord.t) : list byte :=
  match write_encrypted r with
  | Ok p => snd p
  | Err _ => []
  end.

(** A row that fills its 64 bytes. *)
Definition big_row : NewRecord.t := NewRecord.mk (repeat 0 64) 64.

(** Two blocks for the bulk reader: two rows and two bytes of padding,
    then one row. *)
Definition block_a : reader_block :=
  mk_reader_block 13
    (seal (bytes_of rec_42 ++ bytes_of rec_9 ++ [0; 0]) [])
    [bytes_of rec_42; bytes_of rec_9] [0; 0].

Definition block_b : reader_block :=
  mk_reader_block 22 (seal (bytes_of rec_7_5) []) [bytes_of rec_7_5] [].

(** An [Aggregator2<GroupBy<1>, Sum<2, uint32_t>, Sum<1, uint32_t>>]
    after two rows of one group, and its saved state. *)
Definition agg2_sums : Aggregator2.t GroupBy.t (Sum.t Z) (Sum.t Z) :=
  match aggregate2_all (GB := GroupBy_type 1) (AG1 := Sum_type 2)
          (AG2 := Sum_type 1) [rec_7_5; rec_7_9]
          (Aggregator2.make (GB := GroupBy_type 1) (AG1 := Sum_type 2)
             (AG2 := Sum_type 1)) with
  | Ok s => s
  | Err _ => Aggregator2.make (GB := GroupBy_type 1) (AG1 := Sum_type 2)
               (AG2 := Sum_type 1)
  end.

Definition agg2_saved : Z * list byte :=
  match Aggregator2IO.write_encrypted (GS := GroupBy_store 1) []
          agg2_sums with
  | Ok p => p
  | Err _ => (0, [])
  end.

(** Rows of other groups: [[INT=8, INT=1]] differs from [[INT=7, INT=5]]
    on the first column, [[INT=7, INT=6]] on the second only. *)
Definition rec_8_1 : NewRecord.t := record_of [attr32 1 8; attr32 1 1].
Definition rec_7_6 : NewRecord.t := record_of [attr32 1 7; attr32 1 6].

(** The keys [GroupBy<1>] and [GroupBy2<1, 2>] build from a row. *)
Definition group_of (r : NewRecord.t) : GroupBy.t :=
  match GroupBy.of_record 1 r with
  | Ok g => g
  | Err _ => GroupBy.make
  end.

Definition group2_of (r : NewRecord.t) : GroupBy2.t :=
  match GroupBy2.of_record 1 2 r with
  | Ok g => g
  | Err _ => GroupBy2.make
  end.

(** The [Aggregator2] above after a run of rows. *)
Definition agg2_after (records : list NewRecord.t) : Agg2 :=
  match aggregate2_all (GB := GroupBy2_type 1 2) (AG1 := Sum_type 2)
          (AG2 := Avg_type 2) records agg2_new with
  | Ok s => s
  | Err _ => agg2_new
  end.

End Sample.

(** * Properties *)

(** ** Words and buffers *)

Module U32Facts.
  Import U32.

Lemma length_encode (x : Z) : length (encode x) = 4%nat.
Proof. reflexivity. Qed.

Lemma wrap_range (x : Z) : 0 <= wrap x < modulus.
Proof. unfold wrap, modulus. apply Z.mod_pos_bound. lia. Qed.

Lemma wrap_small (x : Z) : 0 <= x < modulus -> wrap x = x.
Proof. intros H. unfold wrap. apply Z.mod_small. exact H. Qed.

Lemma decode_encode (x : Z) : decode (encode x) = wrap x.
Proof.
  unfold decode, encode, wrap, modulus. cbn [nth].
  rewrite !Z.mod_mod by lia.
  pose proof (Z.div_mod x 256 ltac:(lia)) as H0.
  pose proof (Z.div_mod (x / 256) 256 ltac:(lia)) as H1.
  pose proof (Z.div_mod (x / 256 / 256) 256 ltac:(lia)) as H2.
  pose proof (Z.div_mod (x / 256 / 256 / 256) 256 ltac:(lia)) as H3.
  replace (x / 65536) with (x / 256 / 256)
    by (rewrite Z.div_div by lia; reflexivity).
  replace (x / 16777216) with (x / 256 / 256 / 256)
    by (rewrite !Z.div_div by lia; reflexivity).
  pose proof (Z.mod_pos_bound x 256 ltac:(lia)).
  pose proof (Z.mod_pos_bound (x / 256) 256 ltac:(lia)).
  pose proof (Z.mod_pos_bound (x / 256 / 256) 256 ltac:(lia)).
  pose proof (Z.mod_pos_bound (x / 256 / 256 / 256) 256 ltac:(lia)).
  apply Z.mod_unique_pos with (q := x / 256 / 256 / 256 / 256); lia.
Qed.

Lemma decode_range (bs : list byte) : 0 <= decode bs < modulus.
Proof.
  unfold decode, modulus.
  pose proof (Z.mod_pos_bound (nth 0 bs 0) 256 ltac:(lia)).
  pose proof (Z.mod_pos_bound (nth 1 bs 0) 256 ltac:(lia)).
  pose proof (Z.mod_pos_bound (nth 2 bs 0) 256 ltac:(lia)).
  pose proof (Z.mod_pos_bound (nth 3 bs 0) 256 ltac:(lia)).
  lia.
Qed.

Lemma decode_encode_small (x : Z) :
  0 <= x < modulus -> decode (encode x) = x.
Proof. intros H. rewrite decode_encode. apply wrap_small, H. Qed.

End U32Facts.

Lemma bytes_eqb_eq (a b : list byte) : bytes_eqb a b = true <-> a = b.
Proof.
  unfold bytes_eqb. destruct (list_eq_dec Z.eq_dec a b); split; congruence.
Qed.

Lemma in_bounds_true (pos len : Z) (mem : list byte) :
  in_bounds pos len mem = true <->
  0 <= pos /\ 0 <= len /\ pos + len <= Z.of_nat (length mem).
Proof.
  unfold in_bounds. rewrite !andb_true_iff, !Z.leb_le. tauto.
Qed.

Lemma load_ok (pos len : Z) (mem : list byte) :
  0 <= pos -> 0 <= len -> pos + len <= Z.of_nat (length mem) ->
  load pos len mem = Ok (firstn (Z.to_nat len) (skipn (Z.to_nat pos) mem)).
Proof.
  intros. unfold load.
  replace (in_bounds pos len mem) with true; [reflexivity|].
  symmetry. apply in_bounds_true. auto.
Qed.

Lemma load_inv (pos len : Z) (mem bs : list byte) :
  load pos len mem = Ok bs ->
  0 <= pos /\ 0 <= len /\ pos + len <= Z.of_nat (length mem) /\
  bs = firstn (Z.to_nat len) (skipn (Z.to_nat pos) mem) /\
  Z.of_nat (length bs) = len.
Proof.
  unfold load. destruct (in_bounds pos len mem) eqn:E; [|discriminate].
  intros [= <-]. apply in_bounds_true in E. destruct E as (h1 & h2 & h3).
  repeat split; auto.
  rewrite length_firstn, length_skipn. lia.
Qed.

Lemma store_ok (pos : Z) (bs mem : list byte) :
  0 <= pos -> pos + Z.of_nat (length bs) <= Z.of_nat (length mem) ->
  store pos bs mem =
  Ok (firstn (Z.to_nat pos) mem ++ bs ++ skipn (Z.to_nat pos + length bs) mem).
Proof.
  intros. unfold store.
  replace (in_bounds pos (Z.of_nat (length bs)) mem) with true; [reflexivity|].
  symmetry. apply in_bounds_true. lia.
Qed.

Lemma store_inv (pos : Z) (bs mem mem' : list byte) :
  store pos bs mem = Ok mem' ->
  0 <= pos /\ pos + Z.of_nat (length bs) <= Z.of_nat (length mem) /\
  mem' = firstn (Z.to_nat pos) mem ++ bs
           ++ skipn (Z.to_nat pos + length bs) mem /\
  length mem' = length mem.
Proof.
  unfold store.
  destruct (in_bounds pos (Z.of_nat (length bs)) mem) eqn:E; [|discriminate].
  intros [= <-]. apply in_bounds_true in E. destruct E as (h1 & h2 & h3).
  repeat split; auto.
  rewrite !length_app, length_firstn, length_skipn. lia.
Qed.

(** Reading back what was just written. *)
Lemma load_store_same (pos : Z) (bs mem mem' : list byte) :
  store pos bs mem = Ok mem' ->
  load pos (Z.of_nat (length bs)) mem' = Ok bs.
Proof.
  intros H. apply store_inv in H. destruct H as (h1 & h2 & -> & hl).
  rewrite load_ok by lia.
  f_equal. rewrite Nat2Z.id.
  rewrite skipn_app, skipn_all2 by (rewrite length_firstn; lia).
  rewrite length_firstn.
  replace (Z.to_nat pos - Nat.min (Z.to_nat pos) (length mem))%nat
    with 0%nat by lia.
  cbn [app skipn]. rewrite firstn_app, firstn_all, Nat.sub_diag.
  cbn [firstn]. apply app_nil_r.
Qed.

(** A write leaves every disjoint range as it was. *)
Lemma load_store_other (pos : Z) (bs mem mem' : list byte) (p n : Z) :
  store pos bs mem = Ok mem' ->
  p + n <= pos \/ pos + Z.of_nat (length bs) <= p ->
  load p n mem' = load p n mem.
Proof.
  intros H D. apply store_inv in H. destruct H as (h1 & h2 & -> & hl).
  unfold load, in_bounds. rewrite hl.
  destruct ((0 <=? p) && (0 <=? n) && (p + n <=? Z.of_nat (length mem))) eqn:E;
    [|reflexivity].
  rewrite !andb_true_iff, !Z.leb_le in E. destruct E as ((e1 & e2) & e3).
  f_equal. destruct D as [D|D].
  - rewrite skipn_app, firstn_app.
    rewrite length_skipn, !length_firstn.
    replace (Z.to_nat p - Nat.min (Z.to_nat pos) (length mem))%nat
      with 0%nat by lia.
    replace (Z.to_nat n - (Nat.min (Z.to_nat pos) (length mem) - Z.to_nat p))%nat
      with 0%nat by lia.
    cbn [skipn firstn]. rewrite app_nil_r.
    rewrite skipn_firstn_comm, firstn_firstn.
    f_equal. lia.
  - rewrite app_assoc.
    rewrite skipn_app.
    rewrite skipn_all2 by (rewrite length_app, length_firstn; lia).
    cbn [app]. rewrite length_app, length_firstn.
    rewrite skipn_skipn. do 2 f_equal. lia.
Qed.

Lemma length_load (pos len : Z) (mem bs : list byte) :
  load pos len mem = Ok bs -> Z.of_nat (length bs) = len.
Proof. intros H. apply load_inv in H. tauto. Qed.

Lemma length_store (pos : Z) (bs mem mem' : list byte) :
  store pos bs mem = Ok mem' -> length mem' = length mem.
Proof. intros H. apply store_inv in H. tauto. Qed.

Lemma load32_store32_same (pos x : Z) (mem mem' : list byte) :
  store32 pos x mem = Ok mem' -> load32 pos mem' = Ok (U32.wrap x).
Proof.
  intros H. unfold load32. apply load_store_same in H.
  rewrite U32Facts.length_encode in H. change (Z.of_nat 4) with 4 in H.
  rewrite H. cbn [bind]. rewrite U32Facts.decode_encode. reflexivity.
Qed.

Lemma load32_store_other (pos : Z) (bs mem mem' : list byte) (p : Z) :
  store pos bs mem = Ok mem' ->
  p + 4 <= pos \/ pos + Z.of_nat (length bs) <= p ->
  load32 p mem' = load32 p mem.
Proof.
  intros H D. unfold load32. rewrite (load_store_other _ _ _ _ _ _ H D).
  reflexivity.
Qed.

(** Taking a successful sequence of steps apart. *)
Ltac inv_bind H :=
  repeat match type of H with
         | bind ?c _ = Ok _ =>
             let E := fresh "E" in
             destruct c eqn:E; cbn [bind] in H; [|discriminate H]
         end.

Lemma load32_range (pos : Z) (mem : list byte) (n : Z) :
  load32 pos mem = Ok n -> 0 <= n < U32.modulus.
Proof.
  unfold load32. intros H. inv_bind H. injection H as <-.
  apply U32Facts.decode_range.
Qed.

Lemma store32_ok (pos x : Z) (mem : list byte) :
  0 <= pos -> pos + 4 <= Z.of_nat (length mem) ->
  exists mem', store32 pos x mem = Ok mem' /\ length mem' = length mem.
Proof.
  intros h1 h2. unfold store32.
  pose proof (U32Facts.length_encode x) as Hx.
  rewrite store_ok by lia.
  eexists; split; [reflexivity|].
  rewrite !length_app, length_firstn, length_skipn. lia.
Qed.

(** Two adjacent ranges read as one. *)
Lemma load_app (p n1 n2 : Z) (mem a b : list byte) :
  load p n1 mem = Ok a -> load (p + n1) n2 mem = Ok b ->
  load p (n1 + n2) mem = Ok (a ++ b).
Proof.
  intros Ha Hb. apply load_inv in Ha. apply load_inv in Hb.
  destruct Ha as (a1 & a2 & a3 & -> & _).
  destruct Hb as (b1 & b2 & b3 & -> & _).
  rewrite load_ok by lia. f_equal.
  replace (Z.to_nat (n1 + n2)) with (Z.to_nat n1 + Z.to_nat n2)%nat by lia.
  replace (Z.to_nat (p + n1)) with (Z.to_nat n1 + Z.to_nat p)%nat by lia.
  rewrite <- skipn_skipn.
  set (l := skipn (Z.to_nat p) mem).
  rewrite <- (firstn_skipn (Z.to_nat n1) l) at 1.
  rewrite firstn_app, length_firstn.
  rewrite firstn_firstn.
  replace (Nat.min (Z.to_nat n1 + Z.to_nat n2) (Z.to_nat n1))
    with (Z.to_nat n1) by lia.
  f_equal. f_equal.
  assert (Z.to_nat n1 <= length l)%nat
    by (unfold l; rewrite length_skipn; lia).
  lia.
Qed.

(** A part of a range that reads, reads. *)
Lemma load_prefix (p n k : Z) (mem l : list byte) :
  load p n mem = Ok l -> 0 <= k <= n ->
  load p k mem = Ok (firstn (Z.to_nat k) l).
Proof.
  intros H Hk. apply load_inv in H. destruct H as (h1 & h2 & h3 & -> & _).
  rewrite load_ok by lia. f_equal.
  rewrite firstn_firstn. f_equal. lia.
Qed.

Lemma load_suffix (p n k : Z) (mem l : list byte) :
  load p n mem = Ok l -> 0 <= k <= n ->
  load (p + k) (n - k) mem = Ok (skipn (Z.to_nat k) l).
Proof.
  intros H Hk. apply load_inv in H. destruct H as (h1 & h2 & h3 & -> & _).
  rewrite load_ok by lia. f_equal.
  rewrite skipn_firstn_comm, skipn_skipn. f_equal; [lia|f_equal; lia].
Qed.

(** Four words stored in a row read back as the sixteen bytes of their
    encodings. *)
Lemma store4_load16 (p x0 x1 x2 x3 : Z) (m m1 m2 m3 m4 : list byte) :
  store32 p x0 m = Ok m1 ->
  store32 (p + 4) x1 m1 = Ok m2 ->
  store32 (p + 8) x2 m2 = Ok m3 ->
  store32 (p + 12) x3 m3 = Ok m4 ->
  load p 16 m4
  = Ok (U32.encode x0 ++ U32.encode x1 ++ U32.encode x2 ++ U32.encode x3)
  /\ load p 4 m4 = Ok (U32.encode x0)
  /\ load (p + 4) 4 m4 = Ok (U32.encode x1)
  /\ load (p + 8) 4 m4 = Ok (U32.encode x2)
  /\ load (p + 12) 4 m4 = Ok (U32.encode x3).
Proof.
  unfold store32. intros E0 E1 E2 E3.
  pose proof (load_store_same _ _ _ _ E0) as L0.
  pose proof (load_store_same _ _ _ _ E1) as L1.
  pose proof (load_store_same _ _ _ _ E2) as L2.
  pose proof (load_store_same _ _ _ _ E3) as L3.
  rewrite U32Facts.length_encode in L0, L1, L2, L3.
  change (Z.of_nat 4) with 4 in *.
  rewrite <- (load_store_other _ _ _ _ p 4 E1) in L0
    by (rewrite U32Facts.length_encode; left; lia).
  rewrite <- (load_store_other _ _ _ _ p 4 E2) in L0
    by (rewrite U32Facts.length_encode; left; lia).
  rewrite <- (load_store_other _ _ _ _ p 4 E3) in L0
    by (rewrite U32Facts.length_encode; left; lia).
  rewrite <- (load_store_other _ _ _ _ (p + 4) 4 E2) in L1
    by (rewrite U32Facts.length_encode; left; lia).
  rewrite <- (load_store_other _ _ _ _ (p + 4) 4 E3) in L1
    by (rewrite U32Facts.length_encode; left; lia).
  rewrite <- (load_store_other _ _ _ _ (p + 8) 4 E3) in L2
    by (rewrite U32Facts.length_encode; left; lia).
  repeat split; auto.
  replace (p + 12) with (p + 8 + 4) in L3 by lia.
  pose proof (load_app _ _ _ _ _ _ L2 L3) as L23.
  replace (p + 8) with (p + 4 + 4) in L23 by lia.
  pose proof (load_app _ _ _ _ _ _ L1 L23) as L123.
  exact (load_app _ _ _ _ _ _ L0 L123).
Qed.

(** A write leaves the buffer's length as it is, so later accesses are in
    bounds when earlier ones were. *)
Lemma store_this_ok (pos : Z) (bs mem : list byte) :
  0 <= pos -> pos + Z.of_nat (length bs) <= Z.of_nat (length mem) ->
  exists mem', store pos bs mem = Ok mem' /\ length mem' = length mem.
Proof.
  intros h1 h2. rewrite store_ok by lia.
  eexists; split; [reflexivity|].
  rewrite !length_app, length_firstn, length_skipn. lia.
Qed.

(** ** Rows and join rows *)

Section RecordFacts.
  Context {lim : Limits} {types : TypeTable}.

Lemma clear_ok (r : NewRecord.t) :
  4 <= Z.of_nat (length (NewRecord.row r)) ->
  exists m, NewRecord.clear r = Ok (NewRecord.mk m 4) /\
            load32 0 m = Ok 0 /\
            length m = length (NewRecord.row r).
Proof.
  intros Hcap.
  destruct (store32_ok 0 0 (NewRecord.row r) ltac:(lia) ltac:(lia))
    as (m & Hm & Hlen).
  exists m. unfold NewRecord.clear, NewRecord.set_num_cols.
  rewrite Hm. cbn [bind NewRecord.row]. repeat split; auto.
  apply load32_store32_same in Hm. exact Hm.
Qed.

Lemma clear_inv (r r' : NewRecord.t) :
  NewRecord.clear r = Ok r' ->
  NewRecord.row_length r' = 4 /\ NewRecord.num_cols r' = Ok 0 /\
  length (NewRecord.row r') = length (NewRecord.row r).
Proof.
  unfold NewRecord.clear. intros H. inv_bind H. injection H as <-.
  unfold NewRecord.set_num_cols in E. inv_bind E. injection E as <-.
  unfold NewRecord.num_cols. cbn [NewRecord.row NewRecord.row_length].
  repeat split.
  - apply load32_store32_same in E0. exact E0.
  - apply length_store in E0. exact E0.
Qed.

(** [add_attr] leaves one more column. *)
Lemma add_attr_num_cols (ty : byte) (len : Z) (value : list byte)
    (r r' : NewRecord.t) (n : Z) :
  NewRecord.add_attr ty len value r = Ok r' ->
  4 <= NewRecord.row_length r ->
  NewRecord.num_cols r = Ok n ->
  NewRecord.num_cols r' = Ok (U32.wrap (n + 1)) /\
  NewRecord.row_length r' = NewRecord.row_length r + 5 + len /\
  0 <= len.
Proof.
  unfold NewRecord.add_attr, NewRecord.num_cols. intros H Hlen Hn.
  inv_bind H. injection H as <-. cbn [NewRecord.row NewRecord.row_length].
  assert (Hz : a3 = n).
  { rewrite (load32_store_other _ _ _ _ _ E2) in E3
      by (left; lia).
    unfold store32 in E1.
    rewrite (load32_store_other _ _ _ _ _ E1) in E3
      by (left; lia).
    rewrite (load32_store_other _ _ _ _ _ E0) in E3
      by (left; lia).
    congruence. }
  subst a3. split; [|split].
  - apply load32_store32_same in E4. rewrite E4. f_equal.
    unfold U32.incr, U32.wrap. rewrite Z.mod_mod by (unfold U32.modulus; lia).
    reflexivity.
  - reflexivity.
  - apply load_inv in E. lia.
Qed.

(** [append] adds the other row's columns. *)
Lemma append_num_cols (other r r' : NewRecord.t) (n n' : Z) :
  NewRecord.append other r = Ok r' ->
  4 <= NewRecord.row_length r ->
  NewRecord.num_cols r = Ok n ->
  NewRecord.num_cols other = Ok n' ->
  NewRecord.num_cols r' = Ok (U32.wrap (n + n')).
Proof.
  unfold NewRecord.append. intros H Hlen Hn Hn'.
  inv_bind H. injection H as <-. unfold NewRecord.num_cols in *.
  cbn [NewRecord.row].
  rewrite (load32_store_other _ _ _ _ _ E0) in E1 by (left; lia).
  apply load32_store32_same in E3. rewrite E3. f_equal.
  unfold U32.add, U32.wrap. rewrite Z.mod_mod by (unfold U32.modulus; lia).
  congruence.
Qed.

(** After [set(is_primary, record)] the join row reports the column count
    of the record it wraps. *)
Lemma join_set_num_cols (is_primary : bool) (record : NewRecord.t)
    (j j' : NewJoinRecord.t) (n : Z) :
  NewJoinRecord.set is_primary record j = Ok j' ->
  NewRecord.num_cols record = Ok n ->
  NewJoinRecord.num_cols j' = Ok n.
Proof.
  unfold NewJoinRecord.set. intros H Hn. inv_bind H. injection H as <-.
  apply clear_inv in E. destruct E as (c1 & c2 & c3).
  eapply add_attr_num_cols in E0; [|lia|exact c2].
  destruct E0 as (d1 & d2 & d3).
  eapply append_num_cols in E1; [|lia|exact d1|exact Hn].
  unfold NewJoinRecord.num_cols. cbn [NewJoinRecord.row].
  rewrite E1. cbn [bind]. f_equal.
  apply load32_range in Hn. unfold U32.modulus in Hn.
  unfold U32.sub, U32.wrap, U32.modulus.
  rewrite Z.add_0_l.
  rewrite (Z.mod_small 1) by lia.
  rewrite Zminus_mod_idemp_l.
  replace (1 + n - 1) with n by lia.
  apply Z.mod_small. lia.
Qed.

(** C10. After [reset_to_dummy()] a join row is a dummy, yet [num_cols()]
    is [0 - 1] on [uint32_t], that is 4294967295 and not 0; in general
    [num_cols()] is the row's column count less the table tag exactly when
    the row has a column, and 4294967295 when it has none. *)
Theorem join_num_cols_wraps_after_reset (j : NewJoinRecord.t) :
  4 <= Z.of_nat (length (NewRecord.row (NewJoinRecord.row j))) ->
  (exists j', NewJoinRecord.reset_to_dummy j = Ok j' /\
              NewJoinRecord.is_dummy j' = Ok true /\
              NewJoinRecord.num_cols j' = Ok 4294967295 /\
              NewJoinRecord.num_cols j' <> Ok 0) /\
  (forall n, NewRecord.num_cols (NewJoinRecord.row j) = Ok n ->
             NewJoinRecord.num_cols j =
               Ok (if n =? 0 then 4294967295 else n - 1) /\
             (NewJoinRecord.num_cols j = Ok (n - 1) <-> n <> 0)).
Proof.
  intros Hcap. split.
  - destruct (clear_ok _ Hcap) as (m & Hclear & Hload & _).
    exists (NewJoinRecord.mk (NewRecord.mk m 4) (NewJoinRecord.join_attr j)).
    unfold NewJoinRecord.reset_to_dummy, NewJoinRecord.is_dummy,
      NewJoinRecord.num_cols, NewRecord.num_cols.
    rewrite Hclear. cbn [bind NewJoinRecord.row NewRecord.row].
    rewrite Hload. cbn [bind]. repeat split; discriminate.
  - intros n Hn. unfold NewJoinRecord.num_cols. rewrite Hn. cbn [bind].
    apply load32_range in Hn. unfold U32.modulus in Hn.
    assert (Hsub : U32.sub n 1 = if n =? 0 then 4294967295 else n - 1).
    { unfold U32.sub, U32.wrap, U32.modulus.
      destruct (n =? 0) eqn:E.
      - apply Z.eqb_eq in E. subst n. reflexivity.
      - apply Z.eqb_neq in E. apply Z.mod_small. lia. }
    rewrite Hsub. split; [reflexivity|].
    destruct (n =? 0) eqn:E.
    + apply Z.eqb_eq in E. subst n. split; [discriminate|congruence].
    + apply Z.eqb_neq in E. tauto.
Qed.

End RecordFacts.

(** ** Attributes *)

Lemma decode_injective (a b : list byte) :
  length a = 4%nat -> length b = 4%nat ->
  Forall is_byte a -> Forall is_byte b ->
  U32.decode a = U32.decode b -> a = b.
Proof.
  intros La Lb Ha Hb H.
  destruct a as [|a0 [|a1 [|a2 [|a3 [|]]]]]; try discriminate.
  destruct b as [|b0 [|b1 [|b2 [|b3 [|]]]]]; try discriminate.
  repeat match goal with
         | F : Forall _ (_ :: _) |- _ => inversion F; subst; clear F
         end.
  unfold is_byte in *. unfold U32.decode in H. cbn [nth] in H.
  rewrite !Z.mod_small in H by lia.
  assert (a0 = b0) by lia. assert (a1 = b1) by lia.
  assert (a2 = b2) by lia. assert (a3 = b3) by lia.
  congruence.
Qed.

(** The parts of an attribute, as [attrs_equal] reads them. *)
Lemma attr_bytes_parts (mem : list byte) (a : Z) (x : list byte) :
  attr_bytes mem a = Ok x ->
  exists ty lc v,
    x = ty :: lc ++ v /\ length lc = 4%nat /\
    load8 a mem = Ok ty /\
    load32 (a + 1) mem = Ok (U32.decode lc) /\
    load (a + 5) (U32.decode lc) mem = Ok v.
Proof.
  unfold attr_bytes. intros H. inv_bind H.
  pose proof (load32_range _ _ _ E) as Hr. unfold U32.modulus in Hr.
  pose proof (load_prefix _ _ 1 _ _ H ltac:(lia)) as L1.
  pose proof (load_suffix _ _ 1 _ _ H ltac:(lia)) as L2.
  replace (5 + a0 - 1) with (4 + a0) in L2 by lia.
  pose proof (load_prefix _ _ 4 _ _ L2 ltac:(lia)) as L3.
  pose proof (load_suffix _ _ 4 _ _ L2 ltac:(lia)) as L4.
  replace (a + 1 + 4) with (a + 5) in L4 by lia.
  replace (4 + a0 - 4) with a0 in L4 by lia.
  pose proof (length_load _ _ _ _ H) as Hx.
  pose proof (length_load _ _ _ _ L1) as Hx1.
  pose proof (length_load _ _ _ _ L3) as Hx3.
  destruct x as [|ty x']; [cbn [length] in Hx; lia|].
  change (Z.to_nat 1) with 1%nat in *. cbn [firstn skipn] in *.
  exists ty, (firstn (Z.to_nat 4) x'), (skipn (Z.to_nat 4) x').
  assert (Hd : U32.decode (firstn (Z.to_nat 4) x') = a0).
  { unfold load32 in E. rewrite L3 in E. cbn [bind] in E. congruence. }
  rewrite Hd. repeat split.
  - rewrite firstn_skipn. reflexivity.
  - cbn [length] in Hx. lia.
  - unfold load8. rewrite L1. reflexivity.
  - exact L4.
Qed.

(** On genuine bytes [attrs_equal] decides the equality of the two
    [[type][len][value]] triples. *)
Lemma attrs_equal_spec (ma mb : list byte) (a b : Z) (x y : list byte) :
  attr_bytes ma a = Ok x -> attr_bytes mb b = Ok y ->
  Forall is_byte x -> Forall is_byte y ->
  attrs_equal ma a mb b = Ok (bytes_eqb x y).
Proof.
  intros Hx Hy Fx Fy.
  destruct (attr_bytes_parts _ _ _ Hx) as (tx & lx & vx & -> & Llx & Tx & Nx & Vx).
  destruct (attr_bytes_parts _ _ _ Hy) as (ty & ly & vy & -> & Lly & Ty & Ny & Vy).
  unfold attrs_equal. rewrite Tx, Ty, Nx, Ny. cbn [bind].
  inversion Fx as [|? ? _ Fx']; subst. inversion Fy as [|? ? _ Fy']; subst.
  apply Forall_app in Fx'. apply Forall_app in Fy'.
  destruct ((tx =? ty) && (U32.decode lx =? U32.decode ly)) eqn:E.
  - apply andb_true_iff in E. destruct E as [E1 E2].
    apply Z.eqb_eq in E1. apply Z.eqb_eq in E2.
    apply decode_injective in E2; try tauto. subst ty ly.
    rewrite Vx, Vy. cbn [bind]. f_equal.
    destruct (bytes_eqb vx vy) eqn:Ev.
    + apply bytes_eqb_eq in Ev. subst vy. symmetry.
      apply bytes_eqb_eq. reflexivity.
    + symmetry. destruct (bytes_eqb (tx :: lx ++ vx) (tx :: lx ++ vy)) eqn:Ew;
        [|reflexivity].
      apply bytes_eqb_eq in Ew. injection Ew as Ew.
      apply app_inv_head in Ew. subst vy.
      assert (bytes_eqb vx vx = true) by (apply bytes_eqb_eq; reflexivity).
      congruence.
  - f_equal. symmetry.
    destruct (bytes_eqb (tx :: lx ++ vx) (ty :: ly ++ vy)) eqn:Ew;
      [|reflexivity].
    apply bytes_eqb_eq in Ew. injection Ew as E1 E2.
    apply (f_equal (firstn 4)) in E2.
    rewrite !firstn_app, Llx, Lly, Nat.sub_diag, !firstn_O, !app_nil_r in E2.
    rewrite <- Llx in E2 at 1. rewrite <- Lly in E2 at 1.
    rewrite !firstn_all in E2. subst ty ly.
    rewrite !Z.eqb_refl in E. discriminate.
Qed.

(** ** Group-by keys *)

Section GroupByFacts.
  Context {lim : Limits} {types : TypeTable}.

Lemma record_set_logical (other r r' : NewRecord.t) :
  NewRecord.set other r = Ok r' ->
  NewRecord.logical r' = NewRecord.logical other /\
  NewRecord.row_length r' = NewRecord.row_length other.
Proof.
  unfold NewRecord.set, NewRecord.logical. intros H. inv_bind H.
  injection H as <-. cbn [NewRecord.row NewRecord.row_length].
  split; [|reflexivity].
  apply load_store_same in E0.
  rewrite (length_load _ _ _ _ E) in E0. exact E0.
Qed.

Lemma bind_attr_empty (Column : Z) (r : NewRecord.t) (a : option Z) :
  GroupBy.bind_attr Column r = Ok a ->
  NewRecord.num_cols r = Ok 0 -> a = None.
Proof.
  unfold GroupBy.bind_attr. intros H Hn. rewrite Hn in H.
  cbn in H. congruence.
Qed.

Lemma bind_attrs_empty (Column1 Column2 : Z) (r : NewRecord.t)
    (a : option Z * option Z) :
  GroupBy2.bind_attrs Column1 Column2 r = Ok a ->
  NewRecord.num_cols r = Ok 0 -> a = (None, None).
Proof.
  unfold GroupBy2.bind_attrs. intros H Hn. rewrite Hn in H.
  cbn in H. congruence.
Qed.

#[export, refine] Instance GroupBy_laws (Column : Z)
  : GroupByLaws GroupBy.t (GB := GroupBy_type Column) := {
  gb_wf := GroupBy.wf
}.
Proof.
  - intros _. reflexivity.
  - cbn. unfold GroupBy.of_record. intros record g H. inv_bind H.
    injection H as <-. intros Hn. cbn in *.
    eapply bind_attr_empty; eauto.
  - cbn. unfold GroupBy.set. intros other g g' H. inv_bind H.
    injection H as <-. intros Hn. cbn in *.
    eapply bind_attr_empty; eauto.
  - cbn. unfold gb_is_empty. cbn. intros g other Hwf He.
    unfold GroupBy.equals. rewrite (Hwf He). reflexivity.
  - cbn. unfold GroupBy.of_record. intros record g H. inv_bind H.
    injection H as <-. cbn. eapply record_set_logical; eauto.
  - cbn. unfold GroupBy.set. intros other g g' H. inv_bind H.
    injection H as <-. cbn. eapply record_set_logical; eauto.
Qed.

#[export, refine] Instance GroupBy2_laws (Column1 Column2 : Z)
  : GroupByLaws GroupBy2.t (GB := GroupBy2_type Column1 Column2) := {
  gb_wf := GroupBy2.wf
}.
Proof.
  - intros _. split; reflexivity.
  - cbn. unfold GroupBy2.of_record. intros record g H. inv_bind H.
    injection H as <-. intros Hn. cbn in *.
    erewrite (bind_attrs_empty _ _ _ _ E0); eauto.
  - cbn. unfold GroupBy2.set. intros other g g' H. inv_bind H.
    injection H as <-. intros Hn. cbn in *.
    erewrite (bind_attrs_empty _ _ _ _ E0); eauto.
  - cbn. unfold gb_is_empty. cbn. intros g other Hwf He.
    unfold GroupBy2.equals. destruct (Hwf He) as [-> _]. reflexivity.
  - cbn. unfold GroupBy2.of_record. intros record g H. inv_bind H.
    injection H as <-. cbn. eapply record_set_logical; eauto.
  - cbn. unfold GroupBy2.set. intros other g g' H. inv_bind H.
    injection H as <-. cbn. eapply record_set_logical; eauto.
Qed.

(** Two keys that both track a group are equal when the attributes they
    point to are, byte for byte. *)
Lemma GroupBy_equals_spec (g other : GroupBy.t) (a b : Z) (x y : list byte) :
  GroupBy.attr g = Some a -> GroupBy.attr other = Some b ->
  attr_bytes (NewRecord.row (GroupBy.row g)) a = Ok x ->
  attr_bytes (NewRecord.row (GroupBy.row other)) b = Ok y ->
  Forall is_byte x -> Forall is_byte y ->
  GroupBy.equals g other = Ok (bytes_eqb x y).
Proof.
  intros Ha Hb Hx Hy Fx Fy. unfold GroupBy.equals. rewrite Ha, Hb.
  apply attrs_equal_spec; assumption.
Qed.

(** A key that tracks no group equals no key, and no key equals it. *)
Lemma GroupBy_equals_null (g other : GroupBy.t) :
  GroupBy.attr g = None \/ GroupBy.attr other = None ->
  GroupBy.equals g other = Ok false.
Proof.
  unfold GroupBy.equals. intros [-> | ->]; [reflexivity|].
  destruct (GroupBy.attr g); reflexivity.
Qed.

End GroupByFacts.

(** ** What [equals] decides *)

Section KeyFacts.
  Context {lim : Limits} {types : TypeTable}.

Lemma keys_eqb_refl (k : list (list byte)) :
  k <> [] -> keys_eqb k k = true.
Proof.
  intros H. unfold keys_eqb. destruct k as [|x k]; [congruence|].
  destruct (list_eq_dec (list_eq_dec Z.eq_dec) (x :: k) (x :: k));
    [reflexivity|congruence].
Qed.

Lemma keys_eqb_differ (k k' : list (list byte)) :
  k = [] \/ k <> k' -> keys_eqb k k' = false.
Proof.
  intros H. unfold keys_eqb. destruct k as [|x k]; [reflexivity|].
  destruct (list_eq_dec (list_eq_dec Z.eq_dec) (x :: k) k'); [|reflexivity].
  destruct H; congruence.
Qed.

Lemma keys_eqb_one (x y : list byte) :
  keys_eqb [x] [y] = bytes_eqb x y.
Proof.
  unfold keys_eqb, bytes_eqb.
  destruct (list_eq_dec (list_eq_dec Z.eq_dec) [x] [y]) as [E|E];
    destruct (list_eq_dec Z.eq_dec x y) as [F|F]; congruence.
Qed.

Lemma keys_eqb_two (x1 x2 y1 y2 : list byte) :
  keys_eqb [x1; x2] [y1; y2] = bytes_eqb x1 y1 && bytes_eqb x2 y2.
Proof.
  unfold keys_eqb, bytes_eqb.
  destruct (list_eq_dec (list_eq_dec Z.eq_dec) [x1; x2] [y1; y2]) as [E|E];
    destruct (list_eq_dec Z.eq_dec x1 y1) as [F|F];
    destruct (list_eq_dec Z.eq_dec x2 y2) as [H|H]; cbn; congruence.
Qed.

(** [GroupBy::equals] compares the attribute the two keys point to, byte
    for byte, and is false as soon as one of them tracks no group. *)
#[export] Instance GroupBy_key_laws (Column : Z)
  : GroupByKeyLaws GroupBy.t (GB := GroupBy_type Column).
Proof.
  constructor. intros g other k k' Hk Hk' Fk Fk'.
  cbn [gb_equals GroupBy_type gb_key GroupBy_key] in *.
  unfold GroupBy.equals.
  destruct (GroupBy.attr g) as [a|].
  - destruct (attr_bytes (NewRecord.row (GroupBy.row g)) a) as [x|] eqn:Ex;
      [|discriminate].
    cbn [bind] in Hk. injection Hk as <-.
    destruct (GroupBy.attr other) as [b|].
    + destruct (attr_bytes (NewRecord.row (GroupBy.row other)) b)
        as [y|] eqn:Ey; [|discriminate].
      cbn [bind] in Hk'. injection Hk' as <-.
      inversion Fk; subst. inversion Fk'; subst.
      rewrite keys_eqb_one.
      apply attrs_equal_spec; assumption.
    + injection Hk' as <-. reflexivity.
  - injection Hk as <-. reflexivity.
Qed.

(** [GroupBy2::equals] compares both attributes, and is false as soon as
    one of the four pointers is NULL. *)
#[export] Instance GroupBy2_key_laws (Column1 Column2 : Z)
  : GroupByKeyLaws GroupBy2.t (GB := GroupBy2_type Column1 Column2).
Proof.
  constructor. intros g other k k' Hk Hk' Fk Fk'.
  cbn [gb_equals GroupBy2_type gb_key GroupBy2_key] in *.
  unfold GroupBy2.equals.
  destruct (GroupBy2.attr1 g) as [a1|];
    [|injection Hk as <-; reflexivity].
  destruct (GroupBy2.attr2 g) as [a2|].
  2:{ injection Hk as <-. destruct (GroupBy2.attr1 other); reflexivity. }
  destruct (attr_bytes (NewRecord.row (GroupBy2.row g)) a1) as [x1|] eqn:Ex1;
    [|discriminate].
  cbn [bind] in Hk.
  destruct (attr_bytes (NewRecord.row (GroupBy2.row g)) a2) as [x2|] eqn:Ex2;
    [|discriminate].
  cbn [bind] in Hk. injection Hk as <-.
  destruct (GroupBy2.attr1 other) as [b1|];
    [|injection Hk' as <-; reflexivity].
  destruct (GroupBy2.attr2 other) as [b2|];
    [|injection Hk' as <-; reflexivity].
  destruct (attr_bytes (NewRecord.row (GroupBy2.row other)) b1)
    as [y1|] eqn:Ey1; [|discriminate].
  cbn [bind] in Hk'.
  destruct (attr_bytes (NewRecord.row (GroupBy2.row other)) b2)
    as [y2|] eqn:Ey2; [|discriminate].
  cbn [bind] in Hk'. injection Hk' as <-.
  inversion Fk as [|? ? F1 Fk2]; subst. inversion Fk2 as [|? ? F2 _]; subst.
  inversion Fk' as [|? ? F1' Fk2']; subst.
  inversion Fk2' as [|? ? F2' _]; subst.
  rewrite keys_eqb_two.
  rewrite (attrs_equal_spec _ _ _ _ _ _ Ex1 Ey1 F1 F1'). cbn [bind].
  destruct (bytes_eqb x1 y1); [|reflexivity].
  rewrite (attrs_equal_spec _ _ _ _ _ _ Ex2 Ey2 F2 F2'). reflexivity.
Qed.

End KeyFacts.

(** ** Aggregators *)

Section AggregatorFacts.
  Context {lim : Limits} {types : TypeTable}.

(** The two branches of [Aggregator1::aggregate] on a record, whatever
    the record. *)
Lemma aggregate1_cases {G A1 : Type} {GB : GroupByType G} {AG1 : AggType A1}
    (record : NewRecord.t) (s : Aggregator1.t G A1) (g2 : G) (eq : bool) :
  gb_of_record record = Ok g2 ->
  gb_equals (Aggregator1.g s) g2 = Ok eq ->
  (eq = false ->
   forall g' x1,
     gb_set g2 (Aggregator1.g s) = Ok g' ->
     agg_add_record record (agg_zero (Aggregator1.a1 s)) = Ok x1 ->
     Aggregator1.aggregate record s =
       Ok (Aggregator1.mk (U32.incr (Aggregator1.num_distinct s))
             (Aggregator1.offset s) g' x1)) /\
  (eq = true ->
   forall x1,
     agg_add_record record (Aggregator1.a1 s) = Ok x1 ->
     Aggregator1.aggregate record s =
       Ok (Aggregator1.mk (Aggregator1.num_distinct s)
             (Aggregator1.offset s) (Aggregator1.g s) x1)).
Proof.
  intros Hg He. unfold Aggregator1.aggregate. rewrite Hg. cbn [bind].
  rewrite He. cbn [bind]. split.
  - intros -> g' x1 Hs Ha. rewrite Hs. cbn [bind]. rewrite Ha. reflexivity.
  - intros -> x1 Ha. rewrite Ha. reflexivity.
Qed.

Lemma aggregate2_cases {G A1 A2 : Type} {GB : GroupByType G}
    {AG1 : AggType A1} {AG2 : AggType A2}
    (record : NewRecord.t) (s : Aggregator2.t G A1 A2) (g2 : G) (eq : bool) :
  gb_of_record record = Ok g2 ->
  gb_equals (Aggregator2.g s) g2 = Ok eq ->
  (eq = false ->
   forall g' x1 x2,
     gb_set g2 (Aggregator2.g s) = Ok g' ->
     agg_add_record record (agg_zero (Aggregator2.a1 s)) = Ok x1 ->
     agg_add_record record (agg_zero (Aggregator2.a2 s)) = Ok x2 ->
     Aggregator2.aggregate record s =
       Ok (Aggregator2.mk (U32.incr (Aggregator2.num_distinct s))
             (Aggregator2.offset s) g' x1 x2)) /\
  (eq = true ->
   forall x1 x2,
     agg_add_record record (Aggregator2.a1 s) = Ok x1 ->
     agg_add_record record (Aggregator2.a2 s) = Ok x2 ->
     Aggregator2.aggregate record s =
       Ok (Aggregator2.mk (Aggregator2.num_distinct s)
             (Aggregator2.offset s) (Aggregator2.g s) x1 x2)).
Proof.
  intros Hg He. unfold Aggregator2.aggregate. rewrite Hg. cbn [bind].
  rewrite He. cbn [bind]. split.
  - intros -> g' x1 x2 Hs H1 H2. rewrite Hs. cbn [bind].
    rewrite H1. cbn [bind]. rewrite H2. reflexivity.
  - intros -> x1 x2 H1 H2. rewrite H1. cbn [bind]. rewrite H2. reflexivity.
Qed.

(** An aggregator in the [EMPTY] state finds no record in its group. *)
Lemma empty_group_not_equal {G : Type} {GB : GroupByType G}
    {GL : GroupByLaws G} (g g2 : G) (eq : bool) :
  gb_wf g -> gb_equals g g2 = Ok eq ->
  gb_is_empty g \/ eq = false -> eq = false.
Proof.
  intros Hwf He [Hempty | ->]; [|reflexivity].
  rewrite (gb_empty_equals g g2 Hwf Hempty) in He. congruence.
Qed.

(** The invariant of the group-by key holds in every state an aggregator
    reaches. *)
Lemma aggregate1_wf {G A1 : Type} {GB : GroupByType G} {GL : GroupByLaws G}
    {AG1 : AggType A1} (record : NewRecord.t) (s s' : Aggregator1.t G A1) :
  gb_wf (Aggregator1.g s) -> Aggregator1.aggregate record s = Ok s' ->
  gb_wf (Aggregator1.g s').
Proof.
  intros Hwf H. unfold Aggregator1.aggregate in H. inv_bind H.
  destruct a0; inv_bind H; injection H as <-; cbn.
  - exact Hwf.
  - eapply gb_wf_set; eauto.
Qed.

Lemma aggregate2_wf {G A1 A2 : Type} {GB : GroupByType G}
    {GL : GroupByLaws G} {AG1 : AggType A1} {AG2 : AggType A2}
    (record : NewRecord.t) (s s' : Aggregator2.t G A1 A2) :
  gb_wf (Aggregator2.g s) -> Aggregator2.aggregate record s = Ok s' ->
  gb_wf (Aggregator2.g s').
Proof.
  intros Hwf H. unfold Aggregator2.aggregate in H. inv_bind H.
  destruct a0; inv_bind H; injection H as <-; cbn.
  - exact Hwf.
  - eapply gb_wf_set; eauto.
Qed.

Lemma aggregate1_all_wf {G A1 : Type} {GB : GroupByType G}
    {GL : GroupByLaws G} {AG1 : AggType A1} (records : list NewRecord.t) :
  forall s s' : Aggregator1.t G A1,
    gb_wf (Aggregator1.g s) -> aggregate1_all records s = Ok s' ->
    gb_wf (Aggregator1.g s').
Proof.
  induction records as [|record records IH]; intros s s' Hwf H.
  - injection H as <-. exact Hwf.
  - cbn [aggregate1_all] in H.
    destruct (Aggregator1.aggregate record s) as [s1|] eqn:E; [|discriminate].
    cbn [bind] in H. apply (IH s1 s'); [|exact H].
    exact (aggregate1_wf record s s1 Hwf E).
Qed.

Lemma aggregate2_all_wf {G A1 A2 : Type} {GB : GroupByType G}
    {GL : GroupByLaws G} {AG1 : AggType A1} {AG2 : AggType A2}
    (records : list NewRecord.t) :
  forall s s' : Aggregator2.t G A1 A2,
    gb_wf (Aggregator2.g s) -> aggregate2_all records s = Ok s' ->
    gb_wf (Aggregator2.g s').
Proof.
  induction records as [|record records IH]; intros s s' Hwf H.
  - injection H as <-. exact Hwf.
  - cbn [aggregate2_all] in H.
    destruct (Aggregator2.aggregate record s) as [s1|] eqn:E; [|discriminate].
    cbn [bind] in H. apply (IH s1 s'); [|exact H].
    exact (aggregate2_wf record s s1 Hwf E).
Qed.

(** A decidable check that the attributes of a key are bytes. *)
Lemma key_bytes_check (k : list (list byte)) :
  forallb (forallb (fun b => (0 <=? b) && (b <? 256))) k = true ->
  Forall (Forall is_byte) k.
Proof.
  intros H. apply Forall_forall. intros x Hx. apply Forall_forall.
  intros b Hb. rewrite forallb_forall in H. specialize (H x Hx).
  rewrite forallb_forall in H. specialize (H b Hb).
  apply andb_true_iff in H. destruct H as [H1 H2].
  apply Z.leb_le in H1. apply Z.ltb_lt in H2. unfold is_byte. lia.
Qed.

(** The outcome of [equals] on the current group and a record's key, read
    off the grouping attributes of the two. *)
Lemma group_test_differ {G : Type} {GB : GroupByType G} {GL : GroupByLaws G}
    {GK : GroupByKey G} {KL : GroupByKeyLaws G}
    (g g2 : G) (k k2 : list (list byte)) :
  gb_wf g ->
  gb_key g = Ok k -> gb_key g2 = Ok k2 ->
  Forall (Forall is_byte) k -> Forall (Forall is_byte) k2 ->
  gb_is_empty g \/ k = [] \/ k <> k2 ->
  gb_equals g g2 = Ok false.
Proof.
  intros Hwf Hk Hk2 Fk Fk2 [Hempty | Hd].
  - apply gb_empty_equals; assumption.
  - rewrite (gb_equals_keys g g2 k k2 Hk Hk2 Fk Fk2).
    rewrite keys_eqb_differ by exact Hd. reflexivity.
Qed.

Lemma group_test_same {G : Type} {GB : GroupByType G}
    {GK : GroupByKey G} {KL : GroupByKeyLaws G}
    (g g2 : G) (k k2 : list (list byte)) :
  gb_key g = Ok k -> gb_key g2 = Ok k2 ->
  Forall (Forall is_byte) k -> Forall (Forall is_byte) k2 ->
  k <> [] /\ k = k2 ->
  gb_equals g g2 = Ok true.
Proof.
  intros Hk Hk2 Fk Fk2 [Hne <-].
  rewrite (gb_equals_keys g g2 k k Hk Hk2 Fk Fk2).
  rewrite keys_eqb_refl by exact Hne. reflexivity.
Qed.

(** C6. For a record that is not a dummy, whose grouping attributes are
    the bytes [k2] of the key built from it, and an aggregator whose
    current group has the grouping attributes [k]: when the aggregator is
    empty, tracks no group, or [k] differs from [k2], [aggregate] adds one
    to [num_distinct], makes the record's row the group row, zeroes every
    aggregation state and adds the record into each; when [k] is a group
    and equals [k2], it keeps [num_distinct] and the group and only adds
    the record into each state.  For [Aggregator1] and for [Aggregator2],
    over any group-by type whose [equals] compares the grouping attributes,
    as those of [GroupBy] and [GroupBy2] do. *)
Theorem aggregate_record_transition
    {G A1 A2 : Type} {GB : GroupByType G} {GL : GroupByLaws G}
    {GK : GroupByKey G} {KL : GroupByKeyLaws G}
    {AG1 : AggType A1} {AG2 : AggType A2}
    (record : NewRecord.t) (g2 : G) (k2 : list (list byte)) :
  NewRecord.is_dummy record = Ok false ->
  gb_of_record record = Ok g2 ->
  gb_key g2 = Ok k2 ->
  Forall (Forall is_byte) k2 ->
  (forall (s : Aggregator1.t G A1) (k : list (list byte)),
     gb_wf (Aggregator1.g s) ->
     gb_key (Aggregator1.g s) = Ok k ->
     Forall (Forall is_byte) k ->
     (gb_is_empty (Aggregator1.g s) \/ k = [] \/ k <> k2 ->
      forall g' x1,
        gb_set g2 (Aggregator1.g s) = Ok g' ->
        agg_add_record record (agg_zero (Aggregator1.a1 s)) = Ok x1 ->
        Aggregator1.aggregate record s =
          Ok (Aggregator1.mk (U32.incr (Aggregator1.num_distinct s))
                (Aggregator1.offset s) g' x1) /\
        NewRecord.logical (gb_row g') = NewRecord.logical record) /\
     (k <> [] /\ k = k2 ->
      forall x1,
        agg_add_record record (Aggregator1.a1 s) = Ok x1 ->
        Aggregator1.aggregate record s =
          Ok (Aggregator1.mk (Aggregator1.num_distinct s)
                (Aggregator1.offset s) (Aggregator1.g s) x1))) /\
  (forall (s : Aggregator2.t G A1 A2) (k : list (list byte)),
     gb_wf (Aggregator2.g s) ->
     gb_key (Aggregator2.g s) = Ok k ->
     Forall (Forall is_byte) k ->
     (gb_is_empty (Aggregator2.g s) \/ k = [] \/ k <> k2 ->
      forall g' x1 x2,
        gb_set g2 (Aggregator2.g s) = Ok g' ->
        agg_add_record record (agg_zero (Aggregator2.a1 s)) = Ok x1 ->
        agg_add_record record (agg_zero (Aggregator2.a2 s)) = Ok x2 ->
        Aggregator2.aggregate record s =
          Ok (Aggregator2.mk (U32.incr (Aggregator2.num_distinct s))
                (Aggregator2.offset s) g' x1 x2) /\
        NewRecord.logical (gb_row g') = NewRecord.logical record) /\
     (k <> [] /\ k = k2 ->
      forall x1 x2,
        agg_add_record record (Aggregator2.a1 s) = Ok x1 ->
        agg_add_record record (Aggregator2.a2 s) = Ok x2 ->
        Aggregator2.aggregate record s =
          Ok (Aggregator2.mk (Aggregator2.num_distinct s)
                (Aggregator2.offset s) (Aggregator2.g s) x1 x2))).
Proof.
  intros _ Hg Hk2 Fk2. split.
  - intros s k Hwf Hk Fk. split.
    + intros Hc g' x1 Hs Ha.
      pose proof (group_test_differ _ _ _ _ Hwf Hk Hk2 Fk Fk2 Hc) as He.
      split.
      * apply (proj1 (aggregate1_cases record s g2 false Hg He));
          [reflexivity | assumption | assumption].
      * rewrite (gb_set_row _ _ _ Hs). apply gb_of_record_row, Hg.
    + intros Hc x1 Ha.
      pose proof (group_test_same _ _ _ _ Hk Hk2 Fk Fk2 Hc) as He.
      apply (proj2 (aggregate1_cases record s g2 true Hg He));
        [reflexivity | assumption].
  - intros s k Hwf Hk Fk. split.
    + intros Hc g' x1 x2 Hs H1 H2.
      pose proof (group_test_differ _ _ _ _ Hwf Hk Hk2 Fk Fk2 Hc) as He.
      split.
      * apply (proj1 (aggregate2_cases record s g2 false Hg He));
          [reflexivity | assumption | assumption | assumption].
      * rewrite (gb_set_row _ _ _ Hs). apply gb_of_record_row, Hg.
    + intros Hc x1 x2 H1 H2.
      pose proof (group_test_same _ _ _ _ Hk Hk2 Fk Fk2 Hc) as He.
      apply (proj2 (aggregate2_cases record s g2 true Hg He));
        [reflexivity | assumption | assumption].
Qed.


(** C7. Combining two aggregators fails with a grouping mismatch when
    [grouping_attrs_equal(other)] is false; when it is true the combination
    succeeds, adds each of [other]'s partial states into the corresponding
    state, and leaves [num_distinct] and the group as they were.  For
    [Aggregator1] and for [Aggregator2]. *)
Theorem aggregate_other_requires_same_group
    {G A1 A2 : Type} {GB : GroupByType G}
    {AG1 : AggType A1} {AG2 : AggType A2} :
  (forall other s : Aggregator1.t G A1,
     Aggregator1.aggregate_other other s =
       match Aggregator1.grouping_attrs_equal other s with
       | Ok true =>
           Ok (Aggregator1.mk (Aggregator1.num_distinct s)
                 (Aggregator1.offset s) (Aggregator1.g s)
                 (agg_add (Aggregator1.a1 other) (Aggregator1.a1 s)))
       | Ok false => Err GroupingMismatch
       | Err e => Err e
       end) /\
  (forall other s : Aggregator2.t G A1 A2,
     Aggregator2.aggregate_other other s =
       match Aggregator2.grouping_attrs_equal other s with
       | Ok true =>
           Ok (Aggregator2.mk (Aggregator2.num_distinct s)
                 (Aggregator2.offset s) (Aggregator2.g s)
                 (agg_add (Aggregator2.a1 other) (Aggregator2.a1 s))
                 (agg_add (Aggregator2.a2 other) (Aggregator2.a2 s)))
       | Ok false => Err GroupingMismatch
       | Err e => Err e
       end).
Proof.
  split; intros other s.
  - unfold Aggregator1.aggregate_other.
    destruct (Aggregator1.grouping_attrs_equal other s) as [[|]|e];
      reflexivity.
  - unfold Aggregator2.aggregate_other.
    destruct (Aggregator2.grouping_attrs_equal other s) as [[|]|e];
      reflexivity.
Qed.

(** What "adding a partial state" is for [Sum] and [Avg] over
    [uint32_t]. *)
Lemma sum_add_value (other a : Sum.t Z) :
  Sum.sum (Sum.add other a) = U32.add (Sum.sum a) (Sum.sum other).
Proof. reflexivity. Qed.

Lemma avg_add_value (other a : Avg.t Z) :
  Avg.sum (Avg.add other a) = U32.add (Avg.sum a) (Avg.sum other) /\
  Avg.count (Avg.add other a) = U32.add (Avg.count a) (Avg.count other).
Proof. split; reflexivity. Qed.

End AggregatorFacts.

(** ** The streaming block writer *)

Section StreamWriterFacts.
  Context {lim : Limits} {types : TypeTable}.
  Context {suite : StreamSuite} {tasks : TaskIds}.

Lemma wrap_wrap (x : Z) : U32.wrap (U32.wrap x) = U32.wrap x.
Proof. unfold U32.wrap, U32.modulus. apply Z.mod_mod. lia. Qed.

Lemma wrap_add_l (x y : Z) : U32.wrap (U32.wrap x + y) = U32.wrap (x + y).
Proof. unfold U32.wrap. apply Zplus_mod_idemp_l. Qed.

Lemma incr_wrap (x : Z) : U32.incr (U32.wrap x) = U32.wrap (x + 1).
Proof.
  unfold U32.incr, U32.wrap, U32.modulus.
  rewrite Zplus_mod_idemp_l. reflexivity.
Qed.

(** With [block_len = 0] the guard of [maybe_finish_block] is false. *)
Lemma maybe_finish_block_idle (w : StreamRowWriter.t) :
  StreamRowWriter.block_len w = 0 ->
  StreamRowWriter.maybe_finish_block w = Ok w.
Proof.
  intros H. unfold StreamRowWriter.maybe_finish_block. rewrite H.
  destruct (Z.of_N MAX_BLOCK_SIZE <? 0) eqn:E; [|reflexivity].
  apply Z.ltb_lt in E. lia.
Qed.

Lemma finish_block_inv (w w' : StreamRowWriter.t) :
  StreamRowWriter.finish_block w = Ok w' ->
  StreamRowWriter.block_len w' = 0 /\
  StreamRowWriter.block_num_rows w' = 0 /\
  StreamCipher.out (StreamRowWriter.cipher w')
  = StreamRowWriter.buf_pos w' + 12 /\
  StreamRowWriter.buf_pos w'
  = StreamRowWriter.buf_pos w + 16
    + U32.wrap (Z.of_nat (length (stream_encrypt
         (StreamCipher.fed (StreamRowWriter.cipher w))))).
Proof.
  unfold StreamRowWriter.finish_block. intros H. inv_bind H.
  injection H as <-. cbn.
  unfold StreamCipher.finish in E. inv_bind E. injection E as <-.
  cbn. auto.
Qed.

(** No call changes [block_len], and the cipher stays pinned twelve bytes
    past [buf_pos]. *)
Lemma step_invariant (o : StreamRowWriter.op) (w w' : StreamRowWriter.t) :
  StreamRowWriter.step o w = Ok w' ->
  StreamRowWriter.block_len w = 0 /\
  StreamCipher.out (StreamRowWriter.cipher w)
  = StreamRowWriter.buf_pos w + 12 ->
  StreamRowWriter.block_len w' = 0 /\
  StreamCipher.out (StreamRowWriter.cipher w')
  = StreamRowWriter.buf_pos w' + 12.
Proof.
  intros H [Hlen Hout]. destruct o; cbn [StreamRowWriter.step] in H.
  - injection H as <-. cbn. auto.
  - injection H as <-. cbn. auto.
  - inv_bind H. injection H as <-.
    unfold StreamRowWriter.write in E.
    rewrite (maybe_finish_block_idle _ Hlen) in E. cbn [bind] in E.
    inv_bind E. injection E as <-.
    unfold StreamRowWriter.write_row in E0. inv_bind E0.
    injection E0 as <-. cbn. auto.
  - injection H as <-. cbn. auto.
  - apply finish_block_inv in H. tauto.
Qed.

Lemma run_invariant (ops : list StreamRowWriter.op)
    (w w' : StreamRowWriter.t) :
  StreamRowWriter.run ops w = Ok w' ->
  StreamRowWriter.block_len w = 0 /\
  StreamCipher.out (StreamRowWriter.cipher w)
  = StreamRowWriter.buf_pos w + 12 ->
  StreamRowWriter.block_len w' = 0 /\
  StreamCipher.out (StreamRowWriter.cipher w')
  = StreamRowWriter.buf_pos w' + 12.
Proof.
  revert w. induction ops as [|o ops IH]; intros w H Hinv.
  - injection H as <-. exact Hinv.
  - cbn [StreamRowWriter.run] in H. inv_bind H.
    eapply IH; [exact H|]. eapply step_invariant; eauto.
Qed.

Lemma write_idle (row : NewRecord.t) (bs : list byte)
    (w : StreamRowWriter.t) :
  StreamRowWriter.block_len w = 0 ->
  NewRecord.logical row = Ok bs ->
  StreamRowWriter.write row w =
    Ok (NewRecord.row_length row,
        StreamRowWriter.mk
          (StreamCipher.encrypt bs (StreamRowWriter.cipher w))
          (StreamRowWriter.mem w) (StreamRowWriter.buf_pos w)
          (U32.incr (StreamRowWriter.block_num_rows w)) 0
          (StreamRowWriter.opcode w) (StreamRowWriter.part w)).
Proof.
  intros Hlen Hbs. unfold StreamRowWriter.write.
  rewrite (maybe_finish_block_idle _ Hlen). cbn [bind].
  unfold StreamRowWriter.write_row. rewrite Hbs. cbn.
  rewrite Hlen. reflexivity.
Qed.

(** Writing rows, one after the other, emits nothing and feeds all of them
    to the one cipher. *)
Lemma write_rows_one_block (rows : list NewRecord.t)
    (w : StreamRowWriter.t) (k : Z) :
  StreamRowWriter.block_len w = 0 ->
  StreamRowWriter.block_num_rows w = U32.wrap k ->
  Forall (fun r => is_ok (NewRecord.logical r) = true) rows ->
  exists w' bss,
    StreamRowWriter.run (map StreamRowWriter.Write rows) w = Ok w' /\
    Forall2 (fun r bs => NewRecord.logical r = Ok bs) rows bss /\
    StreamRowWriter.block_len w' = 0 /\
    StreamRowWriter.buf_pos w' = StreamRowWriter.buf_pos w /\
    StreamRowWriter.mem w' = StreamRowWriter.mem w /\
    StreamRowWriter.block_num_rows w'
    = U32.wrap (k + Z.of_nat (length rows)) /\
    StreamCipher.out (StreamRowWriter.cipher w')
    = StreamCipher.out (StreamRowWriter.cipher w) /\
    StreamCipher.fed (StreamRowWriter.cipher w')
    = StreamCipher.fed (StreamRowWriter.cipher w) ++ concat bss.
Proof.
  intros Hlen Hk Hrows. revert w k Hlen Hk.
  induction Hrows as [|row rows Hrow Hrows IH]; intros w k Hlen Hk.
  - exists w, []. cbn. rewrite app_nil_r, Z.add_0_r.
    repeat split; auto.
  - destruct (NewRecord.logical row) as [bs|] eqn:Hbs; [|discriminate].
    pose proof (write_idle row bs w Hlen Hbs) as Hw.
    set (w1 := StreamRowWriter.mk
                 (StreamCipher.encrypt bs (StreamRowWriter.cipher w))
                 (StreamRowWriter.mem w) (StreamRowWriter.buf_pos w)
                 (U32.incr (StreamRowWriter.block_num_rows w)) 0
                 (StreamRowWriter.opcode w) (StreamRowWriter.part w)) in *.
    destruct (IH w1 (k + 1)) as (w' & bss & Hrun & Hall & h1 & h2 & h3 & h4 & h5 & h6).
    + reflexivity.
    + cbn. rewrite Hk. apply incr_wrap.
    + exists w', (bs :: bss).
      cbn [map StreamRowWriter.run StreamRowWriter.step].
      rewrite Hw. cbn [bind snd]. rewrite Hrun.
      repeat split; auto.
      * rewrite h4. f_equal. cbn [length]. lia.
      * rewrite h6. cbn. rewrite <- app_assoc. reflexivity.
Qed.

(** The header [finish_block] leaves at [buf_pos], and where the
    ciphertext lies: the cipher wrote it from [buf_pos + 12] on, so the
    [task_id] field covers its first four bytes and offset 16 holds its
    fifth byte. *)
Lemma finish_block_layout (w w' : StreamRowWriter.t) :
  StreamRowWriter.finish_block w = Ok w' ->
  StreamCipher.out (StreamRowWriter.cipher w)
  = StreamRowWriter.buf_pos w + 12 ->
  let ct := stream_encrypt (StreamCipher.fed (StreamRowWriter.cipher w)) in
  let p := StreamRowWriter.buf_pos w in
  load p 16 (StreamRowWriter.mem w')
  = Ok (U32.encode (U32.wrap (Z.of_nat (length ct)))
          ++ U32.encode (StreamRowWriter.block_num_rows w)
          ++ U32.encode (Z.of_N ROW_UPPER_BOUND)
          ++ U32.encode (task_id_parser (StreamRowWriter.opcode w)
                           (StreamRowWriter.part w))) /\
  load32 (p + 4) (StreamRowWriter.mem w')
  = Ok (U32.wrap (StreamRowWriter.block_num_rows w)) /\
  (4 <= Z.of_nat (length ct) ->
   load (p + 16) (Z.of_nat (length ct) - 4) (StreamRowWriter.mem w')
   = Ok (skipn 4 ct)).
Proof.
  unfold StreamRowWriter.finish_block. intros H Hout. inv_bind H.
  injection H as <-. cbn [StreamRowWriter.mem].
  unfold StreamCipher.finish in E. inv_bind E. injection E as <-.
  cbn [fst snd StreamCipher.bytes_written StreamCipher.written] in *.
  set (ct := stream_encrypt (StreamCipher.fed (StreamRowWriter.cipher w))) in *.
  set (p := StreamRowWriter.buf_pos w) in *.
  destruct (store4_load16 _ _ _ _ _ _ _ _ _ _ E0 E1 E2 E3)
    as (L & _ & L1 & _ & _).
  unfold store32 in *.
  split; [|split].
  - exact L.
  - unfold load32. rewrite L1. cbn [bind].
    rewrite U32Facts.decode_encode. reflexivity.
  - intros Hct.
    pose proof (load_store_same _ _ _ _ E4) as Lc.
    rewrite Hout in Lc. fold ct in Lc.
    assert (Lt : load (p + 16) (Z.of_nat (length ct) - 4) a4
                 = Ok (skipn 4 ct)).
    { apply load_inv in Lc. destruct Lc as (c1 & c2 & c3 & c4 & _).
      rewrite load_ok by lia. f_equal.
      rewrite c4 at 2. rewrite Nat2Z.id.
      rewrite skipn_firstn_comm.
      replace (Z.to_nat (p + 16)) with (4 + Z.to_nat (p + 12))%nat by lia.
      rewrite <- skipn_skipn. f_equal. lia. }
    rewrite <- Lt.
    rewrite (load_store_other _ _ _ _ _ _ E3)
      by (rewrite U32Facts.length_encode; right; lia).
    rewrite (load_store_other _ _ _ _ _ _ E2)
      by (rewrite U32Facts.length_encode; right; lia).
    rewrite (load_store_other _ _ _ _ _ _ E1)
      by (rewrite U32Facts.length_encode; right; lia).
    rewrite (load_store_other _ _ _ _ _ _ E0)
      by (rewrite U32Facts.length_encode; right; lia).
    reflexivity.
Qed.

(** C9. In a [StreamRowWriter], [block_len] is 0 after construction and
    after every call, so the guard of [maybe_finish_block] never holds; the
    rows written between construction and [close()] all go to one cipher,
    nothing is emitted before [close()], and the one block [close()] emits
    counts all of them, however many bytes they take. *)
Theorem stream_writer_single_block (mem : list byte) :
  (forall ops w,
     StreamRowWriter.run ops (StreamRowWriter.make mem) = Ok w ->
     StreamRowWriter.block_len w = 0 /\
     StreamRowWriter.maybe_finish_block w = Ok w) /\
  (forall rows,
     Forall (fun r => is_ok (NewRecord.logical r) = true) rows ->
     exists w bss,
       StreamRowWriter.run (map StreamRowWriter.Write rows)
         (StreamRowWriter.make mem) = Ok w /\
       Forall2 (fun r bs => NewRecord.logical r = Ok bs) rows bss /\
       StreamRowWriter.buf_pos w = 0 /\
       StreamRowWriter.mem w = mem /\
       StreamRowWriter.block_num_rows w = U32.wrap (Z.of_nat (length rows)) /\
       StreamCipher.fed (StreamRowWriter.cipher w) = concat bss /\
       forall w',
         StreamRowWriter.close w = Ok w' ->
         StreamRowWriter.buf_pos w'
         = 16 + U32.wrap (Z.of_nat (length (stream_encrypt (concat bss)))) /\
         load32 4 (StreamRowWriter.mem w')
         = Ok (U32.wrap (Z.of_nat (length rows)))).
Proof.
  split.
  - intros ops w H.
    destruct (run_invariant ops _ _ H) as [Hlen _].
    + split; reflexivity.
    + split; [exact Hlen|]. apply maybe_finish_block_idle, Hlen.
  - intros rows Hrows.
    destruct (write_rows_one_block rows (StreamRowWriter.make mem) 0)
      as (w & bss & Hrun & Hall & h1 & h2 & h3 & h4 & h5 & h6);
      [reflexivity|reflexivity|exact Hrows|].
    exists w, bss. cbn in h2, h3, h5, h6.
    repeat split; auto.
    + rewrite (proj2 (proj2 (proj2 (finish_block_inv _ _ H)))).
      rewrite h2, h6. reflexivity.
    + destruct (finish_block_layout _ _ H) as (_ & Hn & _).
      * rewrite h5, h2. reflexivity.
      * rewrite h2, h4 in Hn. cbn in Hn. rewrite wrap_wrap in Hn.
        exact Hn.
Qed.

End StreamWriterFacts.

(** ** The bulk block writer *)

Section WriterFacts.
  Context {lim : Limits} {types : TypeTable} {cipher : Cipher}.

Lemma length_header (w : RowWriter.t) : length (RowWriter.header w) = 16%nat.
Proof. reflexivity. Qed.

(** What [finish_block] does to the output buffer, given room for the
    block: the sixteen header bytes at [buf_pos], then the ciphertext of
    the padded plaintext sealed under exactly those sixteen bytes. *)
Lemma finish_block_emits (w : RowWriter.t) :
  0 <= RowWriter.buf_pos w ->
  0 <= RowWriter.block_padded_len w
       <= Z.of_nat (length (RowWriter.block_start w)) ->
  RowWriter.buf_pos w + 16 + Z.of_nat (length (RowWriter.ciphertext w))
    <= Z.of_nat (length (RowWriter.mem w)) ->
  exists m,
    RowWriter.finish_block w =
      Ok (RowWriter.mk m
            (RowWriter.buf_pos w + 16
             + enc_size (RowWriter.block_padded_len w))
            (RowWriter.row_upper_bound w) (RowWriter.block_start w)
            0 0 0 (RowWriter.self_task_id w)) /\
    length m = length (RowWriter.mem w) /\
    load (RowWriter.buf_pos w) 16 m = Ok (RowWriter.header w) /\
    load (RowWriter.buf_pos w + 16)
      (Z.of_nat (length (RowWriter.ciphertext w))) m
    = Ok (RowWriter.ciphertext w).
Proof.
  intros Hpos Hpad Hroom.
  set (p := RowWriter.buf_pos w) in *.
  destruct (store32_ok p (enc_size (RowWriter.block_padded_len w))
              (RowWriter.mem w)) as (m1 & E1 & l1); try lia.
  destruct (store32_ok (p + 4) (RowWriter.block_num_rows w) m1)
    as (m2 & E2 & l2); try lia.
  destruct (store32_ok (p + 8) (RowWriter.row_upper_bound w) m2)
    as (m3 & E3 & l3); try lia.
  destruct (store32_ok (p + 12) (RowWriter.self_task_id w) m3)
    as (m4 & E4 & l4); try lia.
  destruct (store4_load16 _ _ _ _ _ _ _ _ _ _ E1 E2 E3 E4) as (L & _).
  fold (RowWriter.header w) in L.
  destruct (store_this_ok (p + 16) (RowWriter.ciphertext w) m4)
    as (m5 & E5 & l5); try lia.
  exists m5. unfold RowWriter.finish_block. fold p.
  rewrite E1. cbn [bind]. rewrite E2. cbn [bind].
  rewrite E3. cbn [bind]. rewrite E4. cbn [bind].
  rewrite load_ok by lia. change (Z.to_nat 0) with 0%nat. cbn [bind skipn].
  fold (RowWriter.plaintext w).
  replace (p + 16 - 16) with p by lia. rewrite L. cbn [bind].
  fold (RowWriter.ciphertext w). rewrite E5. cbn [bind].
  repeat split.
  - lia.
  - rewrite <- L. apply (load_store_other _ _ _ _ _ _ E5). left. lia.
  - apply (load_store_same _ _ _ _ E5).
Qed.

(** C4. [finish_block] writes the 16-byte header
    [(enc_size(block_padded_len), num_rows, row_upper_bound, task_id)] and
    seals the padded plaintext with exactly these sixteen bytes as
    associated data; so, under the cipher contract, the block does not
    open under a header in which any byte was changed. *)
Theorem finish_block_authenticates_header (w : RowWriter.t) :
  0 <= RowWriter.buf_pos w ->
  0 <= RowWriter.block_padded_len w
       <= Z.of_nat (length (RowWriter.block_start w)) ->
  RowWriter.buf_pos w + 16 + Z.of_nat (length (RowWriter.ciphertext w))
    <= Z.of_nat (length (RowWriter.mem w)) ->
  exists w' hdr ct,
    RowWriter.finish_block w = Ok w' /\
    hdr = U32.encode (enc_size (RowWriter.block_padded_len w))
          ++ U32.encode (RowWriter.block_num_rows w)
          ++ U32.encode (RowWriter.row_upper_bound w)
          ++ U32.encode (RowWriter.self_task_id w) /\
    length hdr = 16%nat /\
    ct = encrypt_with_aad
           (firstn (Z.to_nat (RowWriter.block_padded_len w))
              (RowWriter.block_start w)) hdr /\
    load (RowWriter.buf_pos w) 16 (RowWriter.mem w') = Ok hdr /\
    load (RowWriter.buf_pos w + 16) (Z.of_nat (length ct))
      (RowWriter.mem w') = Ok ct /\
    RowWriter.buf_pos w'
    = RowWriter.buf_pos w + 16 + enc_size (RowWriter.block_padded_len w) /\
    (aad_is_authenticated ->
     forall hdr',
       length hdr' = 16%nat -> hdr' <> hdr ->
       decrypt_with_aad ct hdr' = Err CipherError).
Proof.
  intros Hpos Hpad Hroom.
  destruct (finish_block_emits w Hpos Hpad Hroom) as (m & Hf & _ & Lh & Lc).
  eexists _, (RowWriter.header w), (RowWriter.ciphertext w).
  split; [exact Hf|]. cbn [RowWriter.mem RowWriter.buf_pos].
  repeat split; auto.
  intros Hc hdr' Hlen Hne.
  apply Hc; auto.
Qed.

End WriterFacts.

(** ** The bulk block reader *)

Section ReaderFacts.
  Context {lim : Limits} {types : TypeTable} {cipher : Cipher}.

(** [read_encrypted_block] never touches the verify sink: [add_parent] is
    not called. *)
Lemma read_encrypted_block_loop_sink (fuel : nat) (r r' : RowReader.t) :
  RowReader.read_encrypted_block_loop fuel r = Ok r' ->
  RowReader.verify_set r' = RowReader.verify_set r /\
  RowReader.mem r' = RowReader.mem r.
Proof.
  revert r. induction fuel as [|fuel IH]; intros r H; [discriminate|].
  cbn [RowReader.read_encrypted_block_loop] in H. inv_bind H.
  destruct (0 <? a0).
  - injection H as <-. cbn. auto.
  - apply IH in H. cbn in H. exact H.
Qed.

Lemma read_encrypted_block_sink (r r' : RowReader.t) :
  RowReader.read_encrypted_block r = Ok r' ->
  RowReader.verify_set r' = RowReader.verify_set r.
Proof.
  unfold RowReader.read_encrypted_block. intros H. inv_bind H.
  injection H as <-. cbn.
  apply read_encrypted_block_loop_sink in E. tauto.
Qed.

Lemma read_sink (row row' : NewRecord.t) (r r' : RowReader.t) :
  RowReader.read row r = Ok (row', r') ->
  RowReader.verify_set r' = RowReader.verify_set r.
Proof.
  unfold RowReader.read. intros H. inv_bind H. injection H as _ <-. cbn.
  unfold RowReader.maybe_advance_block in E.
  destruct (RowReader.block_num_rows r <=? RowReader.block_rows_read r).
  - apply read_encrypted_block_sink in E. exact E.
  - injection E as <-. reflexivity.
Qed.

(** The fuel of [read_encrypted_block] is enough: every round moves [buf]
    forward by twelve bytes or more, so further rounds change nothing. *)
Lemma read_encrypted_block_loop_fuel (fuel : nat) :
  forall (r : RowReader.t) (k : nat),
    0 <= RowReader.buf r ->
    Z.of_nat (length (RowReader.mem r)) - RowReader.buf r
    < 12 * Z.of_nat fuel ->
    RowReader.read_encrypted_block_loop (fuel + k) r
    = RowReader.read_encrypted_block_loop fuel r.
Proof.
  induction fuel as [|fuel IH]; intros r k Hbuf Hm.
  - destruct k as [|k]; [reflexivity|].
    cbn [Nat.add RowReader.read_encrypted_block_loop].
    unfold load32 at 1, load, in_bounds.
    replace (RowReader.buf r + 4 <=? Z.of_nat (length (RowReader.mem r)))
      with false by (symmetry; apply Z.leb_gt; lia).
    rewrite andb_false_r. reflexivity.
  - cbn [Nat.add RowReader.read_encrypted_block_loop].
    destruct (load32 (RowReader.buf r) (RowReader.mem r)) as [e|];
      [|reflexivity]. cbn [bind].
    destruct (load32 (RowReader.buf r + 4) (RowReader.mem r)) as [n|];
      [|reflexivity]. cbn [bind].
    destruct (load (RowReader.buf r + 12) e (RowReader.mem r)) as [ct|] eqn:L;
      [|reflexivity]. cbn [bind].
    destruct (decrypt ct) as [pt|]; [|reflexivity]. cbn [bind].
    destruct (store 0 pt (RowReader.block_start r)) as [blk|]; [|reflexivity].
    cbn [bind]. destruct (0 <? n); [reflexivity|].
    apply load_inv in L. destruct L as (l1 & l2 & l3 & _).
    apply IH; cbn [RowReader.buf RowReader.mem]; lia.
Qed.

Lemma read_encrypted_block_fuel (r : RowReader.t) (k : nat) :
  0 <= RowReader.buf r ->
  RowReader.read_encrypted_block_loop (S (length (RowReader.mem r)) + k) r
  = RowReader.read_encrypted_block_loop (S (length (RowReader.mem r))) r.
Proof.
  intros Hbuf. apply read_encrypted_block_loop_fuel; [exact Hbuf|]. lia.
Qed.

(** One block with rows: the reader takes three words for the header and
    hands [decrypt] the [block_enc_size] bytes that follow them, twelve
    bytes after the start of the block. *)
Lemma read_encrypted_block_one (r : RowReader.t) (e n : Z) :
  load32 (RowReader.buf r) (RowReader.mem r) = Ok e ->
  load32 (RowReader.buf r + 4) (RowReader.mem r) = Ok n ->
  0 < n ->
  RowReader.read_encrypted_block r =
    (ct <- load (RowReader.buf r + 12) e (RowReader.mem r) ;;
     pt <- decrypt ct ;;
     blk <- store 0 pt (RowReader.block_start r) ;;
     Ok (RowReader.mk (RowReader.mem r) (RowReader.buf r + 12 + e)
           (RowReader.buf_end r) blk 0 n 0 (RowReader.verify_set r))).
Proof.
  intros He Hn Hpos. unfold RowReader.read_encrypted_block.
  cbn [RowReader.read_encrypted_block_loop].
  rewrite He, Hn. cbn [bind].
  destruct (load (RowReader.buf r + 12) e (RowReader.mem r)) as [ct|];
    [|reflexivity]. cbn [bind].
  destruct (decrypt ct) as [pt|]; [|reflexivity]. cbn [bind].
  destruct (store 0 pt (RowReader.block_start r)) as [blk|]; [|reflexivity].
  cbn [bind]. replace (0 <? n) with true by (symmetry; apply Z.ltb_lt, Hpos).
  reflexivity.
Qed.

(** On a block as [RowWriter::finish_block] emits it, these bytes are the
    [task_id] word followed by the ciphertext short of its last four
    bytes. *)
Lemma reader_misframes_writer_block (w : RowWriter.t) :
  0 <= RowWriter.buf_pos w ->
  0 <= RowWriter.block_padded_len w
       <= Z.of_nat (length (RowWriter.block_start w)) ->
  RowWriter.buf_pos w + 16 + Z.of_nat (length (RowWriter.ciphertext w))
    <= Z.of_nat (length (RowWriter.mem w)) ->
  4 <= Z.of_nat (length (RowWriter.ciphertext w)) ->
  exists w',
    RowWriter.finish_block w = Ok w' /\
    load (RowWriter.buf_pos w + 12)
      (Z.of_nat (length (RowWriter.ciphertext w))) (RowWriter.mem w')
    = Ok (U32.encode (RowWriter.self_task_id w)
            ++ firstn (length (RowWriter.ciphertext w) - 4)
                 (RowWriter.ciphertext w)).
Proof.
  intros Hpos Hpad Hroom Hct.
  destruct (finish_block_emits w Hpos Hpad Hroom) as (m & Hf & _ & Lh & Lc).
  eexists. split; [exact Hf|]. cbn [RowWriter.mem].
  set (p := RowWriter.buf_pos w) in *.
  set (ct := RowWriter.ciphertext w) in *.
  pose proof (load_suffix _ _ 12 _ _ Lh ltac:(lia)) as Lt.
  change (16 - 12) with 4 in Lt.
  change (skipn (Z.to_nat 12) (RowWriter.header w))
    with (U32.encode (RowWriter.self_task_id w)) in Lt.
  pose proof (load_prefix _ _ (Z.of_nat (length ct) - 4) _ _ Lc ltac:(lia))
    as Lp.
  replace (p + 16) with (p + 12 + 4) in Lp by lia.
  pose proof (load_app _ _ _ _ _ _ Lt Lp) as L.
  replace (4 + (Z.of_nat (length ct) - 4)) with (Z.of_nat (length ct)) in L
    by lia.
  rewrite L. do 3 f_equal. lia.
Qed.

(** A reader placed on the block a writer has just emitted at the start of
    a buffer: whatever the cipher, what it decrypts is not the ciphertext
    the writer produced, and the verify sink is left as it was. *)
Lemma reader_on_writer_block (w : RowWriter.t) :
  RowWriter.buf_pos w = 0 ->
  0 <= RowWriter.block_padded_len w
       <= Z.of_nat (length (RowWriter.block_start w)) ->
  16 + Z.of_nat (length (RowWriter.ciphertext w))
    <= Z.of_nat (length (RowWriter.mem w)) ->
  enc_size (RowWriter.block_padded_len w)
  = Z.of_nat (length (RowWriter.ciphertext w)) ->
  4 <= Z.of_nat (length (RowWriter.ciphertext w)) < U32.modulus ->
  0 < RowWriter.block_num_rows w < U32.modulus ->
  exists w',
    RowWriter.finish_block w = Ok w' /\
    forall r : RowReader.t,
      RowReader.mem r = RowWriter.mem w' -> RowReader.buf r = 0 ->
      RowReader.read_encrypted_block r =
        (pt <- decrypt
                 (U32.encode (RowWriter.self_task_id w)
                    ++ firstn (length (RowWriter.ciphertext w) - 4)
                         (RowWriter.ciphertext w)) ;;
         blk <- store 0 pt (RowReader.block_start r) ;;
         Ok (RowReader.mk (RowReader.mem r)
               (12 + Z.of_nat (length (RowWriter.ciphertext w)))
               (RowReader.buf_end r) blk 0 (RowWriter.block_num_rows w) 0
               (RowReader.verify_set r))).
Proof.
  intros Hpos Hpad Hroom He Hct Hn.
  destruct (finish_block_emits w) as (m & Hf & _ & Lh & _); try lia.
  destruct (reader_misframes_writer_block w) as (w' & Hf' & Lm); try lia.
  rewrite Hf in Hf'. injection Hf' as <-. cbn [RowWriter.mem] in Lm.
  eexists. split; [exact Hf|]. cbn [RowWriter.mem].
  intros r Hmem Hbuf. rewrite Hpos in Lh, Lm.
  set (ct := RowWriter.ciphertext w) in *.
  assert (L0 : load32 0 m = Ok (Z.of_nat (length ct))).
  { unfold load32.
    rewrite (load_prefix _ _ 4 _ _ Lh) by lia.
    cbn [bind]. f_equal.
    change (firstn (Z.to_nat 4) (RowWriter.header w))
      with (U32.encode (enc_size (RowWriter.block_padded_len w))).
    rewrite U32Facts.decode_encode, He. apply U32Facts.wrap_small. lia. }
  assert (L4 : load32 (0 + 4) m = Ok (RowWriter.block_num_rows w)).
  { unfold load32.
    pose proof (load_suffix _ _ 4 _ _ Lh ltac:(lia)) as Ls.
    rewrite (load_prefix _ _ 4 _ _ Ls) by lia.
    cbn [bind]. f_equal.
    change (firstn (Z.to_nat 4) (skipn (Z.to_nat 4) (RowWriter.header w)))
      with (U32.encode (RowWriter.block_num_rows w)).
    rewrite U32Facts.decode_encode. apply U32Facts.wrap_small. lia. }
  rewrite (read_encrypted_block_one r (Z.of_nat (length ct))
             (RowWriter.block_num_rows w));
    rewrite ?Hmem, ?Hbuf; auto; try lia.
  rewrite Lm. reflexivity.
Qed.

Lemma load_in_app (a x b mem : list byte) (p n : Z) :
  mem = a ++ x ++ b -> p = Z.of_nat (length a) -> n = Z.of_nat (length x) ->
  load p n mem = Ok x.
Proof.
  intros -> -> ->. rewrite load_ok; try lia.
  - f_equal. rewrite !Nat2Z.id.
    rewrite skipn_app, skipn_all, Nat.sub_diag. cbn [app skipn].
    rewrite firstn_app, firstn_all, Nat.sub_diag. cbn [firstn].
    apply app_nil_r.
  - rewrite !length_app. lia.
Qed.

Lemma load32_in_app (a b mem : list byte) (p v : Z) :
  mem = a ++ U32.encode v ++ b -> p = Z.of_nat (length a) ->
  load32 p mem = Ok (U32.wrap v).
Proof.
  intros Hm Hp. unfold load32.
  rewrite (load_in_app a (U32.encode v) b mem p 4 Hm Hp eq_refl).
  cbn [bind]. rewrite U32Facts.decode_encode. reflexivity.
Qed.

Lemma length_frame (n rub : Z) (ct : list byte) :
  length (RowReader.frame n rub ct) = (12 + length ct)%nat.
Proof.
  unfold RowReader.frame. rewrite !length_app, !U32Facts.length_encode. lia.
Qed.

Lemma length_zero_frames (zs : list (Z * list byte)) :
  (length zs <= length (RowReader.zero_frames zs))%nat.
Proof.
  induction zs as [|z zs IH]; cbn [RowReader.zero_frames concat map length]; [lia|].
  fold (RowReader.zero_frames zs). rewrite length_app, length_frame. lia.
Qed.

(** The loop of [read_encrypted_block] passes over any number of blocks
    without rows and stops at the first block that has some. *)
Lemma read_encrypted_block_loop_skips (zs : list (Z * list byte)) :
  forall (fuel : nat) (r : RowReader.t) (pre post : list byte)
         (n rub : Z) (ct pt : list byte),
    (length zs < fuel)%nat ->
    RowReader.mem r
    = pre ++ RowReader.zero_frames zs ++ RowReader.frame n rub ct ++ post ->
    RowReader.buf r = Z.of_nat (length pre) ->
    Forall (fun z => Z.of_nat (length (snd z)) < U32.modulus /\
                     exists q, decrypt (snd z) = Ok q /\
                               (length q <= length (RowReader.block_start r))%nat)
      zs ->
    0 < n < U32.modulus ->
    Z.of_nat (length ct) < U32.modulus ->
    decrypt ct = Ok pt ->
    (length pt <= length (RowReader.block_start r))%nat ->
    exists blk,
      RowReader.read_encrypted_block_loop fuel r =
        Ok (RowReader.mk (RowReader.mem r)
              (RowReader.buf r + Z.of_nat (length (RowReader.zero_frames zs))
               + 12 + Z.of_nat (length ct))
              (RowReader.buf_end r) blk (RowReader.block_pos r) n
              (RowReader.block_rows_read r) (RowReader.verify_set r)) /\
      load 0 (Z.of_nat (length pt)) blk = Ok pt.
Proof.
  induction zs as [|[rub0 ct0] zs IH];
    intros fuel r pre post n rub ct pt Hfuel Hmem Hbuf Hzs Hn Hct Hdec Hpt.
  - destruct fuel as [|fuel]; [cbn in Hfuel; lia|].
    cbn [RowReader.zero_frames concat map app] in Hmem.
    unfold RowReader.frame in Hmem.
    cbn [RowReader.read_encrypted_block_loop].
    rewrite (load32_in_app pre _ _ _ (Z.of_nat (length ct)) Hmem Hbuf).
    cbn [bind].
    rewrite (load32_in_app (pre ++ U32.encode (Z.of_nat (length ct)))
               (U32.encode rub ++ ct ++ post) _ _ n)
      by (rewrite ?length_app, ?U32Facts.length_encode, <- ?app_assoc;
          auto; lia).
    cbn [bind].
    rewrite !U32Facts.wrap_small by lia.
    rewrite (load_in_app
               (pre ++ U32.encode (Z.of_nat (length ct)) ++ U32.encode n
                  ++ U32.encode rub) ct post)
      by (rewrite ?length_app, ?U32Facts.length_encode, <- ?app_assoc;
          auto; lia).
    cbn [bind]. rewrite Hdec. cbn [bind].
    destruct (store_this_ok 0 pt (RowReader.block_start r)) as (blk & Hs & _);
      try lia.
    rewrite Hs. cbn [bind].
    replace (0 <? n) with true by (symmetry; apply Z.ltb_lt; lia).
    exists blk. split.
    + f_equal. f_equal. cbn [RowReader.zero_frames concat map length]. lia.
    + apply (load_store_same _ _ _ _ Hs).
  - destruct fuel as [|fuel]; [cbn in Hfuel; lia|].
    inversion Hzs as [|z zs' Hz Hzs' Heq]; subst z zs'.
    destruct Hz as (Hlen0 & q & Hq & Hqlen). cbn [fst snd] in *.
    cbn [RowReader.zero_frames concat map] in Hmem. fold (RowReader.zero_frames zs) in Hmem.
    rewrite <- app_assoc in Hmem.
    pose proof Hmem as Hmem'.
    unfold RowReader.frame at 1 in Hmem.
    cbn [RowReader.read_encrypted_block_loop].
    rewrite (load32_in_app pre
               ((U32.encode 0 ++ U32.encode rub0 ++ ct0)
                  ++ RowReader.zero_frames zs ++ RowReader.frame n rub ct ++ post)
               _ _ (Z.of_nat (length ct0)))
      by (rewrite <- ?app_assoc in *; auto).
    cbn [bind].
    rewrite (load32_in_app (pre ++ U32.encode (Z.of_nat (length ct0)))
               ((U32.encode rub0 ++ ct0)
                  ++ RowReader.zero_frames zs ++ RowReader.frame n rub ct ++ post)
               _ _ 0)
      by (rewrite ?length_app, ?U32Facts.length_encode, <- ?app_assoc in *;
          auto; lia).
    cbn [bind].
    rewrite !U32Facts.wrap_small by (unfold U32.modulus in *; lia).
    rewrite (load_in_app
               (pre ++ U32.encode (Z.of_nat (length ct0)) ++ U32.encode 0
                  ++ U32.encode rub0) ct0
               (RowReader.zero_frames zs ++ RowReader.frame n rub ct ++ post))
      by (rewrite ?length_app, ?U32Facts.length_encode, <- ?app_assoc in *;
          auto; lia).
    cbn [bind]. rewrite Hq. cbn [bind].
    destruct (store_this_ok 0 q (RowReader.block_start r))
      as (blk0 & Hs & Hl0); try lia.
    rewrite Hs. cbn [bind]. change (0 <? 0) with false. cbv iota.
    set (r1 := RowReader.mk (RowReader.mem r)
                 (RowReader.buf r + 12 + Z.of_nat (length ct0))
                 (RowReader.buf_end r) blk0 (RowReader.block_pos r) 0
                 (RowReader.block_rows_read r) (RowReader.verify_set r)).
    destruct (IH fuel r1 (pre ++ RowReader.frame 0 rub0 ct0) post n rub ct pt)
      as (blk & Hloop & Hload).
    + cbn in Hfuel. lia.
    + cbn [r1 RowReader.mem]. rewrite Hmem'. rewrite <- !app_assoc.
      reflexivity.
    + cbn [r1 RowReader.buf]. rewrite length_app, length_frame. lia.
    + cbn [r1 RowReader.block_start]. rewrite Hl0. exact Hzs'.
    + exact Hn.
    + exact Hct.
    + exact Hdec.
    + cbn [r1 RowReader.block_start]. rewrite Hl0. exact Hpt.
    + exists blk. split; [|exact Hload].
      rewrite Hloop. cbn [r1 RowReader.mem RowReader.buf RowReader.buf_end
                            RowReader.block_pos RowReader.block_rows_read
                            RowReader.verify_set].
      f_equal. f_equal.
      cbn [RowReader.zero_frames concat map fst snd]. fold (RowReader.zero_frames zs).
      rewrite length_app, length_frame. lia.
Qed.

Lemma read_encrypted_block_skips (zs : list (Z * list byte))
    (r : RowReader.t) (pre post : list byte) (n rub : Z)
    (ct pt : list byte) :
  RowReader.mem r
  = pre ++ RowReader.zero_frames zs ++ RowReader.frame n rub ct ++ post ->
  RowReader.buf r = Z.of_nat (length pre) ->
  Forall (fun z => Z.of_nat (length (snd z)) < U32.modulus /\
                   exists q, decrypt (snd z) = Ok q /\
                             (length q <= length (RowReader.block_start r))%nat)
    zs ->
  0 < n < U32.modulus ->
  Z.of_nat (length ct) < U32.modulus ->
  decrypt ct = Ok pt ->
  (length pt <= length (RowReader.block_start r))%nat ->
  exists blk,
    RowReader.read_encrypted_block r =
      Ok (RowReader.mk (RowReader.mem r)
            (RowReader.buf r + Z.of_nat (length (RowReader.zero_frames zs))
             + 12 + Z.of_nat (length ct))
            (RowReader.buf_end r) blk 0 n 0 (RowReader.verify_set r)) /\
    load 0 (Z.of_nat (length pt)) blk = Ok pt.
Proof.
  intros Hmem Hbuf Hzs Hn Hct Hdec Hpt.
  destruct (read_encrypted_block_loop_skips zs (S (length (RowReader.mem r)))
              r pre post n rub ct pt) as (blk & Hloop & Hload); auto.
  - pose proof (length_zero_frames zs) as Hz.
    rewrite Hmem, !length_app. lia.
  - exists blk. split; [|exact Hload].
    unfold RowReader.read_encrypted_block. rewrite Hloop. reflexivity.
Qed.

End ReaderFacts.

(** ** The streaming block reader *)

Section StreamReaderFacts.
  Context {lim : Limits} {types : TypeTable} {suite : StreamSuite}.

(** When the rows of the current block are used up, the streaming reader
    moves to the next block and stays there, rows or no rows: there is no
    loop on [block_num_rows]. *)
Lemma stream_reader_advances_one_block (r : StreamRowReader.t)
    (e n task_id : Z) (ct : list byte) :
  StreamRowReader.block_num_rows r <= StreamRowReader.block_rows_read r ->
  load32 (StreamRowReader.buf r) (StreamRowReader.mem r) = Ok e ->
  load32 (StreamRowReader.buf r + 4) (StreamRowReader.mem r) = Ok n ->
  load32 (StreamRowReader.buf r + 12) (StreamRowReader.mem r) = Ok task_id ->
  load (StreamRowReader.buf r + 16) e (StreamRowReader.mem r) = Ok ct ->
  exists r',
    StreamRowReader.maybe_advance_block r = Ok r' /\
    StreamRowReader.block_num_rows r' = n /\
    StreamRowReader.block_rows_read r' = 0 /\
    StreamRowReader.buf r' = StreamRowReader.buf r + 16 + e /\
    StreamRowReader.cur_block_num r'
    = U32.incr (StreamRowReader.cur_block_num r) /\
    StreamRowReader.cipher r' = Some (StreamDecipher.make ct).
Proof.
  intros Hdone He Hn Ht Hct.
  unfold StreamRowReader.maybe_advance_block.
  replace (StreamRowReader.block_num_rows r
           <=? StreamRowReader.block_rows_read r) with true
    by (symmetry; apply Z.leb_le, Hdone).
  unfold StreamRowReader.read_encrypted_block.
  rewrite He. cbn [bind]. rewrite Hn. cbn [bind]. rewrite Ht. cbn [bind].
  rewrite Hct. cbn [bind].
  eexists. split; [reflexivity|]. cbn.
  repeat split. destruct (StreamRowReader.cipher r); reflexivity.
Qed.

End StreamReaderFacts.


(** ** The bulk block writer: packing rows into blocks *)

Section WriterPacking.
  Context {lim : Limits} {types : TypeTable} {cipher : Cipher}.

Lemma length_malloc (n : N) (junk : list byte) :
  length (malloc n junk) = N.to_nat n.
Proof.
  unfold malloc. rewrite length_firstn, length_app, repeat_length. lia.
Qed.

Lemma writer_inv_make (mem junk : list byte) (rub task_id : Z) :
  writer_inv rub
    (RowWriter.set_self_task_id task_id (RowWriter.make mem rub junk)).
Proof.
  unfold writer_inv. cbn. rewrite length_malloc. repeat split; lia.
Qed.

Lemma finish_block_fields (w w' : RowWriter.t) :
  RowWriter.finish_block w = Ok w' ->
  RowWriter.row_upper_bound w' = RowWriter.row_upper_bound w /\
  RowWriter.block_start w' = RowWriter.block_start w /\
  RowWriter.block_pos w' = 0 /\
  RowWriter.block_num_rows w' = 0 /\
  RowWriter.block_padded_len w' = 0 /\
  RowWriter.self_task_id w' = RowWriter.self_task_id w /\
  RowWriter.buf_pos w'
  = RowWriter.buf_pos w + 16 + enc_size (RowWriter.block_padded_len w).
Proof.
  unfold RowWriter.finish_block. intros H. inv_bind H. injection H as <-.
  cbn. repeat split.
Qed.

(** One [write] in detail, for a writer whose bound is set. *)
Lemma write_fields (row : NewRecord.t) (w w' : RowWriter.t) :
  RowWriter.write row w = Ok w' ->
  RowWriter.row_upper_bound w <> 0 ->
  exists w1 bs blk,
    RowWriter.maybe_finish_block (Z.of_N ROW_UPPER_BOUND) w = Ok w1 /\
    NewRecord.logical row = Ok bs /\
    store (RowWriter.block_pos w1) bs (RowWriter.block_start w1) = Ok blk /\
    NewRecord.row_length row <= RowWriter.row_upper_bound w1 /\
    w' = RowWriter.mk (RowWriter.mem w1) (RowWriter.buf_pos w1)
           (RowWriter.row_upper_bound w1) blk
           (RowWriter.block_pos w1 + NewRecord.row_length row)
           (U32.incr (RowWriter.block_num_rows w1))
           (U32.add (RowWriter.block_padded_len w1)
              (RowWriter.row_upper_bound w1))
           (RowWriter.self_task_id w1) /\
    RowWriter.row_upper_bound w1 = RowWriter.row_upper_bound w.
Proof.
  unfold RowWriter.write. intros H Hrub. inv_bind H.
  assert (Hr : RowWriter.row_upper_bound a = RowWriter.row_upper_bound w).
  { unfold RowWriter.maybe_finish_block in E.
    destruct (Z.of_N MAX_BLOCK_SIZE
              <? U32.add (RowWriter.block_padded_len w)
                   (Z.of_N ROW_UPPER_BOUND)).
    - apply finish_block_fields in E. tauto.
    - injection E as <-. reflexivity. }
  unfold NewRecord.write in E0. inv_bind E0. injection E0 as <-.
  cbn [fst snd] in *.
  replace (RowWriter.row_upper_bound a =? 0) with false in *
    by (symmetry; apply Z.eqb_neq; congruence).
  unfold check in E1.
  destruct (NewRecord.row_length row <=? RowWriter.row_upper_bound a) eqn:Hc;
    [|discriminate].
  apply Z.leb_le in Hc. injection E2 as <-. injection H as <-.
  exists a, a3, a4. repeat split; auto.
Qed.

(** The invariant of the block in progress is kept by [write]: in
    particular [block_padded_len] never exceeds [MAX_BLOCK_SIZE]. *)
Lemma write_keeps_inv (rub : Z) (row : NewRecord.t) (w w' : RowWriter.t) :
  writer_config rub -> writer_inv rub w ->
  RowWriter.write row w = Ok w' -> writer_inv rub w'.
Proof.
  intros (Hrub & Hfit & Hsum) (i1 & i2 & i3 & i4 & i5 & i6) H.
  unfold U32.modulus in Hsum.
  destruct (write_fields row w w' H ltac:(lia))
    as (w1 & bs & blk & Hm & Hl & Hs & Hlen & -> & Hr).
  assert (Hw1 : writer_inv rub w1 /\
                RowWriter.block_padded_len w1 + Z.of_N ROW_UPPER_BOUND
                <= Z.of_N MAX_BLOCK_SIZE).
  { unfold RowWriter.maybe_finish_block in Hm.
    destruct (Z.of_N MAX_BLOCK_SIZE
              <? U32.add (RowWriter.block_padded_len w)
                   (Z.of_N ROW_UPPER_BOUND)) eqn:Ef.
    - apply finish_block_fields in Hm.
      destruct Hm as (f1 & f2 & f3 & f4 & f5 & _).
      unfold writer_inv. rewrite f1, f2, f3, f4, f5.
      repeat split; try lia; congruence.
    - injection Hm as <-. split; [unfold writer_inv; tauto|].
      apply Z.ltb_ge in Ef.
      unfold U32.add in Ef. rewrite U32Facts.wrap_small in Ef
        by (unfold U32.modulus; nia).
      exact Ef. }
  destruct Hw1 as ((j1 & j2 & j3 & j4 & j5 & j6) & Hroom).
  apply store_inv in Hs. destruct Hs as (s1 & s2 & _ & s4).
  unfold NewRecord.logical in Hl. apply load_inv in Hl.
  destruct Hl as (_ & l2 & _ & _ & l5).
  unfold writer_inv. cbn.
  unfold U32.incr, U32.add.
  rewrite !U32Facts.wrap_small by (unfold U32.modulus; nia).
  rewrite j1 in *. repeat split; try nia; congruence.
Qed.

Lemma write_all_keeps_inv (rub : Z) (rows : list NewRecord.t) :
  forall w w' : RowWriter.t,
    writer_config rub -> writer_inv rub w ->
    RowWriter.write_all rows w = Ok w' -> writer_inv rub w'.
Proof.
  induction rows as [|row rows IH]; intros w w' Hc Hi H.
  - injection H as <-. exact Hi.
  - cbn [RowWriter.write_all] in H. inv_bind H.
    eapply IH; [exact Hc| |exact H].
    eapply write_keeps_inv; eauto.
Qed.

(** A [write] that does not have to emit the block in progress: the row's
    bytes go to the block buffer at [block_pos], the row is accounted
    [rub] bytes, and nothing reaches the output buffer. *)
Lemma write_in_block (rub : Z) (row : NewRecord.t) (bs : list byte)
    (w : RowWriter.t) :
  writer_config rub -> writer_inv rub w ->
  RowWriter.block_padded_len w + Z.of_N ROW_UPPER_BOUND
  <= Z.of_N MAX_BLOCK_SIZE ->
  NewRecord.logical row = Ok bs ->
  NewRecord.row_length row <= rub ->
  exists blk,
    store (RowWriter.block_pos w) bs (RowWriter.block_start w) = Ok blk /\
    RowWriter.write row w =
      Ok (RowWriter.mk (RowWriter.mem w) (RowWriter.buf_pos w) rub blk
            (RowWriter.block_pos w + Z.of_nat (length bs))
            (RowWriter.block_num_rows w + 1)
            (RowWriter.block_padded_len w + rub)
            (RowWriter.self_task_id w)).
Proof.
  intros (Hrub & Hfit & Hsum) (i1 & i2 & i3 & i4 & i5 & i6) Hroom Hl Hlen.
  unfold U32.modulus in Hsum.
  pose proof (length_load _ _ _ _ Hl) as Hbs.
  destruct (store_this_ok (RowWriter.block_pos w) bs (RowWriter.block_start w))
    as (blk & Hs & _); try lia.
  exists blk. split; [exact Hs|].
  unfold RowWriter.write, RowWriter.maybe_finish_block.
  replace (Z.of_N MAX_BLOCK_SIZE
           <? U32.add (RowWriter.block_padded_len w) (Z.of_N ROW_UPPER_BOUND))
    with false.
  2:{ symmetry. apply Z.ltb_ge. unfold U32.add.
      rewrite U32Facts.wrap_small by (unfold U32.modulus; nia). lia. }
  cbn [bind]. unfold NewRecord.write.
  unfold NewRecord.logical in Hl. rewrite Hl. cbn [bind].
  rewrite Hs. cbn [bind fst snd]. rewrite i1.
  replace (rub =? 0) with false by (symmetry; apply Z.eqb_neq; lia).
  unfold check.
  replace (NewRecord.row_length row <=? rub) with true
    by (symmetry; apply Z.leb_le; lia).
  cbn [bind]. unfold U32.incr, U32.add.
  rewrite !U32Facts.wrap_small by (unfold U32.modulus; nia).
  rewrite Hbs. reflexivity.
Qed.

(** Rows written while the block has room lie in the block buffer one
    after the other, in the order of the calls. *)
Lemma write_all_in_block (rub : Z) (rows : list NewRecord.t)
    (bss : list (list byte)) :
  Forall2 (fun r bs => NewRecord.logical r = Ok bs /\
                       NewRecord.row_length r <= rub) rows bss ->
  forall (w : RowWriter.t) (acc : list byte),
    writer_config rub -> writer_inv rub w ->
    load 0 (RowWriter.block_pos w) (RowWriter.block_start w) = Ok acc ->
    (RowWriter.block_num_rows w + Z.of_nat (length rows)) * rub - rub
    + Z.of_N ROW_UPPER_BOUND <= Z.of_N MAX_BLOCK_SIZE ->
    exists w',
      RowWriter.write_all rows w = Ok w' /\
      RowWriter.mem w' = RowWriter.mem w /\
      RowWriter.buf_pos w' = RowWriter.buf_pos w /\
      RowWriter.self_task_id w' = RowWriter.self_task_id w /\
      RowWriter.block_num_rows w'
      = RowWriter.block_num_rows w + Z.of_nat (length rows) /\
      RowWriter.block_pos w'
      = RowWriter.block_pos w + Z.of_nat (length (concat bss)) /\
      load 0 (RowWriter.block_pos w') (RowWriter.block_start w')
      = Ok (acc ++ concat bss) /\
      writer_inv rub w'.
Proof.
  induction 1 as [|row bs rows bss [Hl Hlen] Hall IH];
    intros w acc Hc Hi Hacc Hroom.
  - exists w. cbn [RowWriter.write_all concat length Z.of_nat].
    rewrite app_nil_r, !Z.add_0_r.
    repeat (split; [solve [auto]|]). exact Hi.
  - pose proof Hc as (Hrub & Hfit & Hsum).
    pose proof Hi as (i1 & i2 & i3 & i4 & i5 & i6).
    cbn [length] in Hroom.
    destruct (write_in_block rub row bs w Hc Hi) as (blk & Hs & Hw); auto.
    { nia. }
    set (w1 := RowWriter.mk (RowWriter.mem w) (RowWriter.buf_pos w) rub blk
                 (RowWriter.block_pos w + Z.of_nat (length bs))
                 (RowWriter.block_num_rows w + 1)
                 (RowWriter.block_padded_len w + rub)
                 (RowWriter.self_task_id w)) in *.
    assert (Hi1 : writer_inv rub w1)
      by (eapply write_keeps_inv; eauto).
    assert (Hacc1 : load 0 (RowWriter.block_pos w1) (RowWriter.block_start w1)
                    = Ok (acc ++ bs)).
    { cbn [w1 RowWriter.block_pos RowWriter.block_start].
      apply load_app.
      - rewrite (load_store_other _ _ _ _ _ _ Hs) by (left; lia). exact Hacc.
      - rewrite Z.add_0_l. apply (load_store_same _ _ _ _ Hs). }
    destruct (IH w1 (acc ++ bs) Hc Hi1 Hacc1)
      as (w' & Hrun & h1 & h2 & h3 & h4 & h5 & h6 & h7).
    { cbn [w1 RowWriter.block_num_rows]. nia. }
    exists w'. cbn [RowWriter.write_all]. rewrite Hw. cbn [bind].
    rewrite Hrun. cbn [w1 RowWriter.mem RowWriter.buf_pos
                         RowWriter.self_task_id RowWriter.block_num_rows
                         RowWriter.block_pos] in *.
    repeat (split; [solve [auto]|]).
    split; [rewrite h4; cbn [length]; lia|].
    split; [rewrite h5; cbn [concat]; rewrite length_app; lia|].
    split; [|exact h7].
    rewrite h6. cbn [concat]. rewrite <- app_assoc. reflexivity.
Qed.

(** A successful [finish_block] had room for the block. *)
Lemma finish_block_room (w w' : RowWriter.t) :
  RowWriter.finish_block w = Ok w' ->
  0 <= RowWriter.buf_pos w /\
  0 <= RowWriter.block_padded_len w
       <= Z.of_nat (length (RowWriter.block_start w)) /\
  RowWriter.buf_pos w + 16 + Z.of_nat (length (RowWriter.ciphertext w))
  <= Z.of_nat (length (RowWriter.mem w)).
Proof.
  unfold RowWriter.finish_block. intros H. inv_bind H. clear H.
  destruct (store4_load16 _ _ _ _ _ _ _ _ _ _ E E0 E1 E2) as (L & _).
  replace (RowWriter.buf_pos w + 16 - 16) with (RowWriter.buf_pos w) in E4
    by lia.
  assert (Ha : a4 = RowWriter.header w)
    by (unfold RowWriter.header; congruence).
  pose proof (load_inv _ _ _ _ E3) as (p1 & p2 & p3 & p4 & _).
  change (Z.to_nat 0) with 0%nat in p4. cbn [skipn] in p4.
  assert (Hp : a3 = RowWriter.plaintext w) by exact p4.
  rewrite Ha, Hp in E5. fold (RowWriter.ciphertext w) in E5.
  unfold store32 in *.
  apply store_inv in E, E0, E1, E2, E5.
  destruct E as (e1 & _ & _ & l1). destruct E0 as (_ & _ & _ & l2).
  destruct E1 as (_ & _ & _ & l3). destruct E2 as (_ & _ & _ & l4).
  destruct E5 as (_ & e5 & _ & _).
  repeat split; lia.
Qed.

(** X1. Under a sane configuration, whatever rows are written, the block
    in progress accounts [row_upper_bound] bytes per row, the accounted
    length never exceeds [MAX_BLOCK_SIZE], and the rows written lie within
    it. *)
Theorem row_writer_block_within_capacity (rub task_id : Z)
    (mem junk : list byte) (rows : list NewRecord.t) (w : RowWriter.t) :
  writer_config rub ->
  RowWriter.write_all rows
    (RowWriter.set_self_task_id task_id (RowWriter.make mem rub junk))
  = Ok w ->
  RowWriter.row_upper_bound w = rub /\
  RowWriter.block_padded_len w = RowWriter.block_num_rows w * rub /\
  RowWriter.block_padded_len w <= Z.of_N MAX_BLOCK_SIZE /\
  0 <= RowWriter.block_pos w <= RowWriter.block_padded_len w.
Proof.
  intros Hc H.
  pose proof (write_all_keeps_inv rub rows _ _ Hc
                (writer_inv_make mem junk rub task_id) H)
    as (i1 & i2 & i3 & i4 & i5 & i6).
  repeat split; auto; lia.
Qed.

(** X2. [write] never accepts a row longer than the writer's row bound, or
    than [ROW_UPPER_BOUND] while the bound is not set. *)
Theorem row_writer_rejects_long_rows (row : NewRecord.t)
    (w w' : RowWriter.t) :
  RowWriter.write row w = Ok w' ->
  NewRecord.row_length row
  <= (if RowWriter.row_upper_bound w =? 0
      then Z.of_N ROW_UPPER_BOUND
      else RowWriter.row_upper_bound w).
Proof.
  unfold RowWriter.write. intros H. inv_bind H.
  assert (Hr : RowWriter.row_upper_bound a = RowWriter.row_upper_bound w).
  { unfold RowWriter.maybe_finish_block in E.
    destruct (Z.of_N MAX_BLOCK_SIZE
              <? U32.add (RowWriter.block_padded_len w)
                   (Z.of_N ROW_UPPER_BOUND)).
    - apply finish_block_fields in E. tauto.
    - injection E as <-. reflexivity. }
  unfold NewRecord.write in E0. inv_bind E0. injection E0 as <-.
  cbn [fst] in E1. rewrite Hr in E1. unfold check in E1.
  destruct (NewRecord.row_length row
            <=? (if RowWriter.row_upper_bound w =? 0
                 then Z.of_N ROW_UPPER_BOUND
                 else RowWriter.row_upper_bound w)) eqn:Hc; [|discriminate].
  apply Z.leb_le in Hc. exact Hc.
Qed.

(** X3. When one more row of [ROW_UPPER_BOUND] bytes would not fit the
    block in progress, [write] first emits that block, with its row count
    in the header, and the row written becomes the only row of a new
    block.  [bytes_written()] grows by the 16 bytes of the header and the
    size of the ciphertext, on [uint32_t]. *)
Theorem row_writer_emits_full_block (rub : Z) (row : NewRecord.t)
    (w w' : RowWriter.t) :
  writer_config rub -> writer_inv rub w ->
  Z.of_N MAX_BLOCK_SIZE
  < RowWriter.block_padded_len w + Z.of_N ROW_UPPER_BOUND ->
  RowWriter.write row w = Ok w' ->
  RowWriter.bytes_written w'
  = U32.wrap (RowWriter.bytes_written w + 16
              + enc_size (RowWriter.block_padded_len w)) /\
  RowWriter.buf_pos w'
  = RowWriter.buf_pos w + 16 + enc_size (RowWriter.block_padded_len w) /\
  load (RowWriter.buf_pos w) 16 (RowWriter.mem w') = Ok (RowWriter.header w) /\
  RowWriter.block_num_rows w' = 1 /\
  RowWriter.block_padded_len w' = rub /\
  RowWriter.block_pos w' = NewRecord.row_length row.
Proof.
  intros Hc Hi Hfull H.
  pose proof Hc as (Hrub & Hfit & Hsum). unfold U32.modulus in Hsum.
  pose proof Hi as (i1 & i2 & i3 & i4 & i5 & i6).
  destruct (write_fields row w w' H ltac:(lia))
    as (w1 & bs & blk & Hm & Hl & Hs & Hlen & -> & Hr).
  unfold RowWriter.maybe_finish_block in Hm.
  replace (Z.of_N MAX_BLOCK_SIZE
           <? U32.add (RowWriter.block_padded_len w) (Z.of_N ROW_UPPER_BOUND))
    with true in Hm.
  2:{ symmetry. apply Z.ltb_lt. unfold U32.add.
      rewrite U32Facts.wrap_small by (unfold U32.modulus; nia). lia. }
  pose proof (finish_block_room _ _ Hm) as (r1 & r2 & r3).
  destruct (finish_block_emits w r1 r2 r3) as (m & Hf & _ & Lh & _).
  rewrite Hf in Hm. injection Hm as <-.
  unfold RowWriter.bytes_written.
  cbn [RowWriter.buf_pos RowWriter.mem RowWriter.block_num_rows
       RowWriter.block_padded_len RowWriter.block_pos].
  split; [symmetry; rewrite <- !Z.add_assoc; apply wrap_add_l|].
  split; [reflexivity|]. split; [exact Lh|].
  split; [reflexivity|]. split; [|lia].
  rewrite i1. unfold U32.add. apply U32Facts.wrap_small.
  unfold U32.modulus. lia.
Qed.

(** X4. Rows written while the block has room reach the output together:
    nothing is emitted before [close()], which emits one block whose
    header is [(enc_size(n * rub), n, rub, task_id)] and whose plaintext
    is the rows in the order written, padded to [n * rub] bytes;
    [bytes_written()] is then the size of that block on [uint32_t]. *)
Theorem row_writer_packs_one_block (rub task_id : Z) (mem junk : list byte)
    (rows : list NewRecord.t) (bss : list (list byte)) :
  let n := Z.of_nat (length rows) in
  writer_config rub -> ciphertext_length_law ->
  Forall2 (fun r bs => NewRecord.logical r = Ok bs /\
                       NewRecord.row_length r <= rub) rows bss ->
  n * rub - rub + Z.of_N ROW_UPPER_BOUND <= Z.of_N MAX_BLOCK_SIZE ->
  16 + enc_size (n * rub) <= Z.of_nat (length mem) ->
  exists w w' pad,
    RowWriter.write_all rows
      (RowWriter.set_self_task_id task_id (RowWriter.make mem rub junk))
    = Ok w /\
    RowWriter.bytes_written w = 0 /\
    RowWriter.buf_pos w = 0 /\
    RowWriter.mem w = mem /\
    RowWriter.close w = Ok w' /\
    RowWriter.bytes_written w' = U32.wrap (16 + enc_size (n * rub)) /\
    RowWriter.buf_pos w' = 16 + enc_size (n * rub) /\
    Z.of_nat (length (concat bss ++ pad)) = n * rub /\
    load 0 16 (RowWriter.mem w')
    = Ok (U32.encode (enc_size (n * rub)) ++ U32.encode n
            ++ U32.encode rub ++ U32.encode task_id) /\
    load 16 (enc_size (n * rub)) (RowWriter.mem w')
    = Ok (encrypt_with_aad (concat bss ++ pad)
            (U32.encode (enc_size (n * rub)) ++ U32.encode n
               ++ U32.encode rub ++ U32.encode task_id)).
Proof.
  intros n Hc Hlaw Hrows Hroom Hmem.
  set (w0 := RowWriter.set_self_task_id task_id (RowWriter.make mem rub junk)).
  destruct (write_all_in_block rub rows bss Hrows w0 [] Hc
              (writer_inv_make mem junk rub task_id))
    as (w & Hrun & h1 & h2 & h3 & h4 & h5 & h6 & h7).
  { cbn [w0 RowWriter.set_self_task_id RowWriter.make RowWriter.block_pos
            RowWriter.block_start].
    rewrite load_ok by lia. reflexivity. }
  { cbn [w0 RowWriter.set_self_task_id RowWriter.make
            RowWriter.block_num_rows]. fold n. lia. }
  cbn [w0 RowWriter.set_self_task_id RowWriter.make RowWriter.mem
          RowWriter.buf_pos RowWriter.self_task_id RowWriter.block_num_rows
          RowWriter.block_pos] in h1, h2, h3, h4, h5.
  fold n in h4. cbn [app] in h6.
  destruct h7 as (i1 & i2 & i3 & i4 & i5 & i6).
  rewrite h4 in i3. rewrite Z.add_0_l in i3, h4, h5.
  assert (Hpt : Z.of_nat (length (RowWriter.plaintext w)) = n * rub).
  { unfold RowWriter.plaintext. rewrite length_firstn, i6. lia. }
  assert (Hct : Z.of_nat (length (RowWriter.ciphertext w))
                = enc_size (n * rub)).
  { unfold RowWriter.ciphertext. rewrite Hlaw by lia.
    rewrite Hpt. reflexivity. }
  destruct (finish_block_emits w) as (m & Hf & _ & Lh & Lc).
  { lia. }
  { rewrite i6. lia. }
  { rewrite h1, h2, Hct. lia. }
  exists w, (RowWriter.mk m
               (RowWriter.buf_pos w + 16
                + enc_size (RowWriter.block_padded_len w))
               (RowWriter.row_upper_bound w) (RowWriter.block_start w)
               0 0 0 (RowWriter.self_task_id w)),
    (skipn (length (concat bss)) (RowWriter.plaintext w)).
  assert (Hsplit : concat bss
                     ++ skipn (length (concat bss)) (RowWriter.plaintext w)
                   = RowWriter.plaintext w).
  { rewrite <- (firstn_skipn (length (concat bss)) (RowWriter.plaintext w))
      at 2.
    f_equal. apply load_inv in h6. destruct h6 as (_ & _ & _ & h6 & _).
    rewrite h6 at 1. change (Z.to_nat 0) with 0%nat. cbn [skipn].
    unfold RowWriter.plaintext. rewrite firstn_firstn.
    f_equal. lia. }
  rewrite Hsplit.
  assert (Hh : RowWriter.header w
               = U32.encode (enc_size (n * rub)) ++ U32.encode n
                   ++ U32.encode rub ++ U32.encode task_id).
  { unfold RowWriter.header. rewrite i3, h4, i1, h3. reflexivity. }
  unfold RowWriter.close, RowWriter.bytes_written.
  cbn [RowWriter.buf_pos RowWriter.mem].
  rewrite h2 in *. rewrite i3 in *. rewrite Hct in Lc. rewrite Hh in *.
  repeat split; auto.
  unfold RowWriter.ciphertext in Lc. rewrite Hh in Lc. exact Lc.
Qed.

End WriterPacking.

(** ** The bulk block writer: what pads a block *)

Section WriterPadding.
  Context {lim : Limits} {types : TypeTable} {cipher : Cipher}.

Lemma store_tail (p q : Z) (bs mem mem' : list byte) :
  store p bs mem = Ok mem' ->
  p + Z.of_nat (length bs) <= q ->
  skipn (Z.to_nat q) mem' = skipn (Z.to_nat q) mem.
Proof.
  intros H Hq. apply store_inv in H. destruct H as (Hp & Hb & Hm & _).
  rewrite Hm, app_assoc, skipn_app.
  rewrite skipn_all2 by (rewrite length_app, length_firstn; lia).
  cbn [app]. rewrite skipn_skipn. f_equal.
  rewrite length_app, length_firstn. lia.
Qed.

(** Rows written while the block has room leave the block buffer as it
    was from [block_pos] on. *)
Lemma write_all_in_block_tail (rub : Z) (rows : list NewRecord.t)
    (bss : list (list byte)) :
  Forall2 (fun r bs => NewRecord.logical r = Ok bs /\
                       NewRecord.row_length r <= rub) rows bss ->
  forall w w' : RowWriter.t,
    writer_config rub -> writer_inv rub w ->
    (RowWriter.block_num_rows w + Z.of_nat (length rows)) * rub - rub
    + Z.of_N ROW_UPPER_BOUND <= Z.of_N MAX_BLOCK_SIZE ->
    RowWriter.write_all rows w = Ok w' ->
    RowWriter.block_pos w <= RowWriter.block_pos w' /\
    skipn (Z.to_nat (RowWriter.block_pos w')) (RowWriter.block_start w')
    = skipn (Z.to_nat (RowWriter.block_pos w')) (RowWriter.block_start w).
Proof.
  induction 1 as [|row bs rows bss [Hl Hlen] Hall IH];
    intros w w' Hc Hi Hroom Hrun.
  - injection Hrun as <-. split; [lia|reflexivity].
  - pose proof Hc as (Hrub & Hfit & Hsum).
    pose proof Hi as (i1 & i2 & i3 & i4 & i5 & i6).
    cbn [length] in Hroom.
    destruct (write_in_block rub row bs w Hc Hi) as (blk & Hs & Hw); auto.
    { nia. }
    cbn [RowWriter.write_all] in Hrun. rewrite Hw in Hrun.
    cbn [bind] in Hrun.
    match type of Hrun with
    | RowWriter.write_all _ ?w1 = _ =>
        assert (Hi1 : writer_inv rub w1)
          by (eapply write_keeps_inv; eauto);
        destruct (IH w1 w' Hc Hi1) as (Hle & Htail);
          [cbn [RowWriter.block_num_rows]; nia|exact Hrun|]
    end.
    cbn [RowWriter.block_pos RowWriter.block_start] in Hle, Htail.
    split; [lia|].
    rewrite Htail. apply (store_tail _ _ _ _ _ Hs). lia.
Qed.

(** X18. The padding of a block is not cleared: for rows written to a new
    writer while the block has room, what [close()] encrypts is the rows'
    bytes followed by the bytes the block buffer held after them when it
    came from [malloc]. *)
Theorem row_writer_pads_with_buffer_content (rub task_id : Z)
    (mem junk : list byte) (rows : list NewRecord.t)
    (bss : list (list byte)) (w w' : RowWriter.t) :
  let n := Z.of_nat (length rows) in
  let used := length (concat bss) in
  let pad := firstn (Z.to_nat (n * rub) - used)
               (skipn used (malloc MAX_BLOCK_SIZE junk)) in
  writer_config rub ->
  Forall2 (fun r bs => NewRecord.logical r = Ok bs /\
                       NewRecord.row_length r <= rub) rows bss ->
  n * rub - rub + Z.of_N ROW_UPPER_BOUND <= Z.of_N MAX_BLOCK_SIZE ->
  RowWriter.write_all rows
    (RowWriter.set_self_task_id task_id (RowWriter.make mem rub junk))
  = Ok w ->
  RowWriter.close w = Ok w' ->
  Z.of_nat (length (concat bss ++ pad)) = n * rub /\
  load 16 (Z.of_nat (length (encrypt_with_aad (concat bss ++ pad)
                               (RowWriter.header w))))
    (RowWriter.mem w')
  = Ok (encrypt_with_aad (concat bss ++ pad) (RowWriter.header w)).
Proof.
  intros n used pad Hc Hrows Hroom Hrun Hclose.
  set (w0 := RowWriter.set_self_task_id task_id (RowWriter.make mem rub junk))
    in *.
  destruct (write_all_in_block rub rows bss Hrows w0 [] Hc
              (writer_inv_make mem junk rub task_id))
    as (w1 & Hrun1 & h1 & h2 & h3 & h4 & h5 & h6 & h7).
  { cbn [w0 RowWriter.set_self_task_id RowWriter.make RowWriter.block_pos
            RowWriter.block_start].
    rewrite load_ok by lia. reflexivity. }
  { cbn [w0 RowWriter.set_self_task_id RowWriter.make
            RowWriter.block_num_rows]. fold n. lia. }
  rewrite Hrun in Hrun1. injection Hrun1 as <-.
  destruct (write_all_in_block_tail rub rows bss Hrows w0 w Hc
              (writer_inv_make mem junk rub task_id)) as (_ & Htail).
  { cbn [w0 RowWriter.set_self_task_id RowWriter.make
            RowWriter.block_num_rows]. fold n. lia. }
  { exact Hrun. }
  cbn [w0 RowWriter.set_self_task_id RowWriter.make RowWriter.mem
          RowWriter.buf_pos RowWriter.self_task_id RowWriter.block_num_rows
          RowWriter.block_pos RowWriter.block_start] in h2, h4, h5, Htail.
  fold n in h4. cbn [app] in h6.
  destruct h7 as (i1 & i2 & i3 & i4 & i5 & i6).
  rewrite h4 in i3. rewrite Z.add_0_l in i3, h4, h5.
  assert (Hpos : Z.to_nat (RowWriter.block_pos w) = used)
    by (rewrite h5; unfold used; lia).
  rewrite Hpos in Htail.
  assert (Hplain : RowWriter.plaintext w = concat bss ++ pad).
  { unfold RowWriter.plaintext, pad.
    rewrite <- (firstn_skipn used (RowWriter.block_start w)) at 1.
    rewrite firstn_app.
    apply load_inv in h6. destruct h6 as (_ & _ & h6l & h6 & _).
    change (Z.to_nat 0) with 0%nat in h6. cbn [skipn] in h6.
    rewrite Hpos in h6. rewrite <- h6.
    rewrite firstn_all2 by lia.
    rewrite Htail, i3. reflexivity. }
  split.
  - rewrite <- Hplain. unfold RowWriter.plaintext.
    rewrite length_firstn, i6. lia.
  - unfold RowWriter.close in Hclose.
    pose proof (finish_block_room _ _ Hclose) as (r1 & r2 & r3).
    destruct (finish_block_emits w r1 r2 r3) as (m & Hf & _ & _ & Lc).
    rewrite Hf in Hclose. injection Hclose as <-.
    cbn [RowWriter.mem]. rewrite h2 in Lc.
    unfold RowWriter.ciphertext in Lc. rewrite Hplain in Lc. exact Lc.
Qed.

Lemma write_all_keeps_bound (rows : list NewRecord.t) :
  forall w w' : RowWriter.t,
    RowWriter.row_upper_bound w <> 0 ->
    RowWriter.write_all rows w = Ok w' ->
    RowWriter.row_upper_bound w' = RowWriter.row_upper_bound w.
Proof.
  induction rows as [|row rows IH]; intros w w' Hb H.
  - injection H as <-. reflexivity.
  - cbn [RowWriter.write_all] in H.
    destruct (RowWriter.write row w) as [w1|] eqn:E; [|discriminate].
    cbn [bind] in H.
    destruct (write_fields row w w1 E Hb)
      as (w0 & bs & blk & _ & _ & _ & _ & -> & Hr).
    apply IH in H; [|cbn; congruence]. rewrite H. cbn. exact Hr.
Qed.

(** X19. A writer constructed without a row bound takes the bound of the
    first row written, [row->row_upper_bound()], accounts that row with
    it, and keeps it for all later rows. *)
Theorem row_writer_adopts_first_bound (mem junk : list byte)
    (row : NewRecord.t) (rows : list NewRecord.t) (w w' : RowWriter.t)
    (u : Z) :
  Z.of_N ROW_UPPER_BOUND <= Z.of_N MAX_BLOCK_SIZE < U32.modulus ->
  NewRecord.row_upper_bound row = Ok u -> u <> 0 ->
  RowWriter.write row (RowWriter.make mem 0 junk) = Ok w ->
  RowWriter.write_all rows w = Ok w' ->
  RowWriter.row_upper_bound w = u /\
  RowWriter.block_num_rows w = 1 /\
  RowWriter.block_padded_len w = U32.wrap u /\
  RowWriter.bytes_written w = 0 /\
  RowWriter.buf_pos w = 0 /\
  NewRecord.row_length row <= Z.of_N ROW_UPPER_BOUND /\
  RowWriter.row_upper_bound w' = u.
Proof.
  intros Hcfg Hu Hne Hw Hall.
  unfold RowWriter.write, RowWriter.maybe_finish_block, RowWriter.make in Hw.
  cbn [RowWriter.row_upper_bound RowWriter.block_start
       RowWriter.block_pos RowWriter.block_num_rows RowWriter.mem
       RowWriter.buf_pos RowWriter.self_task_id
       RowWriter.block_padded_len] in Hw.
  unfold U32.add in Hw. rewrite !Z.add_0_l in Hw.
  rewrite (U32Facts.wrap_small (Z.of_N ROW_UPPER_BOUND)) in Hw by lia.
  replace (Z.of_N MAX_BLOCK_SIZE <? Z.of_N ROW_UPPER_BOUND) with false in Hw
    by (symmetry; apply Z.ltb_ge; lia).
  cbn [bind RowWriter.row_upper_bound RowWriter.block_start
       RowWriter.block_pos RowWriter.block_num_rows RowWriter.mem
       RowWriter.buf_pos RowWriter.self_task_id
       RowWriter.block_padded_len] in Hw.
  destruct (NewRecord.write (malloc MAX_BLOCK_SIZE junk) 0 row)
    as [[delta blk]|] eqn:E; [|cbn [bind] in Hw; discriminate].
  cbn [bind fst snd] in Hw. change (0 =? 0) with true in Hw.
  cbv iota in Hw. unfold check in Hw.
  destruct (delta <=? Z.of_N ROW_UPPER_BOUND) eqn:Ed;
    [|cbn [bind] in Hw; discriminate].
  cbn [bind] in Hw. rewrite Hu in Hw. cbn [bind] in Hw.
  injection Hw as <-.
  assert (Hd : delta = NewRecord.row_length row).
  { unfold NewRecord.write in E. inv_bind E. injection E as <- _.
    reflexivity. }
  apply write_all_keeps_bound in Hall; [|cbn; exact Hne].
  rewrite Hall. cbn. apply Z.leb_le in Ed. repeat split; auto. lia.
Qed.

End WriterPadding.

(** ** Aggregation over runs of records *)

Section AggregationRuns.
  Context {lim : Limits} {types : TypeTable}.



(** Copying a row into a buffer, and the copy into the same buffer
    again, gives the copy. *)
Lemma record_set_again (record d a : NewRecord.t) :
  NewRecord.set record d = Ok a -> NewRecord.set a d = Ok a.
Proof.
  unfold NewRecord.set. intros H.
  destruct (load 0 (NewRecord.row_length record) (NewRecord.row record))
    as [bs|] eqn:El; [|discriminate]. cbn [bind] in H.
  destruct (store 0 bs (NewRecord.row d)) as [m|] eqn:Es; [|discriminate].
  cbn [bind] in H. injection H as <-.
  cbn [NewRecord.row NewRecord.row_length].
  pose proof (load_store_same _ _ _ _ Es) as L.
  rewrite (length_load _ _ _ _ El) in L. rewrite L. cbn [bind].
  rewrite Es. reflexivity.
Qed.

#[export, refine] Instance GroupBy_fresh (Column : Z)
  : FreshKeyLaws GroupBy.t (GB := GroupBy_type Column) := { }.
Proof.
  - intros other. reflexivity.
  - intros g. cbn. unfold GroupBy.equals. cbn.
    destruct (GroupBy.attr g); reflexivity.
  - cbn. unfold GroupBy.of_record, GroupBy.set. intros record k H.
    inv_bind H. injection H as <-. cbn [GroupBy.row GroupBy.make].
    rewrite (record_set_again _ _ _ E). cbn [bind]. rewrite E0.
    reflexivity.
Qed.

#[export, refine] Instance GroupBy2_fresh (Column1 Column2 : Z)
  : FreshKeyLaws GroupBy2.t (GB := GroupBy2_type Column1 Column2) := { }.
Proof.
  - intros other. reflexivity.
  - intros g. cbn. unfold GroupBy2.equals. cbn.
    destruct (GroupBy2.attr1 g); reflexivity.
  - cbn. unfold GroupBy2.of_record, GroupBy2.set. intros record k H.
    inv_bind H. injection H as <-. cbn [GroupBy2.row GroupBy2.make].
    rewrite (record_set_again _ _ _ E). cbn [bind]. rewrite E0.
    reflexivity.
Qed.






#[export, refine] Instance AggPair_laws {A1 A2 : Type}
    {AG1 : AggType A1} {AG2 : AggType A2}
    {AL1 : AggLaws A1} {AL2 : AggLaws A2}
  : AggLaws (A1 * A2) (AG := AggPair) := {
  agg_wf a := agg_wf (fst a) /\ agg_wf (snd a)
}.
Proof.
  - intros a. cbn. split; apply agg_wf_zero.
  - cbn. intros record a a' H. inv_bind H. injection H as <-. cbn.
    split; eapply agg_wf_add_record; eauto.
  - intros x [a1 a2] [H1 H2]. cbn in *.
    rewrite !agg_add_zero by assumption. reflexivity.
  - intros record [b1 b2] [a1 a2]. cbn.
    rewrite !agg_add_record_add.
    destruct (agg_add_record record b1) as [x1|]; [|reflexivity]. cbn [bind].
    destruct (agg_add_record record b2) as [x2|]; reflexivity.
Defined.








(** X5. For a record that is not a dummy, [grouping_attrs_equal(record)]
    tells what [aggregate(record)] does: on true the record joins the
    current group, [num_distinct] and the group stay; on false
    [num_distinct] grows by one. *)
Theorem grouping_attrs_equal_predicts_aggregate
    {G A1 A2 : Type} {GB : GroupByType G}
    {AG1 : AggType A1} {AG2 : AggType A2}
    (record : NewRecord.t) (b : bool) :
  NewRecord.is_dummy record = Ok false ->
  (forall s s' : Aggregator1.t G A1,
     Aggregator1.grouping_attrs_equal_record record s = Ok b ->
     Aggregator1.aggregate record s = Ok s' ->
     Aggregator1.num_distinct s'
     = (if b then Aggregator1.num_distinct s
        else U32.incr (Aggregator1.num_distinct s)) /\
     (b = true -> Aggregator1.g s' = Aggregator1.g s)) /\
  (forall s s' : Aggregator2.t G A1 A2,
     Aggregator2.grouping_attrs_equal_record record s = Ok b ->
     Aggregator2.aggregate record s = Ok s' ->
     Aggregator2.num_distinct s'
     = (if b then Aggregator2.num_distinct s
        else U32.incr (Aggregator2.num_distinct s)) /\
     (b = true -> Aggregator2.g s' = Aggregator2.g s)).
Proof.
  intros Hd. split; intros s s' Hg Ha.
  - unfold Aggregator1.grouping_attrs_equal_record in Hg.
    rewrite Hd in Hg. cbn [bind] in Hg.
    unfold Aggregator1.aggregate in Ha.
    destruct (gb_of_record record) as [g2|]; [|discriminate].
    cbn [bind] in Hg, Ha. rewrite Hg in Ha. cbn [bind] in Ha.
    destruct b; inv_bind Ha; injection Ha as <-; cbn; split; congruence.
  - unfold Aggregator2.grouping_attrs_equal_record in Hg.
    rewrite Hd in Hg. cbn [bind] in Hg.
    unfold Aggregator2.aggregate in Ha.
    destruct (gb_of_record record) as [g2|]; [|discriminate].
    cbn [bind] in Hg, Ha. rewrite Hg in Ha. cbn [bind] in Ha.
    destruct b; inv_bind Ha; injection Ha as <-; cbn; split; congruence.
Qed.

(** X6. Combining with an aggregator that has seen no record fails with a
    grouping mismatch, whichever side is the fresh one. *)
Theorem aggregate_other_fresh_fails
    {G A1 A2 : Type} {GB : GroupByType G} {FL : FreshKeyLaws G}
    {AG1 : AggType A1} {AG2 : AggType A2} :
  (forall s : Aggregator1.t G A1,
     Aggregator1.aggregate_other Aggregator1.make s = Err GroupingMismatch /\
     Aggregator1.aggregate_other s Aggregator1.make = Err GroupingMismatch) /\
  (forall s : Aggregator2.t G A1 A2,
     Aggregator2.aggregate_other Aggregator2.make s = Err GroupingMismatch /\
     Aggregator2.aggregate_other s Aggregator2.make = Err GroupingMismatch).
Proof.
  split; intros s; split.
  - unfold Aggregator1.aggregate_other, Aggregator1.grouping_attrs_equal.
    cbn [Aggregator1.make Aggregator1.g]. rewrite gb_equals_new. reflexivity.
  - unfold Aggregator1.aggregate_other, Aggregator1.grouping_attrs_equal.
    cbn [Aggregator1.make Aggregator1.g]. rewrite gb_new_equals. reflexivity.
  - unfold Aggregator2.aggregate_other, Aggregator2.grouping_attrs_equal.
    cbn [Aggregator2.make Aggregator2.g]. rewrite gb_equals_new. reflexivity.
  - unfold Aggregator2.aggregate_other, Aggregator2.grouping_attrs_equal.
    cbn [Aggregator2.make Aggregator2.g]. rewrite gb_new_equals. reflexivity.
Qed.


Lemma u32_add_wrap (t v : Z) : U32.add (U32.wrap t) v = U32.wrap (t + v).
Proof.
  unfold U32.add, U32.wrap, U32.modulus. rewrite Zplus_mod_idemp_l.
  reflexivity.
Qed.

Lemma sum_adds_from (Column : Z) (rs : list NewRecord.t) (vs : list Z) :
  Forall2 (fun r v => column_value Column r = Ok v) rs vs ->
  forall t : Z,
    agg_add_records (AG := Sum_type Column) rs (Sum.mk (U32.wrap t))
    = Ok (Sum.mk (U32.wrap (t + fold_right Z.add 0 vs))).
Proof.
  induction 1 as [|r v rs vs Hv Hall IH]; intros t.
  - cbn. rewrite Z.add_0_r. reflexivity.
  - cbn [agg_add_records agg_add_record Sum_type].
    unfold Sum.add_record. unfold column_value in Hv.
    destruct (NewRecord.get_attr_value r Column) as [p|]; [|discriminate].
    cbn [bind] in *. cbn [ct_load uint32_column]. rewrite Hv. cbn [bind].
    cbn [Sum.sum ct_add uint32_column].
    rewrite u32_add_wrap, IH. cbn [fold_right]. do 3 f_equal. lia.
Qed.

Lemma avg_adds_from (Column : Z) (rs : list NewRecord.t) (vs : list Z) :
  Forall2 (fun r v => column_value Column r = Ok v) rs vs ->
  forall t c : Z,
    agg_add_records (AG := Avg_type Column) rs
      (Avg.mk (U32.wrap t) (U32.wrap c))
    = Ok (Avg.mk (U32.wrap (t + fold_right Z.add 0 vs))
            (U32.wrap (c + Z.of_nat (length rs)))).
Proof.
  induction 1 as [|r v rs vs Hv Hall IH]; intros t c.
  - cbn. rewrite !Z.add_0_r. reflexivity.
  - cbn [agg_add_records agg_add_record Avg_type].
    unfold Avg.add_record. unfold column_value in Hv.
    destruct (NewRecord.get_attr_value r Column) as [p|]; [|discriminate].
    cbn [bind] in *. cbn [ct_load uint32_column]. rewrite Hv. cbn [bind].
    cbn [Avg.sum Avg.count ct_add uint32_column].
    rewrite u32_add_wrap, incr_wrap, IH. cbn [fold_right length].
    f_equal. f_equal; f_equal; lia.
Qed.

(** X8. Over [uint32_t], the records added to a zeroed [Sum] leave the sum
    of their column values modulo [2^32]; added to a zeroed [Avg] they
    leave that sum and their number, both modulo [2^32]. *)
Theorem sum_avg_totals (Column : Z) (rs : list NewRecord.t) (vs : list Z)
    (a : Sum.t Z) (b : Avg.t Z) :
  Forall2 (fun r v => column_value Column r = Ok v) rs vs ->
  agg_add_records (AG := Sum_type Column) rs (Sum.zero a)
  = Ok (Sum.mk (sum32 vs)) /\
  agg_add_records (AG := Avg_type Column) rs (Avg.zero b)
  = Ok (Avg.mk (sum32 vs) (U32.wrap (Z.of_nat (length rs)))).
Proof.
  intros H. split.
  - exact (sum_adds_from Column rs vs H 0).
  - exact (avg_adds_from Column rs vs H 0 0).
Qed.

End AggregationRuns.

(** ** The bulk block reader: what a run of reads does *)

Section ReaderRuns.
  Context {lim : Limits} {types : TypeTable} {cipher : Cipher}.

Lemma read_rows_sink (n : nat) :
  forall (row : NewRecord.t) (r : RowReader.t) (rows : list NewRecord.t)
         (r' : RowReader.t),
    RowReader.read_rows n row r = Ok (rows, r') ->
    RowReader.verify_set r' = RowReader.verify_set r.
Proof.
  induction n as [|n IH]; intros row r rows r' H.
  - cbn in H. injection H as _ <-. reflexivity.
  - cbn [RowReader.read_rows] in H.
    destruct (RowReader.read row r) as [[row1 r1]|] eqn:E1; [|discriminate].
    cbn [bind fst snd] in H.
    destruct (RowReader.read_rows n row1 r1) as [[rows2 r2]|] eqn:E2;
      [|discriminate].
    cbn [bind fst snd] in H. injection H as _ <-.
    rewrite (IH _ _ _ _ E2). exact (read_sink _ _ _ _ E1).
Qed.

(** X9. The verify set handed to the bulk reader is never added to: it is
    the caller's set, unchanged, after the constructor and after any
    number of reads. *)
Theorem row_reader_leaves_verify_set (mem junk : list byte)
    (buf_end : option Z) (verify_set : option Verify) (n : nat)
    (row : NewRecord.t) (r r' : RowReader.t) (rows : list NewRecord.t) :
  RowReader.make mem buf_end verify_set junk = Ok r ->
  RowReader.read_rows n row r = Ok (rows, r') ->
  RowReader.verify_set r = verify_set /\
  RowReader.verify_set r' = verify_set.
Proof.
  intros Hm Hr. apply read_encrypted_block_sink in Hm. cbn in Hm.
  split; [exact Hm|]. rewrite (read_rows_sink _ _ _ _ _ Hr). exact Hm.
Qed.

(** X10. The constructor passes over blocks whose header announces no
    row, decrypting each, and stops on the first block that has rows:
    that block's plaintext is at the start of the block buffer, its row
    count is the reader's, and [buf] is at the end of its ciphertext. *)
Theorem row_reader_skips_empty_blocks (zs : list (Z * list byte))
    (post junk : list byte) (buf_end : option Z)
    (verify_set : option Verify) (n rub : Z) (ct pt : list byte) :
  Forall (fun z => Z.of_nat (length (snd z)) < U32.modulus /\
                   exists q, decrypt (snd z) = Ok q /\
                             Z.of_nat (length q) <= Z.of_N MAX_BLOCK_SIZE)
    zs ->
  0 < n < U32.modulus ->
  Z.of_nat (length ct) < U32.modulus ->
  decrypt ct = Ok pt ->
  Z.of_nat (length pt) <= Z.of_N MAX_BLOCK_SIZE ->
  exists r,
    RowReader.make
      (RowReader.zero_frames zs ++ RowReader.frame n rub ct ++ post)
      buf_end verify_set junk = Ok r /\
    RowReader.buf r
    = Z.of_nat (length (RowReader.zero_frames zs)) + 12
      + Z.of_nat (length ct) /\
    RowReader.block_num_rows r = n /\
    RowReader.block_rows_read r = 0 /\
    RowReader.block_pos r = 0 /\
    load 0 (Z.of_nat (length pt)) (RowReader.block_start r) = Ok pt /\
    RowReader.has_next r = true.
Proof.
  intros Hzs Hn Hct Hdec Hpt.
  unfold RowReader.make.
  destruct (read_encrypted_block_skips zs
              (RowReader.mk
                 (RowReader.zero_frames zs ++ RowReader.frame n rub ct ++ post)
                 0 buf_end (malloc MAX_BLOCK_SIZE junk) 0 0 0 verify_set)
              [] post n rub ct pt) as (blk & Hr & Hl).
  - reflexivity.
  - reflexivity.
  - cbn [RowReader.block_start]. rewrite length_malloc.
    eapply Forall_impl; [|exact Hzs].
    intros z (Hz & q & Hq & Hl). split; [exact Hz|].
    exists q. split; [exact Hq|lia].
  - exact Hn.
  - exact Hct.
  - exact Hdec.
  - cbn [RowReader.block_start]. rewrite length_malloc. lia.
  - eexists. split; [exact Hr|].
    cbn [RowReader.buf RowReader.block_num_rows RowReader.block_rows_read
         RowReader.block_pos RowReader.block_start RowReader.mem].
    repeat split; try lia; try exact Hl.
    unfold RowReader.has_next.
    cbn [RowReader.block_num_rows RowReader.block_rows_read].
    replace (0 <? n) with true by (symmetry; apply Z.ltb_lt; lia).
    reflexivity.
Qed.

(** *** Rows inside a decrypted block *)

Lemma load_shift (pre bs post : list byte) (p n : Z) (l : list byte) :
  load p n bs = Ok l ->
  load (Z.of_nat (length pre) + p) n (pre ++ bs ++ post) = Ok l.
Proof.
  intros H. apply load_inv in H. destruct H as (Hp & Hn & Hb & Hl & _).
  apply (load_in_app (pre ++ firstn (Z.to_nat p) bs) l
           (skipn (Z.to_nat p + Z.to_nat n) bs ++ post)).
  - rewrite <- !app_assoc. f_equal. rewrite !app_assoc. f_equal.
    rewrite Hl. rewrite <- (firstn_skipn (Z.to_nat p) bs) at 1.
    rewrite <- app_assoc. f_equal.
    rewrite <- (firstn_skipn (Z.to_nat n) (skipn (Z.to_nat p) bs)) at 1.
    f_equal. rewrite skipn_skipn. f_equal. lia.
  - rewrite length_app, length_firstn. lia.
  - rewrite Hl, length_firstn, length_skipn. lia.
Qed.

Lemma load32_shift (pre bs post : list byte) (p v : Z) :
  load32 p bs = Ok v ->
  load32 (Z.of_nat (length pre) + p) (pre ++ bs ++ post) = Ok v.
Proof.
  unfold load32. intros H.
  destruct (load p 4 bs) as [l|] eqn:E; [|discriminate].
  rewrite (load_shift pre bs post p 4 l E). exact H.
Qed.

Lemma skip_attrs_shift (fuel : nat) :
  forall (bs : list byte) (off n e : Z),
    skip_attrs fuel bs off n = Ok e ->
    forall (pre post : list byte) (fuel' : nat),
      (fuel <= fuel')%nat ->
      skip_attrs fuel' (pre ++ bs ++ post) (Z.of_nat (length pre) + off) n
      = Ok (Z.of_nat (length pre) + e).
Proof.
  induction fuel as [|fuel IH]; intros bs off n e H pre post fuel' Hf.
  - cbn in H. destruct (n <=? 0) eqn:En; [|discriminate].
    injection H as <-. destruct fuel'; cbn; rewrite En; reflexivity.
  - cbn [skip_attrs] in H. destruct (n <=? 0) eqn:En.
    + injection H as <-. destruct fuel'; cbn; rewrite En; reflexivity.
    + destruct fuel' as [|fuel']; [lia|].
      cbn [skip_attrs]. rewrite En.
      destruct (load32 (off + 1) bs) as [len|] eqn:El; [|discriminate].
      cbn [bind] in H.
      replace (Z.of_nat (length pre) + off + 1)
        with (Z.of_nat (length pre) + (off + 1)) by lia.
      rewrite (load32_shift pre bs post _ _ El). cbn [bind].
      replace (Z.of_nat (length pre) + off + 5 + len)
        with (Z.of_nat (length pre) + (off + 5 + len)) by lia.
      apply (IH bs _ _ _ H). lia.
Qed.

(** [NewRecord::read] on the bytes of a row, wherever they lie in the
    input: the record holds these bytes and their number is returned. *)
Lemma record_read_at (pre bs post : list byte) (row : NewRecord.t) :
  row_bytes_wf bs ->
  (length bs <= length (NewRecord.row row))%nat ->
  exists m,
    NewRecord.read (pre ++ bs ++ post) (Z.of_nat (length pre)) row
    = Ok (Z.of_nat (length bs), NewRecord.mk m (Z.of_nat (length bs))) /\
    load 0 (Z.of_nat (length bs)) m = Ok bs /\
    length m = length (NewRecord.row row).
Proof.
  intros (n & Hn & Hs) Hl. unfold NewRecord.read.
  pose proof (load32_shift pre bs post 0 n Hn) as Hn'.
  rewrite Z.add_0_r in Hn'. rewrite Hn'. cbn [bind].
  rewrite (skip_attrs_shift _ _ _ _ _ Hs pre post)
    by (rewrite !length_app; lia).
  cbn [bind].
  replace (Z.of_nat (length pre) + Z.of_nat (length bs)
           - Z.of_nat (length pre)) with (Z.of_nat (length bs)) by lia.
  rewrite (load_in_app pre bs post _ _ _ eq_refl eq_refl eq_refl).
  cbn [bind].
  destruct (store_this_ok 0 bs (NewRecord.row row)) as (m & Hm & Hlen);
    [lia|lia|].
  rewrite Hm. cbn [bind]. exists m. split; [reflexivity|].
  split; [|exact Hlen]. exact (load_store_same _ _ _ _ Hm).
Qed.

(** The same, with the record's buffer made explicit. *)
Lemma record_read_at_store (pre bs post m : list byte) (row : NewRecord.t) :
  row_bytes_wf bs ->
  store 0 bs (NewRecord.row row) = Ok m ->
  NewRecord.read (pre ++ bs ++ post) (Z.of_nat (length pre)) row
  = Ok (Z.of_nat (length bs), NewRecord.mk m (Z.of_nat (length bs))).
Proof.
  intros (n & Hn & Hs) Hm. unfold NewRecord.read.
  pose proof (load32_shift pre bs post 0 n Hn) as Hn'.
  rewrite Z.add_0_r in Hn'. rewrite Hn'. cbn [bind].
  rewrite (skip_attrs_shift _ _ _ _ _ Hs pre post)
    by (rewrite !length_app; lia).
  cbn [bind].
  replace (Z.of_nat (length pre) + Z.of_nat (length bs)
           - Z.of_nat (length pre)) with (Z.of_nat (length bs)) by lia.
  rewrite (load_in_app pre bs post _ _ _ eq_refl eq_refl eq_refl).
  cbn [bind]. rewrite Hm. reflexivity.
Qed.

Lemma record_read_from (tmp bs m : list byte) (pos : Z) (row : NewRecord.t) :
  row_bytes_wf bs ->
  load pos (Z.of_nat (length bs)) tmp = Ok bs ->
  store 0 bs (NewRecord.row row) = Ok m ->
  NewRecord.read tmp pos row
  = Ok (Z.of_nat (length bs), NewRecord.mk m (Z.of_nat (length bs))).
Proof.
  intros Hwf Hl Hs.
  pose proof (load_inv _ _ _ _ Hl) as (Hp & _ & Hb & Hbs & _).
  assert (Htmp : tmp = firstn (Z.to_nat pos) tmp ++ bs
                       ++ skipn (length bs) (skipn (Z.to_nat pos) tmp)).
  { rewrite Hbs at 1. rewrite Nat2Z.id.
    rewrite (firstn_skipn (length bs)). symmetry. apply firstn_skipn. }
  assert (Hpos : pos = Z.of_nat (length (firstn (Z.to_nat pos) tmp)))
    by (rewrite length_firstn; lia).
  assert (Heq : NewRecord.read tmp pos row
                = NewRecord.read
                    (firstn (Z.to_nat pos) tmp ++ bs
                     ++ skipn (length bs) (skipn (Z.to_nat pos) tmp))
                    (Z.of_nat (length (firstn (Z.to_nat pos) tmp))) row)
    by (f_equal; assumption).
  rewrite Heq. apply record_read_at_store; assumption.
Qed.

Lemma read_rows_in_block (bss : list (list byte)) :
  forall (pre post : list byte) (row : NewRecord.t) (r : RowReader.t),
    RowReader.block_start r = pre ++ concat bss ++ post ->
    RowReader.block_pos r = Z.of_nat (length pre) ->
    Forall row_bytes_wf bss ->
    Forall (fun bs => (length bs <= length (NewRecord.row row))%nat) bss ->
    0 <= RowReader.block_rows_read r ->
    RowReader.block_rows_read r + Z.of_nat (length bss)
    <= RowReader.block_num_rows r ->
    RowReader.block_num_rows r < U32.modulus ->
    exists rows r',
      RowReader.read_rows (length bss) row r = Ok (rows, r') /\
      Forall2 (fun rec bs => NewRecord.logical rec = Ok bs) rows bss /\
      RowReader.block_rows_read r'
      = RowReader.block_rows_read r + Z.of_nat (length bss) /\
      RowReader.block_num_rows r' = RowReader.block_num_rows r /\
      RowReader.buf r' = RowReader.buf r /\
      RowReader.buf_end r' = RowReader.buf_end r.
Proof.
  induction bss as [|bs bss IH]; intros pre post row r Hb Hp Hwf Hlen H0 Hn Hm.
  - exists [], r. cbn. repeat split; try lia. constructor.
  - inversion Hwf as [|? ? Hwf1 Hwf2]; subst.
    inversion Hlen as [|? ? Hlen1 Hlen2]; subst.
    cbn [length] in Hn.
    cbn [RowReader.read_rows length]. unfold RowReader.read at 1.
    unfold RowReader.maybe_advance_block.
    replace (RowReader.block_num_rows r <=? RowReader.block_rows_read r)
      with false by (symmetry; apply Z.leb_gt; lia).
    cbn [bind]. rewrite Hb, Hp. cbn [concat]. rewrite <- app_assoc.
    destruct (record_read_at pre bs (concat bss ++ post) row Hwf1 Hlen1)
      as (m & Hr & Hl & Hlm).
    rewrite Hr. cbn [bind fst snd].
    unfold U32.incr. rewrite U32Facts.wrap_small by lia.
    match goal with
    | |- context [RowReader.read_rows _ ?row1 ?r1] =>
        destruct (IH (pre ++ bs) post row1 r1) as (rows & r' & Hrr & Hf & Hk)
    end.
    + cbn [RowReader.block_start]. rewrite <- !app_assoc. reflexivity.
    + cbn [RowReader.block_pos]. rewrite length_app. lia.
    + exact Hwf2.
    + cbn [NewRecord.row]. rewrite Hlm. exact Hlen2.
    + cbn [RowReader.block_rows_read]. lia.
    + cbn [RowReader.block_rows_read RowReader.block_num_rows]. lia.
    + cbn [RowReader.block_num_rows]. exact Hm.
    + rewrite Hrr. cbn [bind fst snd].
      eexists _, r'. split; [reflexivity|].
      cbn [RowReader.block_rows_read RowReader.block_num_rows RowReader.buf
           RowReader.buf_end] in Hk.
      destruct Hk as (Hk1 & Hk2 & Hk3 & Hk4).
      repeat split; try lia; try assumption.
      constructor; [|exact Hf].
      unfold NewRecord.logical. cbn [NewRecord.row NewRecord.row_length].
      exact Hl.
Qed.

(** X11. The rows of a block come back in order.  On a buffer that starts
    with a block of [n] rows whose ciphertext decrypts to the bytes of
    these rows and padding, the constructor followed by [n] reads returns
    records holding the rows' bytes, in the order they lie in the block;
    after them, [has_next] is true exactly if [buf] is below [buf_end]. *)
Theorem row_reader_reads_block_in_order (bss : list (list byte))
    (pad post junk ct : list byte) (buf_end : option Z)
    (verify_set : option Verify) (rub : Z) (row : NewRecord.t) :
  (0 < length bss)%nat ->
  Z.of_nat (length bss) < U32.modulus ->
  Z.of_nat (length ct) < U32.modulus ->
  decrypt ct = Ok (concat bss ++ pad) ->
  Z.of_nat (length (concat bss ++ pad)) <= Z.of_N MAX_BLOCK_SIZE ->
  Forall row_bytes_wf bss ->
  Forall (fun bs => (length bs <= length (NewRecord.row row))%nat) bss ->
  exists r rows r',
    RowReader.make
      (RowReader.frame (Z.of_nat (length bss)) rub ct ++ post)
      buf_end verify_set junk = Ok r /\
    RowReader.read_rows (length bss) row r = Ok (rows, r') /\
    Forall2 (fun rec bs => NewRecord.logical rec = Ok bs) rows bss /\
    RowReader.buf r' = 12 + Z.of_nat (length ct) /\
    RowReader.has_next r'
    = match buf_end with
      | Some e => 12 + Z.of_nat (length ct) <? e
      | None => false
      end.
Proof.
  intros Hpos Hn Hct Hdec Hpt Hwf Hlen.
  destruct (read_encrypted_block_skips []
              (RowReader.mk
                 (RowReader.frame (Z.of_nat (length bss)) rub ct ++ post)
                 0 buf_end (malloc MAX_BLOCK_SIZE junk) 0 0 0 verify_set)
              [] post (Z.of_nat (length bss)) rub ct (concat bss ++ pad))
    as (blk & Hr & Hl); try reflexivity; try assumption.
  - constructor.
  - lia.
  - cbn [RowReader.block_start]. rewrite length_malloc. lia.
  - unfold RowReader.make. rewrite Hr.
    apply load_inv in Hl. destruct Hl as (_ & _ & Hb & Hl & _).
    assert (Hblk : blk = [] ++ concat bss
                         ++ (pad ++ skipn (length (concat bss ++ pad)) blk)).
    { cbn [app]. rewrite app_assoc.
      rewrite <- (firstn_skipn (length (concat bss ++ pad)) blk) at 1.
      f_equal. rewrite Hl at 2. cbn. rewrite Nat2Z.id. reflexivity. }
    match goal with
    | |- context [Ok ?r0 = Ok _] =>
        destruct (read_rows_in_block bss [] _ row r0 Hblk)
          as (rows & r' & Hrr & Hf & Hk1 & Hk2 & Hk3 & Hk4)
    end; try assumption; cbn; try lia.
    exists
      (RowReader.mk (RowReader.frame (Z.of_nat (length bss)) rub ct ++ post)
         (0 + Z.of_nat (length (RowReader.zero_frames [])) + 12
          + Z.of_nat (length ct)) buf_end blk 0 (Z.of_nat (length bss)) 0
         verify_set), rows, r'.
    split; [reflexivity|]. split; [exact Hrr|]. split; [exact Hf|].
    cbn in Hk1, Hk2, Hk3, Hk4.
    split; [rewrite Hk3; cbn; lia|].
    unfold RowReader.has_next. rewrite Hk1, Hk2, Hk3, Hk4.
    rewrite Z.ltb_irrefl. cbn [orb].
    destruct buf_end; [|reflexivity]. f_equal.
Qed.

(** *** Rows across blocks *)

Lemma read_encrypted_block_loop_length (fuel : nat) :
  forall r r' : RowReader.t,
    RowReader.read_encrypted_block_loop fuel r = Ok r' ->
    length (RowReader.block_start r') = length (RowReader.block_start r).
Proof.
  induction fuel as [|fuel IH]; intros r r' H; [discriminate|].
  cbn [RowReader.read_encrypted_block_loop] in H. inv_bind H.
  apply length_store in E3.
  destruct (0 <? a0).
  - injection H as <-. cbn. exact E3.
  - apply IH in H. cbn in H. congruence.
Qed.

Lemma read_encrypted_block_fields (r r' : RowReader.t) :
  RowReader.read_encrypted_block r = Ok r' ->
  RowReader.mem r' = RowReader.mem r /\
  length (RowReader.block_start r') = length (RowReader.block_start r).
Proof.
  unfold RowReader.read_encrypted_block. intros H. inv_bind H.
  injection H as <-. cbn. split.
  - apply read_encrypted_block_loop_sink in E. tauto.
  - exact (read_encrypted_block_loop_length _ _ _ E).
Qed.

Lemma read_fields (row row' : NewRecord.t) (r r' : RowReader.t) :
  RowReader.read row r = Ok (row', r') ->
  RowReader.mem r' = RowReader.mem r /\
  length (RowReader.block_start r') = length (RowReader.block_start r) /\
  length (NewRecord.row row') = length (NewRecord.row row).
Proof.
  unfold RowReader.read. intros H. inv_bind H. injection H as <- <-.
  cbn [RowReader.mem RowReader.block_start].
  assert (Ha : RowReader.mem a = RowReader.mem r /\
               length (RowReader.block_start a)
               = length (RowReader.block_start r)).
  { unfold RowReader.maybe_advance_block in E.
    destruct (RowReader.block_num_rows r <=? RowReader.block_rows_read r).
    - exact (read_encrypted_block_fields _ _ E).
    - injection E as <-. split; reflexivity. }
  destruct Ha as (Ha1 & Ha2). split; [exact Ha1|]. split; [exact Ha2|].
  unfold NewRecord.read in E0. inv_bind E0. injection E0 as <-.
  cbn [snd NewRecord.row]. exact (length_store _ _ _ _ E4).
Qed.

Lemma last_default (l : list NewRecord.t) :
  forall y d d' : NewRecord.t, last (y :: l) d = last (y :: l) d'.
Proof.
  induction l as [|x l IH]; intros y d d'; [reflexivity|].
  change (last (y :: x :: l) d) with (last (x :: l) d).
  change (last (y :: x :: l) d') with (last (x :: l) d').
  apply IH.
Qed.

Lemma last_cons (x : NewRecord.t) (l : list NewRecord.t) (d : NewRecord.t) :
  last (x :: l) d = last l x.
Proof.
  destruct l as [|y l]; [reflexivity|].
  change (last (x :: y :: l) d) with (last (y :: l) d).
  apply last_default.
Qed.

Lemma read_rows_fields (n : nat) :
  forall (row : NewRecord.t) (r : RowReader.t)
         (rows : list NewRecord.t) (r' : RowReader.t),
    RowReader.read_rows n row r = Ok (rows, r') ->
    RowReader.mem r' = RowReader.mem r /\
    length (RowReader.block_start r') = length (RowReader.block_start r) /\
    length (NewRecord.row (last rows row)) = length (NewRecord.row row).
Proof.
  induction n as [|n IH]; intros row r rows r' H.
  - cbn in H. injection H as <- <-. repeat split.
  - cbn [RowReader.read_rows] in H.
    destruct (RowReader.read row r) as [[row1 r1]|] eqn:E1; [|discriminate].
    cbn [bind fst snd] in H.
    destruct (RowReader.read_rows n row1 r1) as [[rows2 r2]|] eqn:E2;
      [|discriminate].
    cbn [bind fst snd] in H. injection H as <- <-.
    rewrite last_cons.
    destruct (IH _ _ _ _ E2) as (i1 & i2 & i3).
    destruct (read_fields _ _ _ _ E1) as (f1 & f2 & f3).
    repeat split; congruence.
Qed.

(** A read that has to advance is the read from the block advanced to. *)
Lemma read_after_advance (row : NewRecord.t) (r r1 : RowReader.t) :
  RowReader.block_num_rows r <= RowReader.block_rows_read r ->
  RowReader.read_encrypted_block r = Ok r1 ->
  RowReader.block_rows_read r1 < RowReader.block_num_rows r1 ->
  RowReader.read row r = RowReader.read row r1.
Proof.
  intros Hdone Hadv Hrows. unfold RowReader.read, RowReader.maybe_advance_block.
  replace (RowReader.block_num_rows r <=? RowReader.block_rows_read r)
    with true by (symmetry; apply Z.leb_le; exact Hdone).
  replace (RowReader.block_num_rows r1 <=? RowReader.block_rows_read r1)
    with false by (symmetry; apply Z.leb_gt; exact Hrows).
  rewrite Hadv. reflexivity.
Qed.

Lemma read_rows_app (n m : nat) :
  forall (row : NewRecord.t) (r : RowReader.t),
    RowReader.read_rows (n + m) row r
    = (p <- RowReader.read_rows n row r ;;
       q <- RowReader.read_rows m (last (fst p) row) (snd p) ;;
       Ok (fst p ++ fst q, snd q)).
Proof.
  induction n as [|n IH]; intros row r.
  - cbn [Nat.add RowReader.read_rows bind fst snd last app].
    destruct (RowReader.read_rows m row r) as [[rows r']|]; reflexivity.
  - cbn [Nat.add RowReader.read_rows].
    destruct (RowReader.read row r) as [[row1 r1]|]; [|reflexivity].
    cbn [bind fst snd]. rewrite IH.
    destruct (RowReader.read_rows n row1 r1) as [[rows r2]|]; [|reflexivity].
    cbn [bind fst snd]. rewrite last_cons.
    destruct (RowReader.read_rows m (last rows row1) r2) as [[rows' r3]|];
      reflexivity.
Qed.

(** From a reader that has used up its block, the rows of the next block
    come back in order, and the reader has used up that block. *)
Lemma read_block_rows (b : reader_block) (pre post : list byte)
    (row : NewRecord.t) (r : RowReader.t) :
  RowReader.mem r = pre ++ block_frame b ++ post ->
  RowReader.buf r = Z.of_nat (length pre) ->
  RowReader.block_num_rows r <= RowReader.block_rows_read r ->
  length (RowReader.block_start r) = N.to_nat MAX_BLOCK_SIZE ->
  block_ok (length (NewRecord.row row)) b ->
  exists rows r' r1,
    RowReader.read_encrypted_block r = Ok r1 /\
    RowReader.read_rows (length (blk_rows b)) row r1 = Ok (rows, r') /\
    RowReader.read_rows (length (blk_rows b)) row r = Ok (rows, r') /\
    Forall2 (fun rec bs => NewRecord.logical rec = Ok bs) rows (blk_rows b) /\
    RowReader.buf r' = Z.of_nat (length (pre ++ block_frame b)) /\
    RowReader.block_num_rows r' <= RowReader.block_rows_read r'.
Proof.
  intros Hmem Hbuf Hdone Hlen (Hpos & Hn & Hct & Hdec & Hpt & Hwf & Hcap).
  destruct (read_encrypted_block_skips [] r pre post
              (Z.of_nat (length (blk_rows b))) (blk_rub b) (blk_ct b)
              (concat (blk_rows b) ++ blk_pad b))
    as (blk & Hr & Hl); try assumption.
  - constructor.
  - lia.
  - lia.
  - apply load_inv in Hl. destruct Hl as (_ & _ & Hb & Hl & _).
    assert (Hsplit : blk = [] ++ concat (blk_rows b)
                           ++ (blk_pad b
                               ++ skipn (length (concat (blk_rows b)
                                                 ++ blk_pad b)) blk)).
    { cbn [app]. rewrite app_assoc.
      rewrite <- (firstn_skipn (length (concat (blk_rows b) ++ blk_pad b))
                    blk) at 1.
      f_equal. rewrite Hl at 2. cbn. rewrite Nat2Z.id. reflexivity. }
    match type of Hr with
    | _ = Ok ?r1 =>
        destruct (read_rows_in_block (blk_rows b) [] _ row r1 Hsplit)
          as (rows & r' & Hrr & Hf & Hk1 & Hk2 & Hk3 & Hk4);
          [solve [assumption | cbn; lia] .. | exists rows, r', r1]
    end.
    split; [exact Hr|]. split; [exact Hrr|].
    cbn in Hk1, Hk2, Hk3, Hk4.
    split.
    { rewrite <- Hrr. destruct (length (blk_rows b)) as [|k] eqn:Ek; [lia|].
      cbn [RowReader.read_rows].
      rewrite (read_after_advance row r _ Hdone Hr); [reflexivity|].
      cbn. lia. }
    split; [exact Hf|].
    split.
    { rewrite Hk3, Hbuf, length_app. unfold block_frame.
      rewrite length_frame. lia. }
    lia.
Qed.

Lemma read_all_blocks (blocks : list reader_block) :
  forall (pre post : list byte) (row : NewRecord.t) (r : RowReader.t),
    RowReader.mem r = pre ++ concat (map block_frame blocks) ++ post ->
    RowReader.buf r = Z.of_nat (length pre) ->
    RowReader.block_num_rows r <= RowReader.block_rows_read r ->
    length (RowReader.block_start r) = N.to_nat MAX_BLOCK_SIZE ->
    Forall (block_ok (length (NewRecord.row row))) blocks ->
    exists rows r',
      RowReader.read_rows (length (concat (map blk_rows blocks))) row r
      = Ok (rows, r') /\
      Forall2 (fun rec bs => NewRecord.logical rec = Ok bs) rows
        (concat (map blk_rows blocks)) /\
      RowReader.buf r'
      = Z.of_nat (length (pre ++ concat (map block_frame blocks))) /\
      RowReader.block_num_rows r' <= RowReader.block_rows_read r'.
Proof.
  induction blocks as [|b blocks IH]; intros pre post row r Hmem Hbuf Hdone
    Hlen Hok.
  - exists [], r. cbn. rewrite app_nil_r.
    repeat split; auto using Forall2_nil.
  - inversion Hok as [|? ? Hb Hbs]; subst.
    cbn [map concat] in *. rewrite <- app_assoc in Hmem.
    destruct (read_block_rows b pre _ row r Hmem Hbuf Hdone Hlen Hb)
      as (rows1 & r1 & r0 & _ & _ & Hrr & Hf1 & Hbuf1 & Hdone1).
    destruct (read_rows_fields _ _ _ _ _ Hrr) as (Hm1 & Hl1 & Hc1).
    destruct (IH (pre ++ block_frame b) post (last rows1 row) r1)
      as (rows2 & r2 & Hrr2 & Hf2 & Hbuf2 & Hdone2).
    + rewrite Hm1, Hmem, <- !app_assoc. reflexivity.
    + exact Hbuf1.
    + exact Hdone1.
    + congruence.
    + rewrite Hc1. exact Hbs.
    + exists (rows1 ++ rows2), r2. rewrite length_app, read_rows_app.
      rewrite Hrr. cbn [bind fst snd]. rewrite Hrr2. cbn [bind fst snd].
      split; [reflexivity|]. split; [apply Forall2_app; assumption|].
      split; [rewrite Hbuf2, <- app_assoc; reflexivity|exact Hdone2].
Qed.

(** X23. Rows come back in order across blocks.  On a buffer of blocks
    that each have rows, the constructor followed by as many reads as
    there are rows returns records holding the rows of the first block,
    then those of the second, and so on, and [buf] ends after the last
    block. *)
Theorem row_reader_reads_all_blocks (b : reader_block)
    (blocks : list reader_block) (post junk : list byte)
    (buf_end : option Z) (verify_set : option Verify) (row : NewRecord.t) :
  Forall (block_ok (length (NewRecord.row row))) (b :: blocks) ->
  exists r rows r',
    RowReader.make (concat (map block_frame (b :: blocks)) ++ post)
      buf_end verify_set junk = Ok r /\
    RowReader.read_rows (length (concat (map blk_rows (b :: blocks)))) row r
    = Ok (rows, r') /\
    Forall2 (fun rec bs => NewRecord.logical rec = Ok bs) rows
      (concat (map blk_rows (b :: blocks))) /\
    RowReader.buf r'
    = Z.of_nat (length (concat (map block_frame (b :: blocks)))).
Proof.
  intros Hok. inversion Hok as [|? ? Hb Hbs]; subst.
  set (r0 := RowReader.mk (concat (map block_frame (b :: blocks)) ++ post)
               0 buf_end (malloc MAX_BLOCK_SIZE junk) 0 0 0 verify_set).
  assert (Hmem : RowReader.mem r0
                 = [] ++ block_frame b
                   ++ (concat (map block_frame blocks) ++ post))
    by (cbn; rewrite <- app_assoc; reflexivity).
  destruct (read_block_rows b [] _ row r0 Hmem eq_refl)
    as (rows1 & r1 & r & Hadv & Hrr1 & Hrr & Hf1 & Hbuf1 & Hdone1);
    [cbn; lia|cbn; apply length_malloc|exact Hb|].
  destruct (read_rows_fields _ _ _ _ _ Hrr) as (Hm1 & Hl1 & Hc1).
  destruct (read_all_blocks blocks ([] ++ block_frame b) post
              (last rows1 row) r1)
    as (rows2 & r2 & Hrr2 & Hf2 & Hbuf2 & Hdone2).
  - rewrite Hm1, Hmem, <- !app_assoc. reflexivity.
  - exact Hbuf1.
  - exact Hdone1.
  - rewrite Hl1. cbn. apply length_malloc.
  - rewrite Hc1. exact Hbs.
  - exists r, (rows1 ++ rows2), r2.
    split; [exact Hadv|].
    cbn [map concat]. rewrite length_app, read_rows_app.
    rewrite Hrr1. cbn [bind fst snd]. rewrite Hrr2. cbn [bind fst snd].
    split; [reflexivity|]. split; [apply Forall2_app; assumption|].
    rewrite Hbuf2. reflexivity.
Qed.

End ReaderRuns.

(** ** The streaming writer and reader: the block header *)

Section StreamFraming.
  Context {lim : Limits} {types : TypeTable}.
  Context {suite : StreamSuite} {tasks : TaskIds}.

Lemma add_parent_incl (task_id : Z) (s : list Z) :
  incl s (StreamRowReader.add_parent task_id s) /\
  In task_id (StreamRowReader.add_parent task_id s) /\
  (NoDup s -> NoDup (StreamRowReader.add_parent task_id s)).
Proof.
  unfold StreamRowReader.add_parent.
  destruct (existsb (Z.eqb task_id) s) eqn:E.
  - split; [apply incl_refl|]. split; [|auto].
    apply existsb_exists in E. destruct E as (x & Hx & Hex).
    apply Z.eqb_eq in Hex. subst x. exact Hx.
  - split; [apply incl_tl, incl_refl|]. split; [left; reflexivity|].
    intros Hnd. constructor; [|exact Hnd].
    intros Hin.
    assert (Ht : existsb (Z.eqb task_id) s = true)
      by (apply existsb_exists; exists task_id; split;
          [exact Hin|apply Z.eqb_refl]).
    congruence.
Qed.

Lemma stream_read_bytes_fields (n : Z) (r r' : StreamRowReader.t)
    (bs : list byte) :
  StreamRowReader.read_bytes n r = Ok (bs, r') ->
  StreamRowReader.verify_set r' = StreamRowReader.verify_set r /\
  StreamRowReader.mem r' = StreamRowReader.mem r /\
  StreamRowReader.buf r' = StreamRowReader.buf r.
Proof.
  unfold StreamRowReader.read_bytes. intros H.
  destruct (StreamRowReader.cipher r); [|discriminate].
  destruct (StreamDecipher.decrypt n t) as [p|]; [|discriminate].
  cbn in H. injection H as _ <-. cbn. repeat split.
Qed.

Lemma stream_read_attrs_fields (fuel : nat) :
  forall (n : Z) (acc : list byte) (r r' : StreamRowReader.t)
         (bs : list byte),
    StreamRowReader.read_attrs fuel n acc r = Ok (bs, r') ->
    StreamRowReader.verify_set r' = StreamRowReader.verify_set r /\
    StreamRowReader.mem r' = StreamRowReader.mem r /\
    StreamRowReader.buf r' = StreamRowReader.buf r.
Proof.
  induction fuel as [|fuel IH]; intros n acc r r' bs H.
  - cbn in H. destruct (n <=? 0); [|discriminate].
    injection H as _ <-. repeat split.
  - cbn [StreamRowReader.read_attrs] in H. destruct (n <=? 0).
    + injection H as _ <-. repeat split.
    + destruct (StreamRowReader.read_bytes 5 r) as [[h r1]|] eqn:E1;
        [|discriminate].
      cbn [bind fst snd] in H.
      destruct (StreamRowReader.read_bytes (U32.decode (skipn 1 h)) r1)
        as [[v r2]|] eqn:E2; [|discriminate].
      cbn [bind fst snd] in H.
      apply IH in H. apply stream_read_bytes_fields in E1, E2.
      destruct H as (? & ? & ?), E1 as (? & ? & ?), E2 as (? & ? & ?).
      repeat split; congruence.
Qed.

Lemma stream_read_row_fields (row row' : NewRecord.t)
    (r r' : StreamRowReader.t) (n : Z) :
  StreamRowReader.read_row row r = Ok (n, row', r') ->
  StreamRowReader.verify_set r' = StreamRowReader.verify_set r /\
  StreamRowReader.mem r' = StreamRowReader.mem r /\
  StreamRowReader.buf r' = StreamRowReader.buf r.
Proof.
  unfold StreamRowReader.read_row. intros H.
  destruct (StreamRowReader.read_bytes 4 r) as [[h r1]|] eqn:E1;
    [|discriminate].
  cbn [bind fst snd] in H.
  match type of H with
  | context [StreamRowReader.read_attrs ?f ?k ?a ?x] =>
      destruct (StreamRowReader.read_attrs f k a x) as [[bs r2]|] eqn:E2;
        [|discriminate]
  end.
  cbn [bind fst snd] in H.
  destruct (store 0 bs (NewRecord.row row)); [|discriminate].
  cbn [bind] in H. injection H as _ _ <-.
  apply stream_read_bytes_fields in E1. apply stream_read_attrs_fields in E2.
  destruct E1 as (? & ? & ?), E2 as (? & ? & ?). repeat split; congruence.
Qed.

(** X12. The streaming reader follows the streaming writer's framing: on
    the output of [finish_block], a reader positioned where the block
    starts takes the writer's row count as [block_num_rows], inserts the
    writer's task identifier into its verify set, and leaves [buf] where
    the writer's [buf_pos] is, at the start of the next block. *)
Theorem stream_reader_follows_writer_framing (mem : list byte)
    (ops : list StreamRowWriter.op) (w w' : StreamRowWriter.t)
    (r : StreamRowReader.t) :
  StreamRowWriter.run ops (StreamRowWriter.make mem) = Ok w ->
  StreamRowWriter.finish_block w = Ok w' ->
  StreamRowWriter.buf_pos w' <= Z.of_nat (length (StreamRowWriter.mem w')) ->
  StreamRowReader.mem r = StreamRowWriter.mem w' ->
  StreamRowReader.buf r = StreamRowWriter.buf_pos w ->
  exists r',
    StreamRowReader.read_encrypted_block r = Ok r' /\
    StreamRowReader.buf r' = StreamRowWriter.buf_pos w' /\
    StreamRowReader.block_num_rows r'
    = U32.wrap (StreamRowWriter.block_num_rows w) /\
    StreamRowReader.block_rows_read r' = 0 /\
    StreamRowReader.verify_set r'
    = StreamRowReader.add_parent
        (U32.wrap (task_id_parser (StreamRowWriter.opcode w)
                     (StreamRowWriter.part w)))
        (StreamRowReader.verify_set r).
Proof.
  intros Hrun Hf Hroom Hmem Hbuf.
  destruct (run_invariant ops _ _ Hrun) as [_ Hout];
    [split; reflexivity|].
  destruct (finish_block_layout w w' Hf Hout) as (H16 & Hrows & _).
  destruct (finish_block_inv w w' Hf) as (_ & _ & _ & Hpos).
  set (ct := stream_encrypt (StreamCipher.fed (StreamRowWriter.cipher w)))
    in *.
  set (p := StreamRowWriter.buf_pos w) in *.
  pose proof (load_inv _ _ _ _ H16) as (Hp & _ & Hlen & _).
  assert (H0 : load32 p (StreamRowWriter.mem w')
               = Ok (U32.wrap (Z.of_nat (length ct)))).
  { unfold load32.
    pose proof (load_prefix p 16 4 _ _ H16 ltac:(lia)) as H4.
    rewrite H4. cbn [bind]. f_equal.
    change (firstn (Z.to_nat 4)
              (U32.encode (U32.wrap (Z.of_nat (length ct))) ++ _))
      with (U32.encode (U32.wrap (Z.of_nat (length ct)))).
    rewrite U32Facts.decode_encode. apply wrap_wrap. }
  assert (H12 : load32 (p + 12) (StreamRowWriter.mem w')
                = Ok (U32.wrap (task_id_parser (StreamRowWriter.opcode w)
                                  (StreamRowWriter.part w)))).
  { unfold load32.
    pose proof (load_suffix p 16 12 _ _ H16 ltac:(lia)) as H4.
    change (16 - 12) with 4 in H4. rewrite H4. cbn [bind]. f_equal.
    change (skipn (Z.to_nat 12)
              (U32.encode (U32.wrap (Z.of_nat (length ct))) ++
               U32.encode (StreamRowWriter.block_num_rows w) ++
               U32.encode (Z.of_N ROW_UPPER_BOUND) ++
               U32.encode (task_id_parser (StreamRowWriter.opcode w)
                             (StreamRowWriter.part w))))
      with (U32.encode (task_id_parser (StreamRowWriter.opcode w)
                          (StreamRowWriter.part w))).
    apply U32Facts.decode_encode. }
  unfold StreamRowReader.read_encrypted_block.
  rewrite Hmem, Hbuf. fold p.
  rewrite H0. cbn [bind]. rewrite Hrows. cbn [bind].
  rewrite H12. cbn [bind].
  pose proof (U32Facts.wrap_range (Z.of_nat (length ct))) as Hw.
  rewrite load_ok by lia. cbn [bind].
  eexists. split; [reflexivity|]. cbn. repeat split. lia.
Qed.

(** X13. The verify set of the streaming reader only grows, stays free of
    duplicates, and holds the task identifier of every block the reader
    enters: the constructor leaves exactly the identifier in the first
    header, and a read that moves to the next block inserts the identifier
    in that block's header. *)
Theorem stream_reader_records_block_tasks :
  (forall (mem : list byte) (buf_end : option Z) (r : StreamRowReader.t),
     StreamRowReader.make mem buf_end = Ok r ->
     exists task_id,
       load32 12 mem = Ok task_id /\
       StreamRowReader.verify_set r = [task_id]) /\
  (forall (row row' : NewRecord.t) (r r' : StreamRowReader.t),
     StreamRowReader.read row r = Ok (row', r') ->
     incl (StreamRowReader.verify_set r) (StreamRowReader.verify_set r') /\
     (NoDup (StreamRowReader.verify_set r) ->
      NoDup (StreamRowReader.verify_set r')) /\
     (StreamRowReader.block_num_rows r <= StreamRowReader.block_rows_read r ->
      exists task_id,
        load32 (StreamRowReader.buf r + 12) (StreamRowReader.mem r)
        = Ok task_id /\
        In task_id (StreamRowReader.verify_set r')) /\
     (StreamRowReader.block_rows_read r < StreamRowReader.block_num_rows r ->
      StreamRowReader.verify_set r' = StreamRowReader.verify_set r)).
Proof.
  split.
  - intros mem buf_end r H. unfold StreamRowReader.make in H.
    unfold StreamRowReader.read_encrypted_block in H.
    cbn [StreamRowReader.buf StreamRowReader.mem StreamRowReader.verify_set
         StreamRowReader.cipher] in H.
    inv_bind H. injection H as <-. cbn.
    change (0 + 12) with 12 in *. eexists. split; [eassumption|reflexivity].
  - intros row row' r r' H. unfold StreamRowReader.read in H.
    destruct (StreamRowReader.maybe_advance_block r) as [r1|] eqn:E1;
      [|discriminate].
    cbn [bind] in H.
    destruct (StreamRowReader.read_row row r1) as [[[n row2] r2]|] eqn:E2;
      [|discriminate].
    cbn [bind fst snd] in H. injection H as _ <-.
    cbn [StreamRowReader.verify_set].
    apply stream_read_row_fields in E2. destruct E2 as (Hv & _ & _).
    rewrite Hv. unfold StreamRowReader.maybe_advance_block in E1.
    destruct (StreamRowReader.block_num_rows r
              <=? StreamRowReader.block_rows_read r) eqn:Ecmp.
    + unfold StreamRowReader.read_encrypted_block in E1.
      destruct (load32 (StreamRowReader.buf r) (StreamRowReader.mem r));
        [|discriminate].
      cbn [bind] in E1.
      destruct (load32 (StreamRowReader.buf r + 4) (StreamRowReader.mem r));
        [|discriminate].
      cbn [bind] in E1.
      destruct (load32 (StreamRowReader.buf r + 12) (StreamRowReader.mem r))
        as [task_id|]; [|discriminate].
      cbn [bind] in E1.
      match type of E1 with
      | context [load ?a ?b ?c] => destruct (load a b c); [|discriminate]
      end.
      cbn [bind] in E1. injection E1 as <-. cbn [StreamRowReader.verify_set].
      destruct (add_parent_incl task_id (StreamRowReader.verify_set r))
        as (Hi & Hin & Hnd).
      split; [exact Hi|]. split; [exact Hnd|]. split.
      * intros _. exists task_id. split; [reflexivity|exact Hin].
      * intros Hlt. apply Z.leb_le in Ecmp. lia.
    + injection E1 as <-. split; [apply incl_refl|]. split; [auto|].
      split; [|reflexivity].
      intros Hle. apply Z.leb_gt in Ecmp. lia.
Qed.

End StreamFraming.

(** ** Single-row writers and readers *)

Section IndividualFacts.
  Context {lim : Limits} {cipher : Cipher} {S : Sealed NewRecord.t}.

Lemma store_shift (hd body bs m : list byte) (p : Z) :
  store p bs body = Ok m ->
  store (Z.of_nat (length hd) + p) bs (hd ++ body) = Ok (hd ++ m).
Proof.
  intros H. apply store_inv in H. destruct H as (Hp & Hb & Hm & _).
  rewrite store_ok by (rewrite ?length_app; lia).
  f_equal. rewrite Hm.
  replace (Z.to_nat (Z.of_nat (length hd) + p))
    with (length hd + Z.to_nat p)%nat by lia.
  rewrite firstn_app_2, <- app_assoc. do 3 f_equal.
  rewrite skipn_app.
  rewrite skipn_all2 by lia. cbn [app]. f_equal. lia.
Qed.

Lemma store_shift_fails (hd body bs : list byte) (p : Z) (e : error) :
  0 <= p ->
  store p bs body = Err e ->
  store (Z.of_nat (length hd) + p) bs (hd ++ body) = Err e.
Proof.
  unfold store, in_bounds. intros Hp H. rewrite length_app.
  destruct ((0 <=? p) && (0 <=? Z.of_nat (length bs))
            && (p + Z.of_nat (length bs) <=? Z.of_nat (length body))) eqn:E;
    [discriminate|].
  replace ((0 <=? Z.of_nat (length hd) + p)
           && (0 <=? Z.of_nat (length bs))
           && (Z.of_nat (length hd) + p + Z.of_nat (length bs)
               <=? Z.of_nat (length hd + length body))) with false;
    [exact H|].
  symmetry. apply andb_false_iff. apply andb_false_iff in E.
  destruct E as [E|E].
  - apply andb_false_iff in E. destruct E as [E|E].
    + apply Z.leb_gt in E. lia.
    + left. apply andb_false_iff. right. exact E.
  - right. apply Z.leb_gt in E. apply Z.leb_gt. lia.
Qed.

Lemma individual_write_buf (row : NewRecord.t)
    (w w' : IndividualRowWriter.t) :
  IndividualRowWriter.write row w = Ok w' ->
  0 <= IndividualRowWriter.buf w -> 0 <= IndividualRowWriter.buf w'.
Proof.
  unfold IndividualRowWriter.write. intros H Hb. inv_bind H.
  injection H as <-. cbn.
  pose proof (U32Facts.wrap_range (fst a)). lia.
Qed.

(** One [write] of the writer with a task identifier, on a buffer that is
    the plain writer's after four more bytes. *)
Lemma individual_write_v (row : NewRecord.t) (hd : list byte)
    (pw : IndividualRowWriter.t) (t : Z) :
  length hd = 4%nat ->
  0 <= IndividualRowWriter.buf pw ->
  IndividualRowWriterV.write row
    (IndividualRowWriterV.mk (hd ++ IndividualRowWriter.mem pw)
       (4 + IndividualRowWriter.buf pw) t)
  = (pw' <- IndividualRowWriter.write row pw ;;
     Ok (IndividualRowWriterV.mk (hd ++ IndividualRowWriter.mem pw')
           (4 + IndividualRowWriter.buf pw') t)).
Proof.
  intros Hhd Hb.
  unfold IndividualRowWriterV.write, IndividualRowWriter.write.
  cbn [IndividualRowWriterV.mem IndividualRowWriterV.buf
       IndividualRowWriterV.self_task_id].
  destruct (write_encrypted row) as [[n ct]|]; [|reflexivity].
  cbn [bind fst snd].
  replace (4 + IndividualRowWriter.buf pw)
    with (Z.of_nat (length hd) + IndividualRowWriter.buf pw) by lia.
  destruct (store (IndividualRowWriter.buf pw) ct (IndividualRowWriter.mem pw))
    as [m|e] eqn:E.
  - rewrite (store_shift hd _ _ _ _ E). cbn [bind].
    destruct (U32.wrap n <=? enc_size (Z.of_N ROW_UPPER_BOUND));
      cbn [check bind IndividualRowWriter.mem IndividualRowWriter.buf];
      [|reflexivity].
    do 2 f_equal. lia.
  - rewrite (store_shift_fails hd _ _ _ _ Hb E). reflexivity.
Qed.

Lemma individual_write_all_v (rows : list NewRecord.t) :
  forall (hd : list byte) (pw : IndividualRowWriter.t) (t : Z),
    length hd = 4%nat ->
    0 <= IndividualRowWriter.buf pw ->
    IndividualRowWriterV.write_all rows
      (IndividualRowWriterV.mk (hd ++ IndividualRowWriter.mem pw)
         (4 + IndividualRowWriter.buf pw) t)
    = (pw' <- IndividualRowWriter.write_all rows pw ;;
       Ok (IndividualRowWriterV.mk (hd ++ IndividualRowWriter.mem pw')
             (4 + IndividualRowWriter.buf pw') t)).
Proof.
  induction rows as [|row rows IH]; intros hd pw t Hhd Hb.
  - reflexivity.
  - cbn [IndividualRowWriterV.write_all IndividualRowWriter.write_all].
    rewrite individual_write_v by assumption.
    destruct (IndividualRowWriter.write row pw) as [pw1|] eqn:E;
      [|reflexivity].
    cbn [bind]. apply IH; [exact Hhd|].
    exact (individual_write_buf _ _ _ E Hb).
Qed.

Lemma individual_writer_v_state (rows : list NewRecord.t)
    (hd body : list byte) (t : Z) :
  length hd = 4%nat ->
  (w <- IndividualRowWriterV.write_all rows
          (IndividualRowWriterV.make (hd ++ body)) ;;
   IndividualRowWriterV.close (IndividualRowWriterV.set_self_task_id t w))
  = (pw <- IndividualRowWriter.write_all rows
             (IndividualRowWriter.make body) ;;
     Ok (IndividualRowWriterV.mk
           (U32.encode t ++ IndividualRowWriter.mem pw)
           (4 + IndividualRowWriter.buf pw) t)).
Proof.
  intros Hhd. unfold IndividualRowWriterV.make.
  pose proof (individual_write_all_v rows hd
                (IndividualRowWriter.make body) 0 Hhd) as H.
  cbn [IndividualRowWriter.make IndividualRowWriter.mem
       IndividualRowWriter.buf] in H.
  change (4 + 0) with (0 + 4) in H. rewrite H by lia.
  destruct (IndividualRowWriter.write_all rows (IndividualRowWriter.make body))
    as [pw|]; [|reflexivity].
  cbn [bind]. unfold IndividualRowWriterV.close,
    IndividualRowWriterV.set_self_task_id.
  cbn [IndividualRowWriterV.mem IndividualRowWriterV.buf
       IndividualRowWriterV.self_task_id].
  unfold store32. rewrite store_ok
    by (rewrite ?length_app, ?U32Facts.length_encode; lia).
  cbn [bind]. f_equal. f_equal.
  rewrite U32Facts.length_encode. cbn [Z.to_nat firstn app Nat.add].
  f_equal. destruct hd as [|a [|b [|c [|d [|]]]]]; try discriminate Hhd.
  reflexivity.
Qed.

(** X14. The writer with a task identifier writes what the plain writer
    writes, four bytes further on: for any rows, writing them and closing
    with task identifier [t] on a buffer of four bytes followed by [body]
    fails where the plain writer fails on [body], and otherwise leaves
    [t] in the first four bytes, the plain writer's output after them and
    [buf] four bytes further; [bytes_written()] is then the plain
    writer's plus four, on [uint32_t]. *)
Theorem individual_writer_v_prefixes_task_id (rows : list NewRecord.t)
    (hd body : list byte) (t : Z) :
  length hd = 4%nat ->
  (w <- IndividualRowWriterV.write_all rows
          (IndividualRowWriterV.make (hd ++ body)) ;;
   IndividualRowWriterV.close (IndividualRowWriterV.set_self_task_id t w))
  = (pw <- IndividualRowWriter.write_all rows
             (IndividualRowWriter.make body) ;;
     Ok (IndividualRowWriterV.mk
           (U32.encode t ++ IndividualRowWriter.mem pw)
           (4 + IndividualRowWriter.buf pw) t)) /\
  (w' <- (w <- IndividualRowWriterV.write_all rows
                 (IndividualRowWriterV.make (hd ++ body)) ;;
          IndividualRowWriterV.close
            (IndividualRowWriterV.set_self_task_id t w)) ;;
   Ok (IndividualRowWriterV.bytes_written w'))
  = (pw <- IndividualRowWriter.write_all rows
             (IndividualRowWriter.make body) ;;
     Ok (U32.add 4 (IndividualRowWriter.bytes_written pw))).
Proof.
  intros Hhd. pose proof (individual_writer_v_state rows hd body t Hhd) as H.
  split; [exact H|]. rewrite H.
  destruct (IndividualRowWriter.write_all rows (IndividualRowWriter.make body))
    as [pw|]; [|reflexivity].
  cbn [bind]. f_equal.
  unfold IndividualRowWriterV.bytes_written,
    IndividualRowWriter.bytes_written, U32.add.
  cbn [IndividualRowWriterV.buf].
  rewrite (Z.add_comm 4 (U32.wrap _)), wrap_add_l. f_equal. lia.
Qed.

(** X15. What [IndividualRowWriterV] closes, [IndividualRowReaderV] opens
    only with a verify set: given one, the reader adds the writer's task
    identifier to it and starts at offset 4, where the writer put its
    first row; given none, the reader starts at offset 0, on the task
    identifier itself. *)
Theorem individual_reader_v_task_id (w w' : IndividualRowWriterV.t)
    (v : Verify) :
  IndividualRowWriterV.close w = Ok w' ->
  IndividualRowReaderV.make (IndividualRowWriterV.mem w') (Some v)
  = Ok (IndividualRowReaderV.mk (IndividualRowWriterV.mem w')
          (IndividualRowWriterV.buf
             (IndividualRowWriterV.make (IndividualRowWriterV.mem w)))
          (Some (U32.wrap (IndividualRowWriterV.self_task_id w) :: v))) /\
  (exists r,
     IndividualRowReaderV.make (IndividualRowWriterV.mem w') None = Ok r /\
     IndividualRowReaderV.buf r = 0 /\
     load (IndividualRowReaderV.buf r) 4 (IndividualRowReaderV.mem r)
     = Ok (U32.encode (IndividualRowWriterV.self_task_id w))).
Proof.
  unfold IndividualRowWriterV.close. intros H.
  destruct (store32 0 (IndividualRowWriterV.self_task_id w)
              (IndividualRowWriterV.mem w)) as [m|] eqn:E; [|discriminate].
  cbn [bind] in H. injection H as <-. cbn [IndividualRowWriterV.mem].
  split.
  - unfold IndividualRowReaderV.make.
    rewrite (load32_store32_same _ _ _ _ E). reflexivity.
  - eexists. split; [reflexivity|]. cbn. split; [reflexivity|].
    exact (load_store_same _ _ _ _ E).
Qed.

Lemma store_at_app (pre ct rest : list byte) :
  (length ct <= length rest)%nat ->
  store (Z.of_nat (length pre)) ct (pre ++ rest)
  = Ok (pre ++ ct ++ skipn (length ct) rest).
Proof.
  intros H. rewrite store_ok by (rewrite ?length_app; lia). f_equal.
  rewrite Nat2Z.id. rewrite firstn_app, Nat.sub_diag, firstn_O, app_nil_r.
  rewrite firstn_all. do 2 f_equal.
  rewrite skipn_app. rewrite skipn_all2 by lia. cbn [app]. f_equal. lia.
Qed.

Lemma individual_write_all_layout (rows : list NewRecord.t)
    (cts : list (list byte)) :
  Forall2 (fun r ct =>
             write_encrypted r = Ok (Z.of_nat (length ct), ct) /\
             Z.of_nat (length ct) <= enc_size (Z.of_N ROW_UPPER_BOUND) /\
             Z.of_nat (length ct) < U32.modulus) rows cts ->
  forall pre rest : list byte,
    (length (concat cts) <= length rest)%nat ->
    IndividualRowWriter.write_all rows
      (IndividualRowWriter.mk (pre ++ rest) (Z.of_nat (length pre)))
    = Ok (IndividualRowWriter.mk
            (pre ++ concat cts ++ skipn (length (concat cts)) rest)
            (Z.of_nat (length pre) + Z.of_nat (length (concat cts)))).
Proof.
  induction 1 as [|row ct rows cts (Hw & Hle & Hlt) Hall IH];
    intros pre rest Hroom.
  - cbn. rewrite Z.add_0_r. reflexivity.
  - cbn [concat] in Hroom. rewrite length_app in Hroom.
    cbn [IndividualRowWriter.write_all]. unfold IndividualRowWriter.write.
    rewrite Hw. cbn [bind fst snd IndividualRowWriter.buf
                     IndividualRowWriter.mem].
    rewrite store_at_app by lia. cbn [bind].
    rewrite U32Facts.wrap_small by lia.
    replace (Z.of_nat (length ct) <=? enc_size (Z.of_N ROW_UPPER_BOUND))
      with true by (symmetry; apply Z.leb_le; exact Hle).
    cbn [check bind].
    replace (Z.of_nat (length pre) + Z.of_nat (length ct))
      with (Z.of_nat (length (pre ++ ct))) by (rewrite length_app; lia).
    rewrite app_assoc. rewrite IH by (rewrite length_skipn; lia).
    f_equal. f_equal.
    + rewrite <- !app_assoc. cbn [concat]. rewrite <- app_assoc.
      do 3 f_equal. rewrite skipn_skipn, length_app. f_equal. lia.
    + cbn [concat]. rewrite !length_app. lia.
Qed.

(** X21. Rows written one at a time lie in the buffer back to back, in
    the order of the calls: for rows whose [write_encrypted] stays within
    [enc_size(ROW_UPPER_BOUND)], the plain single-row writer leaves their
    sealed bytes one after the other from the start of the buffer, the
    rest of the buffer untouched, [buf] after the last of them, and
    [bytes_written()] is their total length on [uint32_t]. *)
Theorem individual_writer_layout (rows : list NewRecord.t)
    (cts : list (list byte)) (mem : list byte) :
  Forall2 (fun r ct =>
             write_encrypted r = Ok (Z.of_nat (length ct), ct) /\
             Z.of_nat (length ct) <= enc_size (Z.of_N ROW_UPPER_BOUND) /\
             Z.of_nat (length ct) < U32.modulus) rows cts ->
  (length (concat cts) <= length mem)%nat ->
  exists w,
    IndividualRowWriter.write_all rows (IndividualRowWriter.make mem) = Ok w /\
    IndividualRowWriter.mem w
    = concat cts ++ skipn (length (concat cts)) mem /\
    IndividualRowWriter.buf w = Z.of_nat (length (concat cts)) /\
    IndividualRowWriter.bytes_written (IndividualRowWriter.close w)
    = U32.wrap (Z.of_nat (length (concat cts))).
Proof.
  intros Hrows Hroom.
  pose proof (individual_write_all_layout rows cts Hrows [] mem Hroom) as H.
  cbn [app length Z.of_nat Z.add] in H.
  eexists. split; [exact H|]. repeat split.
Qed.

(** X22. The size check is made for rows only.  When [write_encrypted]
    returns more than [enc_size(ROW_UPPER_BOUND)] for a row, [write] of
    the row fails, while [write] of a join row that holds this row goes
    through and moves [buf] by that count; in the writer with a task
    identifier and in the plain one. *)
Theorem individual_writer_checks_rows_only (row : NewRecord.t)
    (join_attr : option Z) (n : Z) (ct : list byte) :
  write_encrypted row = Ok (n, ct) ->
  enc_size (Z.of_N ROW_UPPER_BOUND) < U32.wrap n ->
  (forall (w : IndividualRowWriterV.t) (m : list byte),
     store (IndividualRowWriterV.buf w) ct (IndividualRowWriterV.mem w)
     = Ok m ->
     IndividualRowWriterV.write row w = Err CapacityExceeded /\
     IndividualRowWriterV.write_sealed (NewJoinRecord.mk row join_attr) w
     = Ok (IndividualRowWriterV.mk m
             (IndividualRowWriterV.buf w + U32.wrap n)
             (IndividualRowWriterV.self_task_id w))) /\
  (forall (w : IndividualRowWriter.t) (m : list byte),
     store (IndividualRowWriter.buf w) ct (IndividualRowWriter.mem w)
     = Ok m ->
     IndividualRowWriter.write row w = Err CapacityExceeded /\
     IndividualRowWriter.write_sealed (NewJoinRecord.mk row join_attr) w
     = Ok (IndividualRowWriter.mk m
             (IndividualRowWriter.buf w + U32.wrap n))).
Proof.
  intros Hw Hbig.
  assert (Hc : (U32.wrap n <=? enc_size (Z.of_N ROW_UPPER_BOUND)) = false)
    by (apply Z.leb_gt; exact Hbig).
  split; intros w m Hs; split.
  - unfold IndividualRowWriterV.write. rewrite Hw. cbn [bind fst snd].
    rewrite Hs. cbn [bind]. rewrite Hc. reflexivity.
  - unfold IndividualRowWriterV.write_sealed.
    cbn [write_encrypted NewJoinRecord_sealed NewJoinRecord.row].
    rewrite Hw. cbn [bind fst snd]. rewrite Hs. reflexivity.
  - unfold IndividualRowWriter.write. rewrite Hw. cbn [bind fst snd].
    rewrite Hs. cbn [bind]. rewrite Hc. reflexivity.
  - unfold IndividualRowWriter.write_sealed.
    cbn [write_encrypted NewJoinRecord_sealed NewJoinRecord.row].
    rewrite Hw. cbn [bind fst snd]. rewrite Hs. reflexivity.
Qed.

End IndividualFacts.

(** ** Join rows: the table tag *)

Section JoinFacts.
  Context {lim : Limits} {types : TypeTable}.

Lemma skip_attrs_none (fuel : nat) (mem : list byte) (off : Z) :
  skip_attrs fuel mem off 0 = Ok off.
Proof. destruct fuel; reflexivity. Qed.

(** The value [add_attr] stored is where [get_attr_value] of the new
    column looks, for a row that was empty. *)
Lemma add_attr_first_value (ty : byte) (x : Z) (r r' : NewRecord.t) :
  NewRecord.add_attr ty 4 (U32.encode x) r = Ok r' ->
  NewRecord.row_length r = 4 ->
  load32 9 (NewRecord.row r') = Ok (U32.wrap x).
Proof.
  unfold NewRecord.add_attr. intros H Hlen. inv_bind H. injection H as <-.
  cbn [NewRecord.row]. rewrite Hlen in *.
  unfold store32 in E4.
  rewrite (load32_store_other _ _ _ _ _ E4) by (right; cbn; lia).
  assert (Ha : a = U32.encode x).
  { rewrite (load_in_app [] (U32.encode x) [] _ 0 4) in E;
      try reflexivity. congruence. }
  subst a. change (4 + 5) with 9 in E2.
  unfold load32.
  pose proof (load_store_same _ _ _ _ E2) as Hl.
  rewrite U32Facts.length_encode in Hl. change (Z.of_nat 4) with 4 in Hl.
  rewrite Hl. cbn [bind]. rewrite U32Facts.decode_encode. reflexivity.
Qed.

(** [append] writes past the attributes the row has and on the column
    count only. *)
Lemma append_keeps (other r r' : NewRecord.t) (p : Z) :
  NewRecord.append other r = Ok r' ->
  4 <= p -> p + 4 <= NewRecord.row_length r ->
  load32 p (NewRecord.row r') = load32 p (NewRecord.row r).
Proof.
  unfold NewRecord.append. intros H Hp Hq. inv_bind H. injection H as <-.
  cbn [NewRecord.row]. unfold store32 in E3.
  rewrite (load32_store_other _ _ _ _ _ E3) by (right; cbn; lia).
  rewrite (load32_store_other _ _ _ _ _ E0) by (left; lia).
  reflexivity.
Qed.

(** X16. [set(is_primary, record)] tags the row: afterwards [is_primary()]
    returns the flag given, [num_cols()] is the record's column count
    and the join row is not a dummy.  This is for a record with fewer
    than [2^32 - 1] columns; with [2^32 - 1] the count wraps to zero and
    the join row is a dummy. *)
Theorem join_set_tags_table (is_primary : bool) (record : NewRecord.t)
    (j j' : NewJoinRecord.t) (n : Z) :
  NewJoinRecord.set is_primary record j = Ok j' ->
  NewRecord.num_cols record = Ok n ->
  NewJoinRecord.num_cols j' = Ok n /\
  (n + 1 < U32.modulus ->
   NewJoinRecord.is_primary j' = Ok is_primary /\
   NewJoinRecord.is_dummy j' = Ok false) /\
  (n + 1 = U32.modulus -> NewJoinRecord.is_dummy j' = Ok true).
Proof.
  intros H Hn. split; [exact (join_set_num_cols _ _ _ _ _ H Hn)|].
  unfold NewJoinRecord.set in H. inv_bind H. injection H as <-.
  pose proof (load32_range _ _ _ Hn) as Hr.
  apply clear_inv in E. destruct E as (c1 & c2 & c3).
  pose proof (add_attr_first_value _ _ _ _ E0 c1) as Hv.
  eapply add_attr_num_cols in E0; [|lia|exact c2].
  destruct E0 as (d1 & d2 & d3).
  rewrite <- (append_keeps _ _ _ 9 E1) in Hv by lia.
  eapply append_num_cols in E1; [|lia|exact d1|exact Hn].
  rewrite Z.add_0_l in E1. rewrite (U32Facts.wrap_small 1) in E1
    by (unfold U32.modulus; lia).
  unfold NewJoinRecord.is_primary, NewJoinRecord.is_dummy,
    NewRecord.get_attr_value, NewRecord.get_attr,
    NewRecord.get_attr_internal.
  cbn [NewJoinRecord.row]. rewrite E1. cbn [bind]. split.
  - intros Hs. rewrite U32Facts.wrap_small by lia.
    replace ((0 <? 1) && (1 <=? 1 + n)) with true
      by (symmetry; apply andb_true_iff; split;
          [reflexivity|apply Z.leb_le; lia]).
    cbn [check bind]. change (1 - 1) with 0. rewrite skip_attrs_none.
    cbn [bind]. change (4 + 5) with 9. rewrite Hv. cbn [bind].
    split.
    + destruct is_primary; reflexivity.
    + f_equal. apply Z.eqb_neq. lia.
  - intros Hs. replace (1 + n) with U32.modulus by lia. reflexivity.
Qed.

End JoinFacts.

(** ** Sort pointers *)

Section SortPointerFacts.
  Context {R : Type} {SR : SortRecord R}.

Lemma deref_inv (heap : list R) (p : option nat) (r : R) :
  SortPointer.deref heap p = Ok r ->
  exists i, p = Some i /\ nth_error heap i = Some r /\
            (i < length heap)%nat.
Proof.
  unfold SortPointer.deref. intros H.
  destruct p as [i|]; [|discriminate].
  destruct (nth_error heap i) as [x|] eqn:E; [|discriminate].
  injection H as <-. exists i. repeat split; auto.
  apply nth_error_Some. congruence.
Qed.

Lemma nth_error_update_same (heap : list R) (i : nat) (r : R) :
  (i < length heap)%nat ->
  nth_error (SortPointer.update heap i r) i = Some r.
Proof.
  intros H. unfold SortPointer.update.
  rewrite nth_error_app2 by (rewrite length_firstn; lia).
  rewrite length_firstn.
  replace (i - Nat.min i (length heap))%nat with 0%nat by lia.
  reflexivity.
Qed.

Lemma nth_error_update_other (heap : list R) (i j : nat) (r : R) :
  (i < length heap)%nat -> i <> j ->
  nth_error (SortPointer.update heap i r) j = nth_error heap j.
Proof.
  intros H Hij. unfold SortPointer.update.
  destruct (Nat.lt_ge_cases j i) as [Hlt|Hge].
  - rewrite nth_error_app1 by (rewrite length_firstn; lia).
    rewrite nth_error_firstn.
    replace (j <? i)%nat with true by (symmetry; apply Nat.ltb_lt; lia).
    reflexivity.
  - rewrite nth_error_app2 by (rewrite length_firstn; lia).
    rewrite length_firstn.
    replace (j - Nat.min i (length heap))%nat with (S (j - S i)) by lia.
    cbn [nth_error]. rewrite nth_error_skipn. f_equal. lia.
Qed.

Lemma length_update (heap : list R) (i : nat) (r : R) :
  (i < length heap)%nat ->
  length (SortPointer.update heap i r) = length heap.
Proof.
  intros H. unfold SortPointer.update.
  rewrite length_app, length_firstn. cbn [length]. rewrite length_skipn. lia.
Qed.

Lemma sort_read_inv (input : list byte) (pos op_code : Z)
    (p p' : SortPointer.t) (heap heap' : list R) (n : Z) :
  SortPointer.read input pos op_code p heap = Ok (n, p', heap') ->
  exists i r,
    SortPointer.rec p = Some i /\ SortPointer.rec p' = Some i /\
    (i < length heap)%nat /\
    heap' = SortPointer.update heap i r /\
    rec_get_key_prefix op_code r = Ok (SortPointer.key_prefix p').
Proof.
  unfold SortPointer.read. intros H.
  destruct (SortPointer.rec p) as [i|] eqn:Ei; [|discriminate].
  destruct (SortPointer.deref heap (Some i)) as [this|] eqn:Ed;
    [|discriminate].
  cbn [bind] in H.
  destruct (rec_read input pos this) as [[m r]|]; [|discriminate].
  cbn [bind fst snd] in H.
  destruct (rec_get_key_prefix op_code r) as [k|] eqn:Ek; [|discriminate].
  cbn [bind] in H. injection H as _ <- <-.
  apply deref_inv in Ed. destruct Ed as (i' & Hi & _ & Hlt).
  injection Hi as <-.
  exists i, r. cbn. repeat split; auto.
Qed.

(** X17. The cached key prefix is a sound shortcut.  If the record order
    follows the key prefixes wherever they differ, then for two sort
    pointers on different records, each filled by [read], [less_than]
    returns what the records' own [less_than] returns, and it counts a
    deep comparison exactly when the two prefixes are equal. *)
Theorem sort_pointer_less_than_agrees (op_code : Z)
    (heap heap1 heap2 : list R) (p q p' q' : SortPointer.t)
    (input1 input2 : list byte) (pos1 pos2 n1 n2 : Z)
    (counter : option Z) :
  (forall a b ka kb,
     rec_get_key_prefix op_code a = Ok ka ->
     rec_get_key_prefix op_code b = Ok kb ->
     ka <> kb -> rec_less_than a b op_code = Ok (ka <? kb)) ->
  SortPointer.rec p <> SortPointer.rec q ->
  SortPointer.read input1 pos1 op_code p heap = Ok (n1, p', heap1) ->
  SortPointer.read input2 pos2 op_code q heap1 = Ok (n2, q', heap2) ->
  exists a b,
    SortPointer.deref heap2 (SortPointer.rec p') = Ok a /\
    SortPointer.deref heap2 (SortPointer.rec q') = Ok b /\
    SortPointer.less_than p' q' op_code counter heap2
    = (lt <- rec_less_than a b op_code ;;
       Ok (lt,
           if SortPointer.key_prefix p' =? SortPointer.key_prefix q'
           then option_map U32.incr counter
           else counter)).
Proof.
  intros Hord Hne H1 H2.
  apply sort_read_inv in H1, H2.
  destruct H1 as (i & a & Hp & Hp' & Hi & Hh1 & Ka).
  destruct H2 as (j & b & Hq & Hq' & Hj & Hh2 & Kb).
  assert (Hij : j <> i) by congruence.
  assert (Hi1 : (i < length heap1)%nat)
    by (rewrite Hh1, length_update; assumption).
  assert (Da : SortPointer.deref heap2 (SortPointer.rec p') = Ok a).
  { rewrite Hp'. unfold SortPointer.deref.
    rewrite Hh2, nth_error_update_other by assumption.
    rewrite Hh1, nth_error_update_same by assumption. reflexivity. }
  assert (Db : SortPointer.deref heap2 (SortPointer.rec q') = Ok b).
  { rewrite Hq'. unfold SortPointer.deref.
    rewrite Hh2, nth_error_update_same by assumption. reflexivity. }
  exists a, b. split; [exact Da|]. split; [exact Db|].
  unfold SortPointer.less_than.
  destruct (SortPointer.key_prefix p' <? SortPointer.key_prefix q') eqn:E1.
  - apply Z.ltb_lt in E1.
    rewrite (Hord a b _ _ Ka Kb) by lia.
    replace (SortPointer.key_prefix p' <? SortPointer.key_prefix q')
      with true by (symmetry; apply Z.ltb_lt; lia).
    replace (SortPointer.key_prefix p' =? SortPointer.key_prefix q')
      with false by (symmetry; apply Z.eqb_neq; lia).
    reflexivity.
  - apply Z.ltb_ge in E1.
    destruct (SortPointer.key_prefix q' <? SortPointer.key_prefix p') eqn:E2.
    + apply Z.ltb_lt in E2.
      rewrite (Hord a b _ _ Ka Kb) by lia.
      replace (SortPointer.key_prefix p' <? SortPointer.key_prefix q')
        with false by (symmetry; apply Z.ltb_ge; lia).
      replace (SortPointer.key_prefix p' =? SortPointer.key_prefix q')
        with false by (symmetry; apply Z.eqb_neq; lia).
      reflexivity.
    + apply Z.ltb_ge in E2.
      replace (SortPointer.key_prefix p' =? SortPointer.key_prefix q')
        with true by (symmetry; apply Z.eqb_eq; lia).
      rewrite Da, Db. reflexivity.
Qed.

End SortPointerFacts.

(** ** Saving and restoring aggregation state *)

Section StoreFacts.
  Context {lim : Limits} {alim : AggLimits}.
  Context {cipher : Cipher} {plain : PlainCipher}.

Lemma store_whole (pt mem : list byte) :
  length pt = length mem -> store 0 pt mem = Ok pt.
Proof.
  intros H. rewrite store_ok by lia. f_equal.
  cbn [Z.to_nat firstn app Nat.add].
  rewrite skipn_all2 by lia. apply app_nil_r.
Qed.

(** Reading back the sealed bytes: the size word passes the check and the
    plaintext buffer is the one that was sealed. *)
Lemma open_saved_state (tmp post junk : list byte) :
  plain_cipher_law ->
  enc_size (Z.of_N AGG_UPPER_BOUND) < U32.modulus ->
  length tmp = N.to_nat AGG_UPPER_BOUND ->
  let e := enc_size (Z.of_N AGG_UPPER_BOUND) in
  let input := (U32.encode e ++ encrypt tmp) ++ post in
  load32 0 input = Ok e /\
  load (0 + 4) e input = Ok (encrypt tmp) /\
  decrypt (encrypt tmp) = Ok tmp /\
  store 0 tmp (malloc AGG_UPPER_BOUND junk) = Ok tmp.
Proof.
  intros Hlaw He Hlen e input.
  destruct (Hlaw tmp Hlen) as (Hl & Hd). fold e in Hl.
  assert (He0 : 0 <= e) by lia.
  split; [|split; [|split]].
  - unfold input. rewrite <- !app_assoc.
    replace (Ok e) with (Ok (U32.wrap e))
      by (f_equal; apply U32Facts.wrap_small; lia).
    apply (load32_in_app [] (encrypt tmp ++ post)); reflexivity.
  - unfold input. rewrite <- !app_assoc.
    apply (load_in_app (U32.encode e) (encrypt tmp) post);
      [reflexivity|reflexivity|lia].
  - exact Hd.
  - apply store_whole. rewrite length_malloc. exact Hlen.
Qed.

Ltac keep_word H :=
  rewrite (load32_store_other _ _ _ _ _ H) by (left; lia).

(** X20. What [write_encrypted] saves, [read_encrypted] restores.  Under
    the cipher law, for a group row of at most [ROW_UPPER_BOUND] bytes
    (and, in [Aggregator2], a first partial result no longer than the
    count its write returns, which its read returns too), the bytes
    [write_encrypted] leaves pass the size check of [read_encrypted],
    which returns the same count and the state made of the saved
    [num_distinct] and [offset] and of what the members' own reads make
    of the bytes the members' own writes left: each member's bytes are
    in the sealed buffer where its read looks for them, none overwritten
    by a later member. *)
Theorem aggregator_state_round_trip {G A1 A2 : Type}
    {GS : GroupByStore G} {AS1 : AggStore A1} {AS2 : AggStore A2} :
  plain_cipher_law ->
  enc_size (Z.of_N AGG_UPPER_BOUND) < U32.modulus ->
  (forall (junk junk' post : list byte) (s s0 : Aggregator1.t G A1)
          (n : Z) (bytes : list byte) (gw aw : Z * list byte)
          (kg ka : Z) (g' : G) (a' : A1),
     Aggregator1IO.write_encrypted junk s = Ok (n, bytes) ->
     gb_write_whole_row (Aggregator1.g s) = Ok gw ->
     agg_write_partial_result (Aggregator1.a1 s) = Ok aw ->
     Z.of_nat (length (snd gw)) <= Z.of_N ROW_UPPER_BOUND ->
     (forall tmp,
        load 8 (Z.of_nat (length (snd gw))) tmp = Ok (snd gw) ->
        gb_read tmp 8 (Aggregator1.g s0) = Ok (kg, g')) ->
     (forall tmp,
        load (8 + Z.of_N ROW_UPPER_BOUND) (Z.of_nat (length (snd aw))) tmp
        = Ok (snd aw) ->
        agg_read_partial_result tmp (8 + Z.of_N ROW_UPPER_BOUND)
          (Aggregator1.a1 s0) = Ok (ka, a')) ->
     Aggregator1IO.read_encrypted junk' (bytes ++ post) 0 s0
     = Ok (n, Aggregator1.mk (U32.wrap (Aggregator1.num_distinct s))
                (U32.wrap (Aggregator1.offset s)) g' a')) /\
  (forall (junk junk' post : list byte) (s s0 : Aggregator2.t G A1 A2)
          (n : Z) (bytes : list byte) (gw aw1 aw2 : Z * list byte)
          (kg ka1 ka2 : Z) (g' : G) (a1' : A1) (a2' : A2),
     Aggregator2IO.write_encrypted junk s = Ok (n, bytes) ->
     gb_write_whole_row (Aggregator2.g s) = Ok gw ->
     agg_write_partial_result (Aggregator2.a1 s) = Ok aw1 ->
     agg_write_partial_result (Aggregator2.a2 s) = Ok aw2 ->
     Z.of_nat (length (snd gw)) <= Z.of_N ROW_UPPER_BOUND ->
     Z.of_nat (length (snd aw1)) <= U32.wrap (fst aw1) ->
     U32.wrap ka1 = U32.wrap (fst aw1) ->
     (forall tmp,
        load 8 (Z.of_nat (length (snd gw))) tmp = Ok (snd gw) ->
        gb_read tmp 8 (Aggregator2.g s0) = Ok (kg, g')) ->
     (forall tmp,
        load (8 + Z.of_N ROW_UPPER_BOUND) (Z.of_nat (length (snd aw1))) tmp
        = Ok (snd aw1) ->
        agg_read_partial_result tmp (8 + Z.of_N ROW_UPPER_BOUND)
          (Aggregator2.a1 s0) = Ok (ka1, a1')) ->
     (forall tmp,
        load (8 + Z.of_N ROW_UPPER_BOUND + U32.wrap (fst aw1))
          (Z.of_nat (length (snd aw2))) tmp = Ok (snd aw2) ->
        agg_read_partial_result tmp
          (8 + Z.of_N ROW_UPPER_BOUND + U32.wrap (fst aw1))
          (Aggregator2.a2 s0) = Ok (ka2, a2')) ->
     Aggregator2IO.read_encrypted junk' (bytes ++ post) 0 s0
     = Ok (n, Aggregator2.mk (U32.wrap (Aggregator2.num_distinct s))
                (U32.wrap (Aggregator2.offset s)) g' a1' a2')).
Proof.
  intros Hlaw He. split.
  - intros junk junk' post s s0 n bytes gw aw kg ka g' a' H Hgw Haw Hfit
      Hg Ha.
    unfold Aggregator1IO.write_encrypted in H. rewrite Hgw, Haw in H.
    inv_bind H.
    assert (Hb : bytes = U32.encode (enc_size (Z.of_N AGG_UPPER_BOUND))
                         ++ encrypt a2 /\
                 n = U32.add 4 (enc_size (Z.of_N AGG_UPPER_BOUND)))
      by (split; congruence).
    destruct Hb as (-> & ->). clear H.
    assert (Hlen : length a2 = N.to_nat AGG_UPPER_BOUND).
    { unfold store32 in *.
      rewrite (length_store _ _ _ _ E2), (length_store _ _ _ _ E1),
        (length_store _ _ _ _ E0), (length_store _ _ _ _ E).
      apply length_malloc. }
    assert (Hnd : load32 0 a2 = Ok (U32.wrap (Aggregator1.num_distinct s))).
    { keep_word E2. keep_word E1. unfold store32 in E0. keep_word E0.
      exact (load32_store32_same _ _ _ _ E). }
    assert (Hoff : load32 4 a2 = Ok (U32.wrap (Aggregator1.offset s))).
    { keep_word E2. keep_word E1.
      exact (load32_store32_same _ _ _ _ E0). }
    assert (Lg : load 8 (Z.of_nat (length (snd gw))) a2 = Ok (snd gw)).
    { rewrite (load_store_other _ _ _ _ _ _ E2) by (left; lia).
      exact (load_store_same _ _ _ _ E1). }
    assert (La : load (8 + Z.of_N ROW_UPPER_BOUND)
                   (Z.of_nat (length (snd aw))) a2 = Ok (snd aw))
      by exact (load_store_same _ _ _ _ E2).
    destruct (open_saved_state a2 post junk' Hlaw He Hlen)
      as (H1 & H2 & H3 & H4).
    unfold Aggregator1IO.read_encrypted.
    rewrite H1. cbn [bind]. rewrite Z.eqb_refl. cbn [check bind].
    rewrite H2. cbn [bind]. rewrite H3. cbn [bind]. rewrite H4.
    cbn [bind]. rewrite Hnd, Hoff. cbn [bind].
    rewrite (Hg a2 Lg). cbn [bind snd]. rewrite (Ha a2 La). reflexivity.
  - intros junk junk' post s s0 n bytes gw aw1 aw2 kg ka1 ka2 g' a1' a2'
      H Hgw Haw1 Haw2 Hfit Hcount Hsame Hg Ha1 Ha2.
    unfold Aggregator2IO.write_encrypted in H. rewrite Hgw, Haw1, Haw2 in H.
    inv_bind H.
    assert (Hb : bytes = U32.encode (enc_size (Z.of_N AGG_UPPER_BOUND))
                         ++ encrypt a3 /\
                 n = U32.add 4 (enc_size (Z.of_N AGG_UPPER_BOUND)))
      by (split; congruence).
    destruct Hb as (-> & ->). clear H.
    assert (Hlen : length a3 = N.to_nat AGG_UPPER_BOUND).
    { unfold store32 in *.
      rewrite (length_store _ _ _ _ E3), (length_store _ _ _ _ E2),
        (length_store _ _ _ _ E1), (length_store _ _ _ _ E0),
        (length_store _ _ _ _ E).
      apply length_malloc. }
    pose proof (U32Facts.wrap_range (fst aw1)) as Hw.
    assert (Hnd : load32 0 a3 = Ok (U32.wrap (Aggregator2.num_distinct s))).
    { keep_word E3. keep_word E2. keep_word E1. unfold store32 in E0.
      keep_word E0. exact (load32_store32_same _ _ _ _ E). }
    assert (Hoff : load32 4 a3 = Ok (U32.wrap (Aggregator2.offset s))).
    { keep_word E3. keep_word E2. keep_word E1.
      exact (load32_store32_same _ _ _ _ E0). }
    assert (Lg : load 8 (Z.of_nat (length (snd gw))) a3 = Ok (snd gw)).
    { rewrite (load_store_other _ _ _ _ _ _ E3) by (left; lia).
      rewrite (load_store_other _ _ _ _ _ _ E2) by (left; lia).
      exact (load_store_same _ _ _ _ E1). }
    assert (La1 : load (8 + Z.of_N ROW_UPPER_BOUND)
                    (Z.of_nat (length (snd aw1))) a3 = Ok (snd aw1)).
    { rewrite (load_store_other _ _ _ _ _ _ E3) by (left; lia).
      exact (load_store_same _ _ _ _ E2). }
    assert (La2 : load (8 + Z.of_N ROW_UPPER_BOUND + U32.wrap (fst aw1))
                    (Z.of_nat (length (snd aw2))) a3 = Ok (snd aw2))
      by exact (load_store_same _ _ _ _ E3).
    destruct (open_saved_state a3 post junk' Hlaw He Hlen)
      as (H1 & H2 & H3 & H4).
    unfold Aggregator2IO.read_encrypted.
    rewrite H1. cbn [bind]. rewrite Z.eqb_refl. cbn [check bind].
    rewrite H2. cbn [bind]. rewrite H3. cbn [bind]. rewrite H4.
    cbn [bind]. rewrite Hnd, Hoff. cbn [bind].
    rewrite (Hg a3 Lg). cbn [bind snd]. rewrite (Ha1 a3 La1).
    cbn [bind fst snd]. rewrite Hsame. rewrite (Ha2 a3 La2). reflexivity.
Qed.

End StoreFacts.

(** * The properties on the sample environment *)

Import Sample.

(** ** The sample cipher meets the contract on associated data *)

Lemma mask_involutive (k : Z) (l : list byte) : mask k (mask k l) = l.
Proof.
  unfold mask. rewrite map_map. rewrite <- (map_id l) at 2.
  apply map_ext. intros b.
  rewrite Z.lxor_assoc, Z.lxor_nilpotent, Z.lxor_0_r. reflexivity.
Qed.

Lemma mask_injective (k : Z) (a b : list byte) : mask k a = mask k b -> a = b.
Proof.
  intros H. apply (f_equal (mask k)) in H.
  rewrite !mask_involutive in H. exact H.
Qed.

Lemma length_mask (k : Z) (l : list byte) : length (mask k l) = length l.
Proof. apply length_map. Qed.

Lemma tag_16 (pt aad : list byte) :
  length aad = 16%nat -> tag pt aad = mask (checksum pt) aad.
Proof.
  intros H. unfold tag. f_equal.
  rewrite firstn_app, H, Nat.sub_diag, firstn_O, app_nil_r.
  apply firstn_all2. lia.
Qed.

Lemma open_seal (pt aad aad' : list byte) :
  length aad = 16%nat ->
  open (seal pt aad) aad' =
    if bytes_eqb (tag pt aad) (tag pt aad') then Ok pt else Err CipherError.
Proof.
  intros Haad. unfold open.
  assert (Hlen : length (seal pt aad) = (12 + (length pt + 16))%nat).
  { unfold seal. rewrite !length_app, length_mask, repeat_length.
    rewrite (tag_16 _ _ Haad), length_mask, Haad. reflexivity. }
  rewrite Hlen.
  replace (12 + (length pt + 16) <? 28)%nat with false
    by (symmetry; apply Nat.ltb_ge; lia).
  replace (12 + (length pt + 16) - 28)%nat with (length pt) by lia.
  replace (12 + (length pt + 16) - 16)%nat with (length pt + 12)%nat by lia.
  rewrite <- skipn_skipn.
  change (skipn 12 (seal pt aad)) with (mask 90 pt ++ tag pt aad).
  assert (F : firstn (length pt) (mask 90 pt ++ tag pt aad) = mask 90 pt).
  { rewrite <- (length_mask 90 pt).
    rewrite firstn_app, Nat.sub_diag, firstn_O, app_nil_r.
    apply firstn_all. }
  assert (S : skipn (length pt) (mask 90 pt ++ tag pt aad) = tag pt aad).
  { rewrite <- (length_mask 90 pt).
    rewrite skipn_app, Nat.sub_diag, skipn_0, skipn_all. reflexivity. }
  rewrite F, S, mask_involutive. reflexivity.
Qed.

Lemma sample_aad_is_authenticated : aad_is_authenticated.
Proof.
  intros pt aad aad' Ha Ha' Hne. cbn [decrypt_with_aad encrypt_with_aad cipher].
  rewrite open_seal by exact Ha.
  destruct (bytes_eqb (tag pt aad) (tag pt aad')) eqn:E; [|reflexivity].
  apply bytes_eqb_eq in E. rewrite !tag_16 in E by assumption.
  apply mask_injective in E. congruence.
Qed.

(** The sample cipher opens what it sealed under the same associated
    data. *)
Lemma sample_open_seal_same (pt aad : list byte) :
  length aad = 16%nat -> decrypt_with_aad (encrypt_with_aad pt aad) aad = Ok pt.
Proof.
  intros Ha. cbn [decrypt_with_aad encrypt_with_aad cipher].
  rewrite open_seal by exact Ha.
  replace (bytes_eqb (tag pt aad) (tag pt aad)) with true; [reflexivity|].
  symmetry. apply bytes_eqb_eq. reflexivity.
Qed.

(** ** Join rows *)

Lemma join_num_cols_wraps_after_reset_witness :
  exists j',
    NewJoinRecord.reset_to_dummy NewJoinRecord.default = Ok j' /\
    NewJoinRecord.is_dummy j' = Ok true /\
    NewJoinRecord.num_cols j' = Ok 4294967295 /\
    NewJoinRecord.num_cols j' <> Ok 0.
Proof.
  refine (proj1 (join_num_cols_wraps_after_reset NewJoinRecord.default _)).
  vm_compute. discriminate.
Defined.

(** A join row built from [[INT=7, INT=5]] reports its two columns. *)
Example join_set_num_cols_7_5 :
  (j <- NewJoinRecord.set true rec_7_5 NewJoinRecord.default ;;
   NewJoinRecord.num_cols j) = Ok 2.
Proof. vm_compute. reflexivity. Qed.

(** ** Aggregators *)



Lemma sample_agg1_wf (records : list NewRecord.t) (s : Agg1) :
  aggregate1_all (GB := GroupBy_type 1) (AG1 := Sum_type 2)
    records agg1_new = Ok s ->
  gb_wf (GroupByLaws := GroupBy_laws 1) (Aggregator1.g s).
Proof.
  intros H.
  exact (aggregate1_all_wf (GL := GroupBy_laws 1) records agg1_new s
           gb_wf_new H).
Qed.

Lemma sample_agg2_wf (records : list NewRecord.t) (s : Agg2) :
  aggregate2_all (GB := GroupBy2_type 1 2) (AG1 := Sum_type 2)
    (AG2 := Avg_type 2) records agg2_new = Ok s ->
  gb_wf (GroupByLaws := GroupBy2_laws 1 2) (Aggregator2.g s).
Proof.
  intros H.
  exact (aggregate2_all_wf (GL := GroupBy2_laws 1 2) records agg2_new s
           gb_wf_new H).
Qed.

Lemma aggregate_record_transition_witness :
  (agg1_aggregate rec_7_9 (agg1_after [rec_7_5])
   = Ok (Aggregator1.mk 1 0 (group_of rec_7_5) (Sum.mk 14))) /\
  (agg1_aggregate rec_8_1 (agg1_after [rec_7_5; rec_7_9])
   = Ok (Aggregator1.mk 2 0 (group_of rec_8_1) (Sum.mk 1)) /\
   NewRecord.logical (GroupBy.row (group_of rec_8_1))
   = NewRecord.logical rec_8_1) /\
  (agg2_aggregate rec_7_5 (agg2_after [rec_7_5])
   = Ok (Aggregator2.mk 1 0 (group2_of rec_7_5) (Sum.mk 10) (Avg.mk 10 2))) /\
  (agg2_aggregate rec_7_6 (agg2_after [rec_7_5; rec_7_5])
   = Ok (Aggregator2.mk 2 0 (group2_of rec_7_6) (Sum.mk 6) (Avg.mk 6 1)) /\
   NewRecord.logical (GroupBy2.row (group2_of rec_7_6))
   = NewRecord.logical rec_7_6).
Proof.
  split; [|split; [|split]].
  - refine (proj2 (proj1 (aggregate_record_transition
                     (A1 := Sum.t Z) (A2 := Avg.t Z)
                     (GB := GroupBy_type 1) (GL := GroupBy_laws 1)
                     (KL := GroupBy_key_laws 1) (AG1 := Sum_type 2)
                     (AG2 := Avg_type 2)
                     rec_7_9 (group_of rec_7_9) [attr32 1 7] _ _ _ _)
                   (agg1_after [rec_7_5]) [attr32 1 7] _ _ _)
              _ (Sum.mk 14) _);
      try (vm_compute; reflexivity).
    + apply key_bytes_check. reflexivity.
    + apply (sample_agg1_wf [rec_7_5]). vm_compute. reflexivity.
    + apply key_bytes_check. reflexivity.
    + split; [discriminate | reflexivity].
  - refine (proj1 (proj1 (aggregate_record_transition
                     (A1 := Sum.t Z) (A2 := Avg.t Z)
                     (GB := GroupBy_type 1) (GL := GroupBy_laws 1)
                     (KL := GroupBy_key_laws 1) (AG1 := Sum_type 2)
                     (AG2 := Avg_type 2)
                     rec_8_1 (group_of rec_8_1) [attr32 1 8] _ _ _ _)
                   (agg1_after [rec_7_5; rec_7_9]) [attr32 1 7] _ _ _)
              _ (group_of rec_8_1) (Sum.mk 1) _ _);
      try (vm_compute; reflexivity).
    + apply key_bytes_check. reflexivity.
    + apply (sample_agg1_wf [rec_7_5; rec_7_9]). vm_compute. reflexivity.
    + apply key_bytes_check. reflexivity.
    + right. right. intros E. vm_compute in E. discriminate E.
  - refine (proj2 (proj2 (aggregate_record_transition
                     (A1 := Sum.t Z) (A2 := Avg.t Z)
                     (GB := GroupBy2_type 1 2) (GL := GroupBy2_laws 1 2)
                     (KL := GroupBy2_key_laws 1 2) (AG1 := Sum_type 2)
                     (AG2 := Avg_type 2)
                     rec_7_5 (group2_of rec_7_5)
                     [attr32 1 7; attr32 1 5] _ _ _ _)
                   (agg2_after [rec_7_5]) [attr32 1 7; attr32 1 5] _ _ _)
              _ (Sum.mk 10) (Avg.mk 10 2) _ _);
      try (vm_compute; reflexivity).
    + apply key_bytes_check. reflexivity.
    + apply (sample_agg2_wf [rec_7_5]). vm_compute. reflexivity.
    + apply key_bytes_check. reflexivity.
    + split; [discriminate | reflexivity].
  - refine (proj1 (proj2 (aggregate_record_transition
                     (A1 := Sum.t Z) (A2 := Avg.t Z)
                     (GB := GroupBy2_type 1 2) (GL := GroupBy2_laws 1 2)
                     (KL := GroupBy2_key_laws 1 2) (AG1 := Sum_type 2)
                     (AG2 := Avg_type 2)
                     rec_7_6 (group2_of rec_7_6)
                     [attr32 1 7; attr32 1 6] _ _ _ _)
                   (agg2_after [rec_7_5; rec_7_5])
                   [attr32 1 7; attr32 1 5] _ _ _)
              _ (group2_of rec_7_6) (Sum.mk 6) (Avg.mk 6 1) _ _ _);
      try (vm_compute; reflexivity).
    + apply key_bytes_check. reflexivity.
    + apply (sample_agg2_wf [rec_7_5; rec_7_5]). vm_compute. reflexivity.
    + apply key_bytes_check. reflexivity.
    + right. right. intros E. vm_compute in E. discriminate E.
Defined.

(** Two aggregators on the same group combine; on different groups the
    combination fails. *)
Example aggregate_other_samples :
  (a <- agg1_aggregate rec_7_5 agg1_new ;;
   b <- agg1_aggregate rec_7_5 agg1_new ;;
   c <- agg1_aggregate_other b a ;;
   Ok (Aggregator1.num_distinct c, Sum.sum (Aggregator1.a1 c))) = Ok (1, 10) /\
  (a <- agg1_aggregate rec_7_5 agg1_new ;;
   b <- agg1_aggregate rec_42 agg1_new ;;
   agg1_aggregate_other b a) = Err IndexOutOfRange /\
  (a <- agg1_aggregate rec_7_5 agg1_new ;;
   agg1_aggregate_other agg1_new a) = Err GroupingMismatch.
Proof. repeat split; vm_compute; reflexivity. Qed.

(** ** The bulk block writer and reader *)

Lemma finish_block_authenticates_header_witness :
  exists w' hdr ct,
    RowWriter.finish_block writer_42 = Ok w' /\
    hdr = U32.encode 41 ++ U32.encode 1 ++ U32.encode 13 ++ U32.encode 7 /\
    load 0 16 (RowWriter.mem w') = Ok hdr /\
    load 16 (Z.of_nat (length ct)) (RowWriter.mem w') = Ok ct /\
    forall hdr',
      length hdr' = 16%nat -> hdr' <> hdr ->
      decrypt_with_aad ct hdr' = Err CipherError.
Proof.
  destruct (finish_block_authenticates_header writer_42)
    as (w' & hdr & ct & Hf & Hh & _ & _ & Lh & Lc & _ & Hc).
  - vm_compute. discriminate.
  - vm_compute. split; discriminate.
  - vm_compute. discriminate.
  - exists w', hdr, ct. repeat split; auto.
    apply Hc. exact sample_aad_is_authenticated.
Defined.

(** C1 fails on the code.  One row written through a [RowWriter] and
    closed; a [RowReader] over the resulting buffer does not return the
    row: it takes the block's ciphertext from offset 12, where the
    [task_id] word lies, and decryption fails. *)
Theorem bulk_round_trip_fails :
  is_ok written_42 = true /\
  NewRecord.logical rec_42 = Ok [1; 0; 0; 0; 1; 4; 0; 0; 0; 42; 0; 0; 0] /\
  (w <- written_42 ;;
   r <- RowReader.make (RowWriter.mem w) None None [] ;;
   p <- RowReader.read NewRecord.default r ;;
   NewRecord.logical (fst p)) = Err CipherError /\
  (w <- written_42 ;;
   ct <- load 16 41 (RowWriter.mem w) ;;
   decrypt_with_aad ct
     (U32.encode 41 ++ U32.encode 1 ++ U32.encode 13 ++ U32.encode 7))
  = Ok [1; 0; 0; 0; 1; 4; 0; 0; 0; 42; 0; 0; 0].
Proof. repeat split; vm_compute; reflexivity. Qed.

(** C3 fails on the code.  On the block a [RowWriter] emits (header
    [(41, 1, 13, 7)], task identifier 7) the [RowReader] hands [decrypt]
    the 41 bytes from offset 12 on, the [task_id] word and the ciphertext
    short of its last four bytes, and fails; on blocks with a 12-byte
    header it reads the rows; in both cases the verify sink it was given
    stays empty. *)
Theorem bulk_reader_takes_twelve_byte_header :
  (w <- written_42 ;; load 0 16 (RowWriter.mem w))
  = Ok (U32.encode 41 ++ U32.encode 1 ++ U32.encode 13 ++ U32.encode 7) /\
  (w <- written_42 ;;
   ct <- load 16 41 (RowWriter.mem w) ;;
   seen <- load 12 41 (RowWriter.mem w) ;;
   Ok (bytes_eqb seen (U32.encode 7 ++ firstn 37 ct))) = Ok true /\
  (w <- written_42 ;;
   seen <- load 12 41 (RowWriter.mem w) ;;
   decrypt seen) = Err CipherError /\
  (w <- written_42 ;;
   r <- RowReader.make (RowWriter.mem w) None (Some []) [] ;;
   Ok (RowReader.verify_set r)) = Err CipherError /\
  (r <- RowReader.make bulk_blocks None (Some []) [] ;;
   p <- RowReader.read_rows 2 NewRecord.default r ;;
   Ok (map NewRecord.logical (fst p), RowReader.verify_set (snd p)))
  = Ok ([NewRecord.logical rec_42; NewRecord.logical rec_9], Some []).
Proof. repeat split; vm_compute; reflexivity. Qed.

(** ** The streaming block writer and reader *)

Lemma stream_writer_single_block_witness :
  exists w,
    StreamRowWriter.run (map StreamRowWriter.Write [rec_42; rec_9])
      (StreamRowWriter.make (repeat 0 64)) = Ok w /\
    StreamRowWriter.buf_pos w = 0 /\
    StreamRowWriter.block_len w = 0 /\
    StreamRowWriter.block_num_rows w = 2.
Proof.
  assert (Hrows : Forall (fun r => is_ok (NewRecord.logical r) = true)
                    [rec_42; rec_9])
    by (repeat constructor; vm_compute; reflexivity).
  destruct (proj2 (stream_writer_single_block (repeat 0 64)) _ Hrows)
    as (w & bss & Hrun & _ & Hpos & _ & Hn & _).
  exists w. repeat split; auto.
  exact (proj1 (proj1 (stream_writer_single_block (repeat 0 64)) _ _ Hrun)).
Defined.

(** C2 fails on the code.  One row written through a [StreamRowWriter]
    (opcode 3, partition 1) and closed: the header is
    [(13, 1, 64, task_id_parser 3 1)], but the 13 bytes of ciphertext were
    written from offset 12 on; the [task_id] word lies over the first four
    of them, offset 16 holds the last nine, and a [StreamRowReader] over
    this buffer does not find the row. *)
Theorem stream_block_ciphertext_overlaps_header :
  (w <- streamed_42 ;; load 0 16 (StreamRowWriter.mem w))
  = Ok (U32.encode 13 ++ U32.encode 1 ++ U32.encode 64
          ++ U32.encode (task_id_parser 3 1)) /\
  stream_encrypt (bytes_of rec_42)
  = [164; 165; 165; 165; 164; 161; 165; 165; 165; 143; 165; 165; 165] /\
  (w <- streamed_42 ;; load 16 13 (StreamRowWriter.mem w))
  = Ok [164; 161; 165; 165; 165; 143; 165; 165; 165; 0; 0; 0; 0] /\
  (w <- streamed_42 ;; load 12 4 (StreamRowWriter.mem w))
  = Ok (U32.encode (task_id_parser 3 1)) /\
  (w <- streamed_42 ;;
   Ok (StreamRowWriter.buf_pos w,
       StreamCipher.out (StreamRowWriter.cipher w))) = Ok (29, 41) /\
  (w <- streamed_42 ;;
   r <- StreamRowReader.make (StreamRowWriter.mem w) None ;;
   p <- StreamRowReader.read NewRecord.default r ;;
   NewRecord.logical (fst p)) = Err MemoryFault.
Proof. repeat split; vm_compute; reflexivity. Qed.

(** C8 fails on the code for the streaming reader.  Three blocks: one row,
    no row, one row.  The bulk reader passes over the middle block and
    serves both rows.  The streaming reader, after the first row, moves to
    the middle block, stops there ([block_num_rows = 0], second block) and
    reads the next row out of it: nothing when its ciphertext is empty,
    and the row found there when it is not. *)
Theorem stream_reader_serves_zero_row_block :
  (r <- RowReader.make bulk_blocks None None [] ;;
   p <- RowReader.read_rows 2 NewRecord.default r ;;
   Ok (map NewRecord.logical (fst p)))
  = Ok [NewRecord.logical rec_42; NewRecord.logical rec_9] /\
  (r <- StreamRowReader.make stream_blocks None ;;
   p <- StreamRowReader.read NewRecord.default r ;;
   r' <- StreamRowReader.maybe_advance_block (snd p) ;;
   Ok (NewRecord.logical (fst p), StreamRowReader.block_num_rows r',
       StreamRowReader.cur_block_num r'))
  = Ok (NewRecord.logical rec_42, 0, 2) /\
  (r <- StreamRowReader.make stream_blocks None ;;
   p <- StreamRowReader.read NewRecord.default r ;;
   q <- StreamRowReader.read (fst p) (snd p) ;;
   NewRecord.logical (fst q)) = Err MemoryFault /\
  (r <- StreamRowReader.make stream_blocks_ghost None ;;
   p <- StreamRowReader.read NewRecord.default r ;;
   q <- StreamRowReader.read (fst p) (snd p) ;;
   Ok (NewRecord.logical (fst q), StreamRowReader.block_num_rows (snd q),
       StreamRowReader.cur_block_num (snd q)))
  = Ok (NewRecord.logical rec_7_5, 0, 2).
Proof. repeat split; vm_compute; reflexivity. Qed.

(** ** More on the bulk block writer *)

Lemma sample_writer_config : writer_config 13.
Proof. unfold writer_config, U32.modulus. cbn. lia. Qed.

Lemma length_seal (pt aad : list byte) :
  length (seal pt aad) = (length pt + 28)%nat.
Proof.
  unfold seal, tag. rewrite !length_app, !length_mask, repeat_length.
  rewrite length_firstn, length_app, repeat_length. lia.
Qed.

Lemma sample_ciphertext_length : ciphertext_length_law.
Proof.
  intros pt aad Hpt. cbn [encrypt_with_aad enc_size cipher].
  rewrite length_seal. cbn in Hpt.
  rewrite U32Facts.wrap_small; unfold U32.modulus; lia.
Qed.

Lemma row_writer_block_within_capacity_witness :
  RowWriter.row_upper_bound writer_2 = 13 /\
  RowWriter.block_padded_len writer_2 = RowWriter.block_num_rows writer_2 * 13 /\
  RowWriter.block_padded_len writer_2 <= Z.of_N MAX_BLOCK_SIZE /\
  0 <= RowWriter.block_pos writer_2 <= RowWriter.block_padded_len writer_2.
Proof.
  apply (row_writer_block_within_capacity 13 7 (repeat 0 128) []
           [rec_42; rec_9] writer_2 sample_writer_config).
  vm_compute. reflexivity.
Defined.

Lemma row_writer_rejects_long_rows_witness :
  NewRecord.row_length rec_9 <= 13.
Proof.
  apply (row_writer_rejects_long_rows rec_9
           (RowWriter.set_self_task_id 7
              (RowWriter.make (repeat 0 128) 13 []))
           (match writer_of 128 [rec_9] with
            | Ok w => w
            | Err _ => RowWriter.make [] 13 []
            end)).
  vm_compute. reflexivity.
Defined.

Lemma sample_writer_15_inv : writer_inv 13 writer_15.
Proof.
  unfold writer_inv. vm_compute.
  repeat split; try reflexivity; discriminate.
Qed.

Lemma row_writer_emits_full_block_witness :
  exists w',
    RowWriter.write rec_9 writer_15 = Ok w' /\
    RowWriter.bytes_written w'
    = U32.wrap (RowWriter.bytes_written writer_15 + 16
                + enc_size (RowWriter.block_padded_len writer_15)) /\
    RowWriter.buf_pos w'
    = RowWriter.buf_pos writer_15 + 16
      + enc_size (RowWriter.block_padded_len writer_15) /\
    load (RowWriter.buf_pos writer_15) 16 (RowWriter.mem w')
    = Ok (RowWriter.header writer_15) /\
    RowWriter.block_num_rows w' = 1 /\
    RowWriter.block_padded_len w' = 13 /\
    RowWriter.block_pos w' = NewRecord.row_length rec_9.
Proof.
  destruct (RowWriter.write rec_9 writer_15) as [w'|] eqn:E;
    [|vm_compute in E; discriminate E].
  exists w'. split; [reflexivity|].
  apply (row_writer_emits_full_block 13 rec_9 writer_15 w'
           sample_writer_config sample_writer_15_inv).
  - vm_compute. reflexivity.
  - exact E.
Defined.

Lemma row_writer_packs_one_block_witness :
  exists w w' pad,
    writer_of 128 [rec_42; rec_9] = Ok w /\
    RowWriter.bytes_written w = 0 /\
    RowWriter.buf_pos w = 0 /\
    RowWriter.mem w = repeat 0 128 /\
    RowWriter.close w = Ok w' /\
    RowWriter.bytes_written w' = U32.wrap (16 + enc_size (2 * 13)) /\
    RowWriter.buf_pos w' = 16 + enc_size (2 * 13) /\
    Z.of_nat (length (concat [bytes_of rec_42; bytes_of rec_9] ++ pad))
    = 2 * 13 /\
    load 0 16 (RowWriter.mem w')
    = Ok (U32.encode (enc_size (2 * 13)) ++ U32.encode 2
            ++ U32.encode 13 ++ U32.encode 7) /\
    load 16 (enc_size (2 * 13)) (RowWriter.mem w')
    = Ok (encrypt_with_aad
            (concat [bytes_of rec_42; bytes_of rec_9] ++ pad)
            (U32.encode (enc_size (2 * 13)) ++ U32.encode 2
               ++ U32.encode 13 ++ U32.encode 7)).
Proof.
  apply (row_writer_packs_one_block 13 7 (repeat 0 128) []
           [rec_42; rec_9] [bytes_of rec_42; bytes_of rec_9]
           sample_writer_config sample_ciphertext_length).
  - repeat constructor; vm_compute; (reflexivity || discriminate).
  - vm_compute. discriminate.
  - vm_compute. discriminate.
Defined.

(** ** More on the aggregators *)

Lemma grouping_attrs_equal_predicts_aggregate_witness :
  Aggregator1.num_distinct (agg1_after [rec_7_5; rec_7_9])
  = Aggregator1.num_distinct (agg1_after [rec_7_5]) /\
  Aggregator1.g (agg1_after [rec_7_5; rec_7_9])
  = Aggregator1.g (agg1_after [rec_7_5]).
Proof.
  assert (Hd : NewRecord.is_dummy rec_7_9 = Ok false)
    by (vm_compute; reflexivity).
  destruct (proj1 (grouping_attrs_equal_predicts_aggregate
                     (G := GroupBy.t) (A1 := Sum.t Z) (A2 := Avg.t Z)
                     (GB := GroupBy_type 1) (AG1 := Sum_type 2)
                     (AG2 := Avg_type 2) rec_7_9 true Hd)
              (agg1_after [rec_7_5]) (agg1_after [rec_7_5; rec_7_9]))
    as [Hn Hg].
  - vm_compute. reflexivity.
  - vm_compute. reflexivity.
  - split; [exact Hn|exact (Hg eq_refl)].
Defined.

Lemma aggregate_other_fresh_fails_witness :
  (s <- agg1_aggregate rec_7_5 agg1_new ;; agg1_aggregate_other agg1_new s)
  = Err GroupingMismatch /\
  (s <- agg1_aggregate rec_7_5 agg1_new ;; agg1_aggregate_other s agg1_new)
  = Err GroupingMismatch.
Proof.
  destruct (agg1_aggregate rec_7_5 agg1_new) as [s|] eqn:E;
    [|vm_compute in E; discriminate E].
  exact (proj1 (aggregate_other_fresh_fails
                  (G := GroupBy.t) (A1 := Sum.t Z) (A2 := Avg.t Z)
                  (GB := GroupBy_type 1) (FL := GroupBy_fresh 1)
                  (AG1 := Sum_type 2) (AG2 := Avg_type 2)) s).
Defined.


Lemma sum_avg_totals_witness :
  agg_add_records (AG := Sum_type 2) [rec_7_5; rec_7_9] (Sum.zero (Sum.mk 3))
  = Ok (Sum.mk 14) /\
  agg_add_records (AG := Avg_type 2) [rec_7_5; rec_7_9]
    (Avg.zero (Avg.mk 3 1))
  = Ok (Avg.mk 14 2).
Proof.
  apply (sum_avg_totals 2 [rec_7_5; rec_7_9] [5; 9] (Sum.mk 3) (Avg.mk 3 1)).
  repeat constructor; vm_compute; reflexivity.
Defined.

(** ** More on the bulk block reader *)

Lemma row_reader_leaves_verify_set_witness :
  RowReader.verify_set bulk_reader = Some [5] /\
  RowReader.verify_set (snd bulk_read_2) = Some [5].
Proof.
  apply (row_reader_leaves_verify_set bulk_blocks [] None (Some [5]) 2
           NewRecord.default bulk_reader (snd bulk_read_2)
           (fst bulk_read_2)).
  - vm_compute. reflexivity.
  - vm_compute. reflexivity.
Defined.

Lemma row_reader_skips_empty_blocks_witness :
  exists r,
    RowReader.make
      (RowReader.zero_frames [(13, seal [] [])]
       ++ RowReader.frame 1 13 (seal (bytes_of rec_9) []) ++ [])
      None None [] = Ok r /\
    RowReader.buf r
    = Z.of_nat (length (RowReader.zero_frames [(13, seal [] [])])) + 12
      + Z.of_nat (length (seal (bytes_of rec_9) [])) /\
    RowReader.block_num_rows r = 1 /\
    RowReader.block_rows_read r = 0 /\
    RowReader.block_pos r = 0 /\
    load 0 (Z.of_nat (length (bytes_of rec_9))) (RowReader.block_start r)
    = Ok (bytes_of rec_9) /\
    RowReader.has_next r = true.
Proof.
  apply (row_reader_skips_empty_blocks [(13, seal [] [])] [] [] None None
           1 13 (seal (bytes_of rec_9) []) (bytes_of rec_9)).
  - constructor; [|constructor]. split; [vm_compute; reflexivity|].
    exists []. split; vm_compute; [reflexivity|discriminate].
  - vm_compute. split; reflexivity.
  - vm_compute. reflexivity.
  - vm_compute. reflexivity.
  - vm_compute. discriminate.
Defined.

Lemma row_reader_reads_block_in_order_witness :
  exists r rows r',
    RowReader.make
      (RowReader.frame (Z.of_nat (length [bytes_of rec_42])) 13
         (seal (bytes_of rec_42) [])
       ++ RowReader.frame 1 13 (seal (bytes_of rec_9) []))
      (Some 200) None [] = Ok r /\
    RowReader.read_rows (length [bytes_of rec_42]) NewRecord.default r
    = Ok (rows, r') /\
    Forall2 (fun rec bs => NewRecord.logical rec = Ok bs) rows
      [bytes_of rec_42] /\
    RowReader.buf r' = 12 + Z.of_nat (length (seal (bytes_of rec_42) [])) /\
    RowReader.has_next r'
    = (12 + Z.of_nat (length (seal (bytes_of rec_42) [])) <? 200).
Proof.
  apply (row_reader_reads_block_in_order [bytes_of rec_42] []
           (RowReader.frame 1 13 (seal (bytes_of rec_9) [])) []
           (seal (bytes_of rec_42) []) (Some 200) None 13 NewRecord.default).
  - vm_compute. lia.
  - vm_compute. reflexivity.
  - vm_compute. reflexivity.
  - vm_compute. reflexivity.
  - vm_compute. discriminate.
  - constructor; [|constructor]. exists 1. split; vm_compute; reflexivity.
  - constructor; [|constructor]. vm_compute. lia.
Defined.

(** ** More on the streaming writer and reader *)

Lemma stream_reader_follows_writer_framing_witness :
  exists r',
    StreamRowReader.read_encrypted_block
      (StreamRowReader.mk None (StreamRowWriter.mem stream_closed_42)
         0 None 0 0 0 0 0 []) = Ok r' /\
    StreamRowReader.buf r' = StreamRowWriter.buf_pos stream_closed_42 /\
    StreamRowReader.block_num_rows r'
    = U32.wrap (StreamRowWriter.block_num_rows stream_writer_42) /\
    StreamRowReader.block_rows_read r' = 0 /\
    StreamRowReader.verify_set r'
    = StreamRowReader.add_parent
        (U32.wrap (task_id_parser (StreamRowWriter.opcode stream_writer_42)
                     (StreamRowWriter.part stream_writer_42)))
        [].
Proof.
  apply (stream_reader_follows_writer_framing (repeat 0 64)
           [StreamRowWriter.SetOpcode 3; StreamRowWriter.SetPartIndex 1;
            StreamRowWriter.Write rec_42]
           stream_writer_42 stream_closed_42
           (StreamRowReader.mk None (StreamRowWriter.mem stream_closed_42)
              0 None 0 0 0 0 0 [])).
  - vm_compute. reflexivity.
  - vm_compute. reflexivity.
  - vm_compute. discriminate.
  - reflexivity.
  - vm_compute. reflexivity.
Defined.

Lemma stream_reader_records_block_tasks_witness :
  exists task_id,
    load32 12 stream_blocks = Ok task_id /\
    StreamRowReader.verify_set stream_reader = [task_id].
Proof.
  apply (proj1 stream_reader_records_block_tasks stream_blocks None
           stream_reader).
  vm_compute. reflexivity.
Defined.

(** ** Single-row writers and readers *)

Lemma individual_writer_v_prefixes_task_id_witness :
  (w <- IndividualRowWriterV.write_all [rec_42; rec_9]
          (IndividualRowWriterV.make ([1; 2; 3; 4] ++ repeat 0 124)) ;;
   IndividualRowWriterV.close (IndividualRowWriterV.set_self_task_id 7 w))
  = (pw <- IndividualRowWriter.write_all [rec_42; rec_9]
             (IndividualRowWriter.make (repeat 0 124)) ;;
     Ok (IndividualRowWriterV.mk
           (U32.encode 7 ++ IndividualRowWriter.mem pw)
           (4 + IndividualRowWriter.buf pw) 7)) /\
  (w' <- (w <- IndividualRowWriterV.write_all [rec_42; rec_9]
                 (IndividualRowWriterV.make ([1; 2; 3; 4] ++ repeat 0 124)) ;;
          IndividualRowWriterV.close
            (IndividualRowWriterV.set_self_task_id 7 w)) ;;
   Ok (IndividualRowWriterV.bytes_written w'))
  = (pw <- IndividualRowWriter.write_all [rec_42; rec_9]
             (IndividualRowWriter.make (repeat 0 124)) ;;
     Ok (U32.add 4 (IndividualRowWriter.bytes_written pw))).
Proof.
  apply (individual_writer_v_prefixes_task_id [rec_42; rec_9]
           [1; 2; 3; 4] (repeat 0 124) 7).
  reflexivity.
Defined.

Lemma individual_reader_v_task_id_witness :
  IndividualRowReaderV.make (IndividualRowWriterV.mem individual_closed)
    (Some [5])
  = Ok (IndividualRowReaderV.mk (IndividualRowWriterV.mem individual_closed)
          (IndividualRowWriterV.buf
             (IndividualRowWriterV.make
                (IndividualRowWriterV.mem individual_written)))
          (Some (U32.wrap (IndividualRowWriterV.self_task_id
                             individual_written) :: [5]))) /\
  (exists r,
     IndividualRowReaderV.make (IndividualRowWriterV.mem individual_closed)
       None = Ok r /\
     IndividualRowReaderV.buf r = 0 /\
     load (IndividualRowReaderV.buf r) 4 (IndividualRowReaderV.mem r)
     = Ok (U32.encode (IndividualRowWriterV.self_task_id
                         individual_written))).
Proof.
  apply (individual_reader_v_task_id individual_written individual_closed
           [5]).
  vm_compute. reflexivity.
Defined.

(** ** Join rows and sort pointers *)

Lemma join_set_tags_table_witness :
  NewJoinRecord.num_cols join_7_5 = Ok 2 /\
  NewJoinRecord.is_primary join_7_5 = Ok false /\
  NewJoinRecord.is_dummy join_7_5 = Ok false.
Proof.
  destruct (join_set_tags_table false rec_7_5 NewJoinRecord.default
              join_7_5 2) as (Hn & Hp & _).
  - vm_compute. reflexivity.
  - vm_compute. reflexivity.
  - split; [exact Hn|]. apply Hp. vm_compute. reflexivity.
Defined.

Lemma sort_pointer_less_than_agrees_witness :
  exists a b,
    SortPointer.deref (snd sort_read_2)
      (SortPointer.rec (snd (fst sort_read_1))) = Ok a /\
    SortPointer.deref (snd sort_read_2)
      (SortPointer.rec (snd (fst sort_read_2))) = Ok b /\
    SortPointer.less_than (snd (fst sort_read_1)) (snd (fst sort_read_2))
      0 (Some 0) (snd sort_read_2)
    = (lt <- rec_less_than a b 0 ;;
       Ok (lt,
           if SortPointer.key_prefix (snd (fst sort_read_1))
              =? SortPointer.key_prefix (snd (fst sort_read_2))
           then option_map U32.incr (Some 0)
           else Some 0)).
Proof.
  apply (sort_pointer_less_than_agrees 0
           [NewRecord.default; NewRecord.default]
           (snd sort_read_1) (snd sort_read_2)
           (SortPointer.init 0 SortPointer.make)
           (SortPointer.init 1 SortPointer.make)
           (snd (fst sort_read_1)) (snd (fst sort_read_2))
           (bytes_of rec_7_9) (bytes_of rec_7_5) 0 0
           (fst (fst sort_read_1)) (fst (fst sort_read_2)) (Some 0)).
  - intros a b ka kb Ha Hb Hne.
    cbn [rec_get_key_prefix rec_less_than sorted_rows] in *.
    rewrite Ha, Hb. cbn [bind].
    apply Z.eqb_neq in Hne. rewrite Hne. reflexivity.
  - cbn. discriminate.
  - vm_compute. reflexivity.
  - vm_compute. reflexivity.
Defined.

(** ** The padding of a block *)

Lemma row_writer_pads_with_buffer_content_witness :
  Z.of_nat (length (bytes_of rec_42 ++ repeat 170 4)) = 17 /\
  load 16
    (Z.of_nat (length (encrypt_with_aad (bytes_of rec_42 ++ repeat 170 4)
                         (RowWriter.header writer_junk))))
    (RowWriter.mem writer_junk_closed)
  = Ok (encrypt_with_aad (bytes_of rec_42 ++ repeat 170 4)
          (RowWriter.header writer_junk)).
Proof.
  assert (Hcfg : writer_config 17)
    by (unfold writer_config, U32.modulus; cbn; lia).
  assert (Hrows : Forall2 (fun r bs => NewRecord.logical r = Ok bs /\
                                       NewRecord.row_length r <= 17)
                    [rec_42] [bytes_of rec_42])
    by (repeat constructor; vm_compute; (reflexivity || discriminate)).
  assert (Hroom : Z.of_nat (length [rec_42]) * 17 - 17
                  + Z.of_N ROW_UPPER_BOUND <= Z.of_N MAX_BLOCK_SIZE)
    by (vm_compute; discriminate).
  assert (Hrun : RowWriter.write_all [rec_42]
                   (RowWriter.set_self_task_id 7
                      (RowWriter.make (repeat 0 128) 17 (repeat 170 256)))
                 = Ok writer_junk) by (vm_compute; reflexivity).
  assert (Hclose : RowWriter.close writer_junk = Ok writer_junk_closed)
    by (vm_compute; reflexivity).
  pose proof (row_writer_pads_with_buffer_content 17 7 (repeat 0 128)
                (repeat 170 256) [rec_42] [bytes_of rec_42]
                writer_junk writer_junk_closed Hcfg
                Hrows Hroom Hrun Hclose) as H.
  cbv zeta in H.
  assert (Hpad : concat [bytes_of rec_42]
                 ++ firstn (Z.to_nat (Z.of_nat (length [rec_42]) * 17)
                            - length (concat [bytes_of rec_42]))
                      (skipn (length (concat [bytes_of rec_42]))
                         (malloc MAX_BLOCK_SIZE (repeat 170 256)))
                 = bytes_of rec_42 ++ repeat 170 4)
    by (vm_compute; reflexivity).
  rewrite Hpad in H. exact H.
Defined.

Lemma row_writer_adopts_first_bound_witness :
  RowWriter.row_upper_bound writer_unbound = 13 /\
  RowWriter.block_num_rows writer_unbound = 1 /\
  RowWriter.block_padded_len writer_unbound = U32.wrap 13 /\
  RowWriter.bytes_written writer_unbound = 0 /\
  RowWriter.buf_pos writer_unbound = 0 /\
  NewRecord.row_length rec_42 <= Z.of_N ROW_UPPER_BOUND /\
  RowWriter.row_upper_bound writer_unbound_2 = 13.
Proof.
  apply (row_writer_adopts_first_bound (repeat 0 128) [] rec_42 [rec_9]
           writer_unbound writer_unbound_2 13).
  - vm_compute. split; [discriminate|reflexivity].
  - vm_compute. reflexivity.
  - discriminate.
  - vm_compute. reflexivity.
  - vm_compute. reflexivity.
Defined.

(** ** Saved aggregation state *)

Lemma length_tag (pt aad : list byte) : length (tag pt aad) = 16%nat.
Proof.
  unfold tag. rewrite length_mask, length_firstn, length_app, repeat_length.
  lia.
Qed.

Lemma open_seal_any (pt aad : list byte) : open (seal pt aad) aad = Ok pt.
Proof.
  unfold open. rewrite length_seal.
  replace (length pt + 28 <? 28)%nat with false
    by (symmetry; apply Nat.ltb_ge; lia).
  replace (length pt + 28 - 28)%nat with (length pt) by lia.
  replace (length pt + 28 - 16)%nat with (length pt + 12)%nat by lia.
  rewrite <- skipn_skipn.
  change (skipn 12 (seal pt aad)) with (mask 90 pt ++ tag pt aad).
  assert (F : firstn (length pt) (mask 90 pt ++ tag pt aad) = mask 90 pt).
  { rewrite <- (length_mask 90 pt).
    rewrite firstn_app, Nat.sub_diag, firstn_O, app_nil_r.
    apply firstn_all. }
  assert (S : skipn (length pt) (mask 90 pt ++ tag pt aad) = tag pt aad).
  { rewrite <- (length_mask 90 pt).
    rewrite skipn_app, Nat.sub_diag, skipn_0, skipn_all. reflexivity. }
  rewrite F, S, mask_involutive.
  replace (bytes_eqb (tag pt aad) (tag pt aad)) with true; [reflexivity|].
  symmetry. apply bytes_eqb_eq. reflexivity.
Qed.

Lemma sample_plain_cipher_law : plain_cipher_law.
Proof.
  intros pt Hpt. cbn [encrypt plain decrypt enc_size cipher]. split.
  - rewrite length_seal, Hpt. reflexivity.
  - apply open_seal_any.
Qed.

(** The sample members restore what they saved. *)
Lemma sample_group_restored (tmp : list byte) :
  load 8 (Z.of_nat (length (bytes_of rec_7_5))) tmp = Ok (bytes_of rec_7_5) ->
  gb_read (GroupByStore := GroupBy_store 1) tmp 8 GroupBy.make
  = Ok (22, Aggregator1.g (agg1_after [rec_7_5; rec_7_9])).
Proof.
  intros Hl. cbn [gb_read GroupBy_store].
  rewrite (record_read_from tmp (bytes_of rec_7_5)
             (NewRecord.row
                (GroupBy.row
                   (Aggregator1.g (agg1_after [rec_7_5; rec_7_9]))))
             8 _).
  - vm_compute. reflexivity.
  - exists 2. split; vm_compute; reflexivity.
  - exact Hl.
  - vm_compute. reflexivity.
Qed.

Lemma sample_sum_restored (tmp : list byte) (pos v : Z) (a0 : Sum.t Z) :
  0 <= v < U32.modulus ->
  load pos (Z.of_nat (length (attr32 1 v))) tmp = Ok (attr32 1 v) ->
  agg_read_partial_result tmp pos a0 = Ok (9, Sum.mk v).
Proof.
  intros Hv Hl. cbn [agg_read_partial_result sum_store].
  pose proof (load_suffix _ _ 5 _ _ Hl ltac:(cbn; lia)) as H5.
  change (Z.of_nat (length (attr32 1 v)) - 5) with 4 in H5.
  unfold load32. rewrite H5. cbn [bind].
  change (skipn (Z.to_nat 5) (attr32 1 v)) with (U32.encode v).
  rewrite U32Facts.decode_encode_small by exact Hv. reflexivity.
Qed.

Lemma aggregator_state_round_trip_witness :
  Aggregator1IO.read_encrypted (GS := GroupBy_store 1) []
    (snd agg1_saved ++ []) 0 agg1_new
  = Ok (fst agg1_saved,
        Aggregator1.mk
          (U32.wrap (Aggregator1.num_distinct
                       (agg1_after [rec_7_5; rec_7_9])))
          (U32.wrap (Aggregator1.offset (agg1_after [rec_7_5; rec_7_9])))
          (Aggregator1.g (agg1_after [rec_7_5; rec_7_9]))
          (Aggregator1.a1 (agg1_after [rec_7_5; rec_7_9]))) /\
  Aggregator2IO.read_encrypted (GS := GroupBy_store 1) []
    (snd agg2_saved ++ []) 0
    (Aggregator2.make (GB := GroupBy_type 1) (AG1 := Sum_type 2)
       (AG2 := Sum_type 1))
  = Ok (fst agg2_saved,
        Aggregator2.mk
          (U32.wrap (Aggregator2.num_distinct agg2_sums))
          (U32.wrap (Aggregator2.offset agg2_sums))
          (Aggregator2.g agg2_sums) (Aggregator2.a1 agg2_sums)
          (Aggregator2.a2 agg2_sums)).
Proof.
  assert (He : enc_size (Z.of_N AGG_UPPER_BOUND) < U32.modulus)
    by (vm_compute; reflexivity).
  destruct (aggregator_state_round_trip
              (G := GroupBy.t) (A1 := Sum.t Z) (A2 := Sum.t Z)
              (GS := GroupBy_store 1) sample_plain_cipher_law He)
    as (R1 & R2).
  split.
  - refine (R1 [] [] [] (agg1_after [rec_7_5; rec_7_9]) agg1_new
              (fst agg1_saved) (snd agg1_saved)
              (22, bytes_of rec_7_5) (9, attr32 1 14) 22 9
              (Aggregator1.g (agg1_after [rec_7_5; rec_7_9]))
              (Aggregator1.a1 (agg1_after [rec_7_5; rec_7_9]))
              _ _ _ _ _ _).
    + vm_compute. reflexivity.
    + vm_compute. reflexivity.
    + vm_compute. reflexivity.
    + vm_compute. discriminate.
    + intros tmp Hl. exact (sample_group_restored tmp Hl).
    + intros tmp Hl. apply sample_sum_restored; [|exact Hl].
      vm_compute. split; [discriminate|reflexivity].
  - refine (R2 [] [] [] agg2_sums
              (Aggregator2.make (GB := GroupBy_type 1) (AG1 := Sum_type 2)
                 (AG2 := Sum_type 1))
              (fst agg2_saved) (snd agg2_saved)
              (22, bytes_of rec_7_5) (9, attr32 1 14) (9, attr32 1 14)
              22 9 9
              (Aggregator2.g agg2_sums) (Aggregator2.a1 agg2_sums)
              (Aggregator2.a2 agg2_sums) _ _ _ _ _ _ _ _ _ _).
    + vm_compute. reflexivity.
    + vm_compute. reflexivity.
    + vm_compute. reflexivity.
    + vm_compute. reflexivity.
    + vm_compute. discriminate.
    + vm_compute. discriminate.
    + reflexivity.
    + intros tmp Hl.
      replace (Aggregator2.g agg2_sums)
        with (Aggregator1.g (agg1_after [rec_7_5; rec_7_9]))
        by (vm_compute; reflexivity).
      exact (sample_group_restored tmp Hl).
    + intros tmp Hl. apply sample_sum_restored; [|exact Hl].
      vm_compute. split; [discriminate|reflexivity].
    + intros tmp Hl. apply sample_sum_restored; [|exact Hl].
      vm_compute. split; [discriminate|reflexivity].
Defined.

(** ** More on the single-row writers *)

Lemma individual_writer_layout_witness :
  exists w,
    IndividualRowWriter.write_all [rec_42; rec_9]
      (IndividualRowWriter.make (repeat 0 128)) = Ok w /\
    IndividualRowWriter.mem w
    = concat [sealed_bytes rec_42; sealed_bytes rec_9]
      ++ skipn (length (concat [sealed_bytes rec_42; sealed_bytes rec_9]))
           (repeat 0 128) /\
    IndividualRowWriter.buf w
    = Z.of_nat (length (concat [sealed_bytes rec_42; sealed_bytes rec_9])) /\
    IndividualRowWriter.bytes_written (IndividualRowWriter.close w)
    = U32.wrap
        (Z.of_nat (length (concat [sealed_bytes rec_42; sealed_bytes rec_9]))).
Proof.
  apply (individual_writer_layout [rec_42; rec_9]
           [sealed_bytes rec_42; sealed_bytes rec_9] (repeat 0 128)).
  - repeat constructor; vm_compute; (reflexivity || discriminate).
  - vm_compute. lia.
Defined.

Lemma individual_writer_checks_rows_only_witness :
  IndividualRowWriterV.write big_row
    (IndividualRowWriterV.make (repeat 0 128)) = Err CapacityExceeded /\
  IndividualRowWriterV.write_sealed (NewJoinRecord.mk big_row None)
    (IndividualRowWriterV.make (repeat 0 128))
  = Ok (IndividualRowWriterV.mk
          (repeat 0 4 ++ sealed_bytes big_row ++ repeat 0 28)
          (IndividualRowWriterV.buf
             (IndividualRowWriterV.make (repeat 0 128)) + U32.wrap 96)
          (IndividualRowWriterV.self_task_id
             (IndividualRowWriterV.make (repeat 0 128)))).
Proof.
  assert (Hw : write_encrypted big_row = Ok (96, sealed_bytes big_row))
    by (vm_compute; reflexivity).
  assert (Hbig : enc_size (Z.of_N ROW_UPPER_BOUND) < U32.wrap 96)
    by (vm_compute; reflexivity).
  apply (proj1 (individual_writer_checks_rows_only big_row None 96
                  (sealed_bytes big_row) Hw Hbig)
           (IndividualRowWriterV.make (repeat 0 128))
           (repeat 0 4 ++ sealed_bytes big_row ++ repeat 0 28)).
  vm_compute. reflexivity.
Defined.

(** ** Rows across blocks *)

Lemma sample_blocks_ok :
  Forall (block_ok (length (NewRecord.row NewRecord.default)))
    [block_a; block_b].
Proof.
  constructor; [|constructor; [|constructor]].
  - split; [vm_compute; lia|].
    split; [vm_compute; reflexivity|].
    split; [vm_compute; reflexivity|].
    split; [vm_compute; reflexivity|].
    split; [vm_compute; discriminate|].
    split.
    + constructor; [exists 1; split; vm_compute; reflexivity|].
      constructor; [exists 1; split; vm_compute; reflexivity|constructor].
    + repeat constructor; vm_compute; lia.
  - split; [vm_compute; lia|].
    split; [vm_compute; reflexivity|].
    split; [vm_compute; reflexivity|].
    split; [vm_compute; reflexivity|].
    split; [vm_compute; discriminate|].
    split.
    + constructor; [exists 2; split; vm_compute; reflexivity|constructor].
    + repeat constructor; vm_compute; lia.
Qed.

Lemma row_reader_reads_all_blocks_witness :
  exists r rows r',
    RowReader.make (concat (map block_frame [block_a; block_b]) ++ [])
      None None [] = Ok r /\
    RowReader.read_rows
      (length (concat (map blk_rows [block_a; block_b])))
      NewRecord.default r = Ok (rows, r') /\
    Forall2 (fun rec bs => NewRecord.logical rec = Ok bs) rows
      (concat (map blk_rows [block_a; block_b])) /\
    RowReader.buf r'
    = Z.of_nat (length (concat (map block_frame [block_a; block_b]))).
Proof.
  exact (row_reader_reads_all_blocks block_a [block_b] [] [] None None
           NewRecord.default sample_blocks_ok).
Defined.
